(** * wjx_to_docx: the survey-page parser, embedded and verified

    A shallow embedding of the parsing core of [wjx_to_docx.py]
    ([check_restricted_page] ... [parse_survey]) together with the
    properties its specification states about it.

    Layout
    - Part 1: Python text primitives ([str] as a sequence of code points).
    - Part 2: the Unicode tables of the interpreter and the fragment of
      [re] the program uses (backtracking matcher).
    - Part 3: the BeautifulSoup node interface the program is written
      against, the clock and insertion-ordered dictionaries.
    - Part 4: the data model and the functions of [wjx_to_docx.py].
    - Part 5: a tree-shaped reference instance of the node interface and
      sample documents, used to run the program on concrete inputs.
    - Part 6: the vocabulary of the statements and sample inputs.
    - Part 7: lemmas and theorems. *)

From Stdlib Require Import String Ascii ZArith NArith Lia DecimalPos.
From stdpp Require Import base numbers option list gmap.

Set Default Proof Using "Type".

(* ===================================================================== *)
(** * Part 1. Python text primitives                                      *)
(* ===================================================================== *)

(** A Python [str] is a sequence of Unicode code points; [len], slicing
    and [in] count code points, not bytes. *)
Abbreviation char := N (only parsing).
Abbreviation pystr := (list N) (only parsing).

Module Py.

(** ** Literals: the UTF-8 bytes of a source literal, decoded *)

Fixpoint bytes_of (s : string) : list N :=
  match s with
  | EmptyString => []
  | String a r => N_of_ascii a :: bytes_of r
  end.

Fixpoint utf8_decode (fuel : nat) (bs : list N) : pystr :=
  match fuel with
  | O => []
  | S f =>
    match bs with
    | [] => []
    | b0 :: r0 =>
      if (b0 <? 0x80)%N then b0 :: utf8_decode f r0
      else if (b0 <? 0xE0)%N then
        match r0 with
        | b1 :: r1 => ((b0 - 0xC0) * 64 + (b1 - 0x80))%N :: utf8_decode f r1
        | _ => []
        end
      else if (b0 <? 0xF0)%N then
        match r0 with
        | b1 :: b2 :: r2 =>
          ((b0 - 0xE0) * 4096 + (b1 - 0x80) * 64 + (b2 - 0x80))%N
            :: utf8_decode f r2
        | _ => []
        end
      else
        match r0 with
        | b1 :: b2 :: b3 :: r3 =>
          ((b0 - 0xF0) * 262144 + (b1 - 0x80) * 4096
           + (b2 - 0x80) * 64 + (b3 - 0x80))%N :: utf8_decode f r3
        | _ => []
        end
    end
  end.

End Py.

(** [utf8 "..."] is the Python string written as that literal. *)
Definition utf8 (s : string) : pystr :=
  Py.utf8_decode (String.length s) (Py.bytes_of s).

(** One-character literals, for patterns. *)
Definition ch (a : ascii) : char := N_of_ascii a.

Module Str.

(** ** Whitespace: [str.isspace], which is also [\s] of [re] on [str] *)
Definition isspace (c : char) : bool :=
  ((0x09 <=? c) && (c <=? 0x0D) || (0x1C <=? c) && (c <=? 0x20)
   || (c =? 0x85) || (c =? 0xA0) || (c =? 0x1680)
   || (0x2000 <=? c) && (c <=? 0x200A)
   || (c =? 0x2028) || (c =? 0x2029) || (c =? 0x202F)
   || (c =? 0x205F) || (c =? 0x3000))%N.

(** ** [s.strip()] *)
Fixpoint lstrip (s : pystr) : pystr :=
  match s with
  | c :: s' => if isspace c then lstrip s' else s
  | [] => []
  end.

Definition rstrip (s : pystr) : pystr := rev (lstrip (rev s)).

Definition strip (s : pystr) : pystr := rstrip (lstrip s).

(** ** [s.startswith(p)] and [p in s] *)
Fixpoint startswith (s p : pystr) : bool :=
  match p, s with
  | [], _ => true
  | x :: p', c :: s' => (x =? c)%N && startswith s' p'
  | _ :: _, [] => false
  end.

Fixpoint contains (s p : pystr) : bool :=
  startswith s p
  || match s with
     | [] => false
     | _ :: s' => contains s' p
     end.

(** ** [s.replace(old, new)] for a non-empty [old]: leftmost,
       non-overlapping occurrences. [skip] counts the characters of the
       occurrence just replaced that are still to be passed over. *)
Fixpoint replace_from (old new s : pystr) (skip : nat) : pystr :=
  match s with
  | [] => []
  | c :: s' =>
    match skip with
    | S n => replace_from old new s' n
    | O =>
      if startswith s old
      then new ++ replace_from old new s' (length old - 1)
      else c :: replace_from old new s' 0
    end
  end.

Definition replace (s old new : pystr) : pystr := replace_from old new s 0.

(** ** [sep.join(items)] *)
Fixpoint join (sep : pystr) (items : list pystr) : pystr :=
  match items with
  | [] => []
  | [x] => x
  | x :: rest => x ++ sep ++ join sep rest
  end.

(** ** [s[:n]] for an integer [n] (a negative [n] counts from the end) *)
Definition slice_to (s : pystr) (n : Z) : pystr :=
  if (0 <=? n)%Z then take (Z.to_nat n) s
  else take (Z.to_nat (Z.of_nat (length s) + n)) s.

(** ** [a or b] on strings *)
Definition or_else (a b : pystr) : pystr :=
  match a with
  | [] => b
  | _ => a
  end.

(** ** [bool(s)] *)
Definition truthy (s : pystr) : bool :=
  match s with
  | [] => false
  | _ => true
  end.

(** ** [str(n)] for an [int] of at most 4300 digits, as is every integer
       the program formats: a topic id comes out of [int] on at most 4300
       digits, the others are counts, indices and clock fields. *)
Fixpoint of_uint (d : Decimal.uint) : pystr :=
  match d with
  | Decimal.Nil => []
  | Decimal.D0 r => 0x30%N :: of_uint r
  | Decimal.D1 r => 0x31%N :: of_uint r
  | Decimal.D2 r => 0x32%N :: of_uint r
  | Decimal.D3 r => 0x33%N :: of_uint r
  | Decimal.D4 r => 0x34%N :: of_uint r
  | Decimal.D5 r => 0x35%N :: of_uint r
  | Decimal.D6 r => 0x36%N :: of_uint r
  | Decimal.D7 r => 0x37%N :: of_uint r
  | Decimal.D8 r => 0x38%N :: of_uint r
  | Decimal.D9 r => 0x39%N :: of_uint r
  end.

Definition of_int (n : Z) : pystr :=
  match n with
  | Z0 => [0x30%N]
  | Zpos p => of_uint (Pos.to_uint p)
  | Zneg p => 0x2D%N :: of_uint (Pos.to_uint p)
  end.

(** ** Zero-padded decimal fields of [strftime] ([%m], [%d], [%H], ...) *)
Definition pad0 (width : nat) (n : Z) : pystr :=
  let d := of_int n in
  replicate (width - length d) 0x30%N ++ d.

(** ** [s.strip(chars)] and [s.rstrip(chars)] *)
Fixpoint lstrip_chars (chars s : pystr) : pystr :=
  match s with
  | c :: s' => if bool_decide (c ∈ chars) then lstrip_chars chars s' else s
  | [] => []
  end.

Definition rstrip_chars (chars s : pystr) : pystr :=
  rev (lstrip_chars chars (rev s)).

Definition strip_chars (chars s : pystr) : pystr :=
  rstrip_chars chars (lstrip_chars chars s).

End Str.

(* ===================================================================== *)
(** * Part 2. Interpreter tables and the [re] fragment                    *)
(* ===================================================================== *)

(** The Unicode character database of the interpreter: full lower-casing
    ([str.lower]) and the decimal value of a digit character (category
    [Nd]: what [\d] matches and what [int] reads). The program is
    parametric in both tables. *)
Class UnicodeData := {
  lower : pystr -> pystr;
  decimal : char -> option N;
}.

Module Re.

(** ** Patterns *)

Inductive cset_item :=
| CLit (c : char)            (* a character *)
| CRange (lo hi : char)      (* lo-hi *)
| CSpace                     (* \s *)
| CDigit.                    (* \d *)

Inductive regex :=
| REps                                             (* empty pattern *)
| RLit (c : char)                                  (* literal character *)
| RSet (negate : bool) (items : list cset_item)    (* [...], [^...], \s, \d *)
| RCat (r1 r2 : regex)                             (* r1 r2 *)
| RAlt (r1 r2 : regex)                             (* r1|r2 *)
| RRepeat (lo : nat) (hi : option nat) (r : regex) (* greedy r{lo,hi} *)
| RGroup (n : nat) (r : regex).                    (* n-th capturing group *)

(** A literal word, and an alternation of patterns. *)
Fixpoint word (s : pystr) : regex :=
  match s with
  | [] => REps
  | [c] => RLit c
  | c :: s' => RCat (RLit c) (word s')
  end.

Fixpoint alt (rs : list regex) : regex :=
  match rs with
  | [] => RSet false []
  | [r] => r
  | r :: rs' => RAlt r (alt rs')
  end.

Definition plus (r : regex) : regex := RRepeat 1 None r.
Definition star (r : regex) : regex := RRepeat 0 None r.
Definition ws : regex := RSet false [CSpace].
Definition digit : regex := RSet false [CDigit].

(** ** [re.IGNORECASE] on the ASCII letters of a pattern

    All letters in the program's patterns are ASCII. For those,
    [IGNORECASE] on [str] identifies the 52 ASCII letters and four more
    code points: U+0130 and U+0131 with [i], U+017F with [s], U+212A with
    [k] (documentation of [re.IGNORECASE]). *)
Definition fold_lower (c : char) : char :=
  if ((0x41 <=? c) && (c <=? 0x5A))%N then (c + 32)%N
  else if ((c =? 0x130) || (c =? 0x131))%N then 0x69%N
  else if (c =? 0x17F)%N then 0x73%N
  else if (c =? 0x212A)%N then 0x6B%N
  else c.

Definition fold_upper (c : char) : char :=
  if ((0x61 <=? c) && (c <=? 0x7A))%N then (c - 32)%N else c.

Definition captures := list (nat * pystr).

Fixpoint group (m : captures) (n : nat) : pystr :=
  match m with
  | [] => []
  | (i, s) :: m' => if (i =? n)%nat then s else group m' n
  end.

Section Matcher.
Context `{UnicodeData}.

Definition item_matches (it : cset_item) (c : char) : bool :=
  match it with
  | CLit x => (x =? c)%N
  | CRange lo hi => ((lo <=? c) && (c <=? hi))%N
  | CSpace => Str.isspace c
  | CDigit => bool_decide (is_Some (decimal c))
  end.

Definition in_set (negate : bool) (items : list cset_item) (c : char) : bool :=
  xorb negate (existsb (fun it => item_matches it c) items).

Definition lit_matches (ignorecase : bool) (p c : char) : bool :=
  if ignorecase then (fold_lower p =? fold_lower c)%N else (p =? c)%N.

Definition set_matches (ignorecase negate : bool) (items : list cset_item)
    (c : char) : bool :=
  if ignorecase
  then in_set negate items (fold_lower c)
       || in_set negate items (fold_upper (fold_lower c))
  else in_set negate items c.

(** ** The backtracking matcher

    [rmatch ic r s g k] matches [r] at the start of [s]; [k] receives
    the unmatched rest and the groups captured so far, and a [None] from
    [k] makes the matcher try its next alternative: first alternative
    first, longest repetition first, as [re] does. A repetition whose
    body matches the empty string is not iterated (no pattern of the
    program has one). *)
Fixpoint rmatch {A} (ic : bool) (r : regex) (s : pystr) (g : captures)
    (k : pystr -> captures -> option A) {struct r} : option A :=
  match r with
  | REps => k s g
  | RLit p =>
    match s with
    | c :: s' => if lit_matches ic p c then k s' g else None
    | [] => None
    end
  | RSet negate items =>
    match s with
    | c :: s' => if set_matches ic negate items c then k s' g else None
    | [] => None
    end
  | RCat r1 r2 => rmatch ic r1 s g (fun s' g' => rmatch ic r2 s' g' k)
  | RAlt r1 r2 =>
    match rmatch ic r1 s g k with
    | Some a => Some a
    | None => rmatch ic r2 s g k
    end
  | RGroup n r1 =>
    rmatch ic r1 s g
      (fun s' g' => k s' (g' ++ [(n, take (length s - length s') s)]))
  | RRepeat lo hi r1 =>
    (fix rep (fuel lo : nat) (hi : option nat) (s : pystr) (g : captures)
         {struct fuel} : option A :=
       let stop := match lo with O => k s g | S _ => None end in
       match fuel, hi with
       | O, _ => stop
       | _, Some O => stop
       | S fuel', _ =>
         match rmatch ic r1 s g
                 (fun s' g' =>
                    if (length s' <? length s)%nat
                    then rep fuel' (pred lo) (pred <$> hi) s' g'
                    else None)
         with
         | Some a => Some a
         | None => stop
         end
       end) (length s) lo hi s g
  end.

(** [re.match]: the groups and the unmatched rest. *)
Definition match_at (ic : bool) (r : regex) (s : pystr)
    : option (captures * pystr) :=
  rmatch ic r s [] (fun s' g => Some (g, s')).

(** [re.search(r, s)]: the groups of the leftmost match. *)
Fixpoint search (ic : bool) (r : regex) (s : pystr) : option captures :=
  match match_at ic r s with
  | Some (g, _) => Some g
  | None =>
    match s with
    | [] => None
    | _ :: s' => search ic r s'
    end
  end.

(** [re.findall(r, s)] and [re.sub(r, repl, s)] for a pattern that does
    not match the empty string: leftmost non-overlapping matches.
    [skip] counts the characters of the last match still to pass. *)
Fixpoint findall_from (ic : bool) (r : regex) (s : pystr) (skip : nat)
    : list captures :=
  match s with
  | [] => []
  | _ :: s' =>
    match skip with
    | S n => findall_from ic r s' n
    | O =>
      match match_at ic r s with
      | Some (g, rest) =>
        g :: findall_from ic r s' (length s - length rest - 1)
      | None => findall_from ic r s' 0
      end
    end
  end.

Definition findall (ic : bool) (r : regex) (s : pystr) : list captures :=
  findall_from ic r s 0.

Fixpoint sub_from (ic : bool) (r : regex) (repl s : pystr) (skip : nat)
    : pystr :=
  match s with
  | [] => []
  | c :: s' =>
    match skip with
    | S n => sub_from ic r repl s' n
    | O =>
      match match_at ic r s with
      | Some (_, rest) =>
        repl ++ sub_from ic r repl s' (length s - length rest - 1)
      | None => c :: sub_from ic r repl s' 0
      end
    end
  end.

Definition sub (ic : bool) (r : regex) (repl s : pystr) : pystr :=
  sub_from ic r repl s 0.

End Matcher.

End Re.

(* ===================================================================== *)
(** * Part 3. The BeautifulSoup node interface                            *)
(* ===================================================================== *)

(** What the program asks of [bs4]: parsing with ["html.parser"], CSS
    selection ([select]), search by tag name ([find_all]), attribute
    lookup ([get]; the multi-valued [class] attribute is a list) and text
    extraction ([get_text(separator, strip)]). Results are in document
    order. The program is written against this interface only. *)
Class Bs4 := {
  Tag : Type;
  BeautifulSoup : pystr -> Tag;
  select : Tag -> pystr -> list Tag;
  find_all : Tag -> list pystr -> list Tag;
  get : Tag -> pystr -> option pystr;
  get_class : Tag -> list pystr;
  get_text : Tag -> pystr -> bool -> pystr;
}.

(** [select_one] and [find] are [select] and [find_all] with [limit=1]. *)
Definition select_one `{Bs4} (node : Tag) (selector : pystr) : option Tag :=
  head (select node selector).

Definition find `{Bs4} (node : Tag) (name : pystr) : option Tag :=
  head (find_all node [name]).

(** [str(node.get(attr, ''))] *)
Definition get_str `{Bs4} (node : Tag) (attr : pystr) : pystr :=
  default [] (get node attr).

(** [datetime.now()]: the wall clock is an input of the parse. *)
Record datetime := {
  year : Z; month : Z; day : Z; hour : Z; minute : Z; second : Z;
}.

(** [now.strftime("%Y-%m-%d %H:%M:%S")] *)
Definition strftime (now : datetime) : pystr :=
  Str.pad0 4 (year now) ++ utf8 "-" ++ Str.pad0 2 (month now) ++ utf8 "-"
  ++ Str.pad0 2 (day now) ++ utf8 " " ++ Str.pad0 2 (hour now) ++ utf8 ":"
  ++ Str.pad0 2 (minute now) ++ utf8 ":" ++ Str.pad0 2 (second now).

(** Insertion-ordered [dict] with [str] keys: [d[k] = v] and
    [d.get(k, default)]. *)
Abbreviation dict := (list (list N * list N)) (only parsing).

Fixpoint dict_set (d : dict) (k v : pystr) : dict :=
  match d with
  | [] => [(k, v)]
  | (k', v') :: d' =>
    if decide (k' = k) then (k, v) :: d' else (k', v') :: dict_set d' k v
  end.

Fixpoint dict_get (d : dict) (k default : pystr) : pystr :=
  match d with
  | [] => default
  | (k', v') :: d' => if decide (k' = k) then v' else dict_get d' k default
  end.

Fixpoint dict_find (d : dict) (k : pystr) : option pystr :=
  match d with
  | [] => None
  | (k', v') :: d' => if decide (k' = k) then Some v' else dict_find d' k
  end.

(* ===================================================================== *)
(** * Part 4. wjx_to_docx.py                                              *)
(* ===================================================================== *)

Definition EXIT_INVALID_ARGS : Z := 1.
Definition EXIT_NETWORK : Z := 2.
Definition EXIT_PARSE : Z := 3.

(** ** Data model *)

Record Section_ := mkSection {
  name : pystr;
  start_topic : option Z;
  end_topic : option Z;
}.

Record Question := mkQuestion {
  index : Z;
  topic_id : option Z;
  display_no : pystr;
  qtype : pystr;
  required : bool;
  stem : pystr;
  options : pystr;
  logic_notes : pystr;
  section : pystr;
}.

Record Survey := mkSurvey {
  title : pystr;
  description : pystr;
  source_url : pystr;
  crawl_time : pystr;
  sections : list Section_;
  questions : list Question;
}.

Record ExportError := mkExportError {
  code : Z;
  message : pystr;
}.

(** The exceptions that leave a call of the program: its own
    [ExportError], and the [ValueError] of the interpreter, which nothing
    in the program catches. *)
Inductive exception :=
| Export (e : ExportError)
| ValueError (message : pystr).

Coercion Export : ExportError >-> exception.

(** A call either returns or raises. *)
Inductive outcome (A : Type) :=
| Return (a : A)
| Raise (e : exception).
Arguments Return {A} a.
Arguments Raise {A} e.

#[global] Instance outcome_ret : MRet outcome := @Return.

#[global] Instance outcome_bind : MBind outcome := fun A B f m =>
  match m with
  | Return a => f a
  | Raise e => Raise e
  end.

(** The name of the implicit section holding the questions that precede
    every divider. *)
Definition DEFAULT_SECTION : pystr := utf8 "题目列表".

(** ** Patterns of the program *)

Module Pat.
Import Re.

Fixpoint cat (rs : list regex) : regex :=
  match rs with
  | [] => REps
  | [r] => r
  | r :: rs' => RCat r (cat rs')
  end.

(** [r"\s+"] *)
Definition WHITESPACE : regex := plus ws.

(** The password-field pattern: [<input], one or more characters other
    than [>], [type=], a single or double quote, [password], a single or
    double quote. *)
Definition PASSWORD_INPUT : regex :=
  cat [ word (utf8 "<input"); plus (RSet true [CLit (ch ">")]);
        word (utf8 "type="); RSet false [CLit (ch "'"); CLit 0x22%N];
        word (utf8 "password"); RSet false [CLit (ch "'"); CLit 0x22%N] ].

(** [r"(\d+)"] *)
Definition DIGITS : regex := RGroup 1 (plus digit).

(** [r"q(\d+)"] *)
Definition Q_DIGITS : regex := RCat (RLit (ch "q")) (RGroup 1 (plus digit)).

(** The assignment pattern [var\s+(NAME)\s*=\s*(VALUE);] where NAME is
    [[A-Za-z_]] followed by any number of [[A-Za-z0-9_]] and VALUE is
    [[^;]{1,800}]. *)
Definition VAR_ASSIGN : regex :=
  cat [ word (utf8 "var"); plus ws;
        RGroup 1
          (RCat (RSet false [CRange (ch "A") (ch "Z"); CRange (ch "a") (ch "z");
                             CLit (ch "_")])
                (star (RSet false [CRange (ch "A") (ch "Z");
                                   CRange (ch "a") (ch "z");
                                   CRange (ch "0") (ch "9"); CLit (ch "_")])));
        star ws; RLit (ch "="); star ws;
        RGroup 2 (RRepeat 1 (Some 800) (RSet true [CLit (ch ";")]));
        RLit (ch ";") ].

(** The keywords of [r"(rel|jump|logic|skip|display|cond)"], tried on the
    variable name, and of [r"(rel|jump|logic|skip|display|condition)"],
    tried on the value. *)
Definition NAME_KEYWORDS : list pystr :=
  [utf8 "rel"; utf8 "jump"; utf8 "logic"; utf8 "skip"; utf8 "display";
   utf8 "cond"].

Definition VALUE_KEYWORDS : list pystr :=
  [utf8 "rel"; utf8 "jump"; utf8 "logic"; utf8 "skip"; utf8 "display";
   utf8 "condition"].

Definition keywords (kws : list pystr) : regex := RGroup 1 (alt (word <$> kws)).

Definition NAME_LOGIC : regex := keywords NAME_KEYWORDS.
Definition VALUE_LOGIC : regex := keywords VALUE_KEYWORDS.

(** The character class of [sanitize_filename]: the characters [<], [>],
    [:], the double quote, [/], the backslash, [|], [?], the star, and the
    control characters U+0000 to U+001F. *)
Definition FORBIDDEN_IN_NAMES : regex :=
  RSet false [CLit (ch "<"); CLit (ch ">"); CLit (ch ":"); CLit 0x22%N;
              CLit (ch "/"); CLit 0x5C%N; CLit (ch "|"); CLit (ch "?");
              CLit (ch "*"); CRange 0x00%N 0x1F%N].

End Pat.

Section Program.
Context `{UnicodeData} `{Bs4}.

(** The number that a run of decimal digits writes. *)
Definition digits_value (s : pystr) : Z :=
  foldl (fun acc c => acc * 10 + Z.of_N (default 0%N (decimal c)))%Z 0%Z s.

(** [sys.get_int_max_str_digits()], which the program leaves at the
    interpreter's default. *)
Definition INT_MAX_STR_DIGITS : nat := 4300.

(** [int(s)] on a run of decimal digits. Python integers are unbounded,
    but the conversion counts the digits of its argument, leading zeros
    included, and raises [ValueError] when there are more than
    [sys.get_int_max_str_digits()] of them. *)
Definition digit_limit_message (digits : nat) : pystr :=
  utf8 "Exceeds the limit (" ++ Str.of_int (Z.of_nat INT_MAX_STR_DIGITS)
  ++ utf8 " digits) for integer string conversion: value has "
  ++ Str.of_int (Z.of_nat digits)
  ++ utf8 " digits; use sys.set_int_max_str_digits() to increase the limit".

Definition int_of_digits (s : pystr) : outcome Z :=
  if (INT_MAX_STR_DIGITS <? length s)%nat
  then Raise (ValueError (digit_limit_message (length s)))
  else Return (digits_value s).

Definition normalize_text (text : pystr) : pystr :=
  Str.strip (Re.sub false Pat.WHITESPACE (utf8 " ") text).

Definition tag_text (tag : option Tag) : pystr :=
  match tag with
  | None => []
  | Some tag => normalize_text (get_text tag (utf8 " ") true)
  end.

(** One iteration of the loop of [unique_keep_order], on the pair of
    [seen] and [result]. *)
Definition unique_step (acc : gset (list N) * list (list N)) (item : pystr)
    : gset (list N) * list (list N) :=
  let '(seen, result) := acc in
  if decide (item ∈ seen) then (seen, result)
  else ({[ item ]} ∪ seen, result ++ [item]).

Definition unique_keep_order (items : list pystr) : list pystr :=
  (foldl unique_step (∅, []) items).2.

Definition truncate (text : pystr) (max_len : Z) : pystr :=
  let text := normalize_text text in
  if (Z.of_nat (length text) <=? max_len)%Z then text
  else Str.slice_to text (max_len - 3) ++ utf8 "...".

(** *** Restriction detector *)

Definition keyword_reasons : dict :=
  [ (utf8 "验证码", utf8 "检测到验证码页面，当前版本不支持自动处理验证码。");
    (utf8 "滑块验证", utf8 "检测到滑块验证，当前版本不支持自动处理风控验证。");
    (utf8 "请输入访问密码", utf8 "检测到密码访问页面，当前版本不支持密码问卷。");
    (utf8 "请先登录", utf8 "检测到登录限制页面，当前版本不支持登录态问卷。");
    (utf8 "访问过于频繁", utf8 "检测到频率限制，请稍后重试。") ].

Definition PASSWORD_REASON : pystr :=
  utf8 "检测到密码输入框，当前版本不支持密码问卷。".

Fixpoint first_keyword_reason (lower_html : pystr) (items : dict)
    : option pystr :=
  match items with
  | [] => None
  | (keyword, reason) :: rest =>
    if Str.contains lower_html (lower keyword) then Some reason
    else first_keyword_reason lower_html rest
  end.

Definition check_restricted_page (html : pystr) : option pystr :=
  let lower_html := lower html in
  match first_keyword_reason lower_html keyword_reasons with
  | Some reason => Some reason
  | None =>
    match Re.search true Pat.PASSWORD_INPUT html with
    | Some _ => Some PASSWORD_REASON
    | None => None
    end
  end.

(** *** Question metadata *)

Definition parse_topic_id (raw : option pystr) : outcome (option Z) :=
  match raw with
  | None => Return None
  | Some [] => Return None
  | Some raw =>
    match Re.search false Pat.DIGITS raw with
    | None => Return None
    | Some m => n ← int_of_digits (Re.group m 1); Return (Some n)
    end
  end.

Definition qtype_mapping : dict :=
  [ (utf8 "1", utf8 "填空"); (utf8 "3", utf8 "单选"); (utf8 "4", utf8 "多选");
    (utf8 "5", utf8 "量表"); (utf8 "6", utf8 "矩阵量表") ].

Definition map_qtype (type_code : pystr) : pystr :=
  dict_get qtype_mapping type_code
    (utf8 "未知类型(" ++ Str.or_else type_code (utf8 "N/A") ++ utf8 ")").

Definition description_candidates : list pystr :=
  [utf8 "#divDesc"; utf8 "#desc"; utf8 ".desc_begin"; utf8 ".description";
   utf8 ".survey-desc"].

Fixpoint first_description (soup : Tag) (candidates : list pystr)
    : option pystr :=
  match candidates with
  | [] => None
  | selector :: rest =>
    let text := tag_text (select_one soup selector) in
    if Str.truthy text then Some text else first_description soup rest
  end.

Definition extract_description (soup : Tag) : pystr :=
  match first_description soup description_candidates with
  | Some text => text
  | None =>
    match select_one soup (utf8 "meta[property='og:description']") with
    | Some meta_desc =>
      match get meta_desc (utf8 "content") with
      | Some (c :: content) => normalize_text (c :: content)
      | _ => []
      end
    | None => []
    end
  end.

Definition is_cutfield (node : Tag) : bool :=
  bool_decide (utf8 "cutfield" ∈ get_class node).

Definition is_question_field (node : Tag) : bool :=
  bool_decide (utf8 "field" ∈ get_class node)
  && bool_decide (utf8 "ui-field-contain" ∈ get_class node).

(** *** Global logic signals *)

(** One iteration of the loop over [pattern.findall(html)]. *)
Definition signal_step (signals : dict) (m : Re.captures) : dict :=
  let name := Re.group m 1 in
  let value := Re.group m 2 in
  match Re.search true Pat.NAME_LOGIC name with
  | Some _ =>
    let clean_value := truncate value 140 in
    dict_set signals name clean_value
  | None =>
    match Re.search true Pat.VALUE_LOGIC value with
    | Some _ => dict_set signals name (truncate value 140)
    | None => signals
    end
  end.

Definition extract_global_logic_signals (html : pystr) : dict :=
  foldl signal_step [] (Re.findall true Pat.VAR_ASSIGN html).

(** *** Options *)

Fixpoint nonempty_texts (tags : list Tag) : list pystr :=
  match tags with
  | [] => []
  | label :: rest =>
    let text := tag_text (Some label) in
    if Str.truthy text then text :: nonempty_texts rest
    else nonempty_texts rest
  end.

Definition extract_option_labels (node : Tag) (selector : pystr)
    : list pystr :=
  unique_keep_order (nonempty_texts (select node selector)).

Fixpoint scale_anchors (tags : list Tag) : list pystr :=
  match tags with
  | [] => []
  | anchor :: rest =>
    let val := normalize_text (get_str anchor (utf8 "val")) in
    let title :=
      Str.or_else (normalize_text (get_str anchor (utf8 "title")))
                  (normalize_text (get_str anchor (utf8 "htitle"))) in
    if Str.truthy val
    then (if Str.truthy title then val ++ utf8 "(" ++ title ++ utf8 ")"
          else val) :: scale_anchors rest
    else scale_anchors rest
  end.

Definition NEWLINE : pystr := [0x0A%N].

Definition SCALE_PLACEHOLDER : pystr := utf8 "（量表题，未提取到刻度文本）".

Definition extract_scale_options (node : Tag) : pystr :=
  let left := tag_text (select_one node (utf8 ".scaleTitle_frist")) in
  let right := tag_text (select_one node (utf8 ".scaleTitle_last")) in
  let anchors :=
    unique_keep_order
      (scale_anchors
         (select node (utf8 ".scale-rating a[val], .scale-div a[val]"))) in
  let lines :=
    (if Str.truthy left || Str.truthy right
     then [utf8 "范围: " ++ Str.or_else left (utf8 "-") ++ utf8 " -> "
           ++ Str.or_else right (utf8 "-")]
     else [])
    ++ (match anchors with
        | [] => []
        | _ => [utf8 "刻度: " ++ Str.join (utf8 "，") anchors]
        end) in
  match lines with
  | [] => SCALE_PLACEHOLDER
  | _ => Str.join NEWLINE lines
  end.

Fixpoint matrix_row_labels (rows : list Tag) : list pystr :=
  match rows with
  | [] => []
  | row :: rest =>
    match find_all row [utf8 "th"; utf8 "td"] with
    | [] => matrix_row_labels rest
    | cell :: _ =>
      let first := tag_text (Some cell) in
      if Str.truthy first then first :: matrix_row_labels rest
      else matrix_row_labels rest
    end
  end.

Definition MATRIX_NO_TABLE : pystr := utf8 "（矩阵题，未提取到表格结构）".
Definition MATRIX_NO_ROWS : pystr := utf8 "（矩阵题，表格内容为空）".
Definition MATRIX_NO_TEXT : pystr := utf8 "（矩阵题，未提取到有效行列文本）".

Definition matrix_headers (first_row : Tag) : list pystr :=
  let header_cells := find_all first_row [utf8 "th"; utf8 "td"] in
  let headers := (fun cell => tag_text (Some cell)) <$> header_cells in
  let headers :=
    match headers with
    | [] :: rest => rest
    | _ => headers
    end in
  filter (fun h => h ≠ []) headers.

Definition extract_matrix_options (node : Tag) : pystr :=
  match select_one node (utf8 "table.matrix-rating, table.matrixtable") with
  | None => MATRIX_NO_TABLE
  | Some table =>
    match select table (utf8 "tr") with
    | [] => MATRIX_NO_ROWS
    | first_row :: more_rows =>
      let headers := matrix_headers first_row in
      let row_labels := matrix_row_labels more_rows in
      let lines :=
        (match headers with
         | [] => []
         | _ => [utf8 "列: " ++ Str.join (utf8 " | ") headers]
         end)
        ++ (match row_labels with
            | [] => []
            | _ => [utf8 "行: " ++ Str.join (utf8 "；") row_labels]
            end) in
      match lines with
      | [] => MATRIX_NO_TEXT
      | _ => Str.join NEWLINE lines
      end
    end
  end.

Definition SINGLE_PLACEHOLDER : pystr := utf8 "（单选题，未提取到选项）".
Definition MULTI_PLACEHOLDER : pystr := utf8 "（多选题，未提取到选项）".
Definition TEXT_INPUT : pystr := utf8 "（文本输入）".
Definition FALLBACK_PLACEHOLDER : pystr := utf8 "（无选项或开放题）".

Definition extract_options (node : Tag) (type_code : pystr) : pystr :=
  if decide (type_code = utf8 "3") then
    match extract_option_labels node (utf8 ".ui-radio .label") with
    | [] => SINGLE_PLACEHOLDER
    | labels => Str.join (utf8 "；") labels
    end
  else if decide (type_code = utf8 "4") then
    match extract_option_labels node (utf8 ".ui-checkbox .label") with
    | [] => MULTI_PLACEHOLDER
    | labels => Str.join (utf8 "；") labels
    end
  else if decide (type_code = utf8 "1") then TEXT_INPUT
  else if decide (type_code = utf8 "5") then extract_scale_options node
  else if decide (type_code = utf8 "6") then extract_matrix_options node
  else
    match extract_option_labels node (utf8 ".label") with
    | [] => FALLBACK_PLACEHOLDER
    | fallback_labels => Str.join (utf8 "；") fallback_labels
    end.

(** *** Logic notes *)

Definition question_attrs : list pystr :=
  [utf8 "relation"; utf8 "jumpto"; utf8 "skipto"; utf8 "rely"; utf8 "cond";
   utf8 "condition"; utf8 "showcond"; utf8 "hidecond"; utf8 "display"].

Fixpoint attr_notes (node : Tag) (attrs : list pystr) : list pystr :=
  match attrs with
  | [] => []
  | attr :: rest =>
    let value := normalize_text (get_str node attr) in
    if Str.truthy value
    then (utf8 "题属性 " ++ attr ++ utf8 "=" ++ value) :: attr_notes node rest
    else attr_notes node rest
  end.

Definition HIDDEN_NOTE : pystr := utf8 "题目初始隐藏（style=display:none）".

Definition style_notes (node : Tag) : list pystr :=
  let style :=
    Str.replace (lower (normalize_text (get_str node (utf8 "style"))))
                (utf8 " ") [] in
  if Str.contains style (utf8 "display:none") then [HIDDEN_NOTE] else [].

(** The notes one [input] or [option] element contributes. *)
Definition input_notes (input_tag : Tag) : list pystr :=
  let opt_id :=
    Str.or_else (normalize_text (get_str input_tag (utf8 "id")))
      (Str.or_else (normalize_text (get_str input_tag (utf8 "name")))
         (Str.or_else (normalize_text (get_str input_tag (utf8 "value")))
            (utf8 "未知选项"))) in
  let jumpto := normalize_text (get_str input_tag (utf8 "jumpto")) in
  let rel := normalize_text (get_str input_tag (utf8 "rel")) in
  (if Str.truthy jumpto
   then [utf8 "选项 " ++ opt_id ++ utf8 " 跳转到 " ++ jumpto]
   else [])
  ++ (if Str.truthy rel
      then
        let guess :=
          match Re.search true Pat.Q_DIGITS rel with
          | Some m => utf8 "（可能关联题 " ++ Re.group m 1 ++ utf8 "）"
          | None => []
          end in
        [utf8 "选项 " ++ opt_id ++ utf8 " 触发关联字段 " ++ rel ++ guess]
      else []).

(** The explicit per-question notes, before de-duplication. *)
Definition explicit_notes (node : Tag) : list pystr :=
  attr_notes node question_attrs
  ++ style_notes node
  ++ concat (input_notes <$> select node (utf8 "input, option")).

Fixpoint matching_signals (q_key id_key : pystr) (items : dict)
    : list pystr :=
  match items with
  | [] => []
  | (name, value) :: rest =>
    let lower_value := lower value in
    if Str.contains lower_value q_key || Str.contains lower_value id_key
    then (name ++ utf8 "=" ++ truncate value 70)
           :: matching_signals q_key id_key rest
    else matching_signals q_key id_key rest
  end.

(** The topic-specific candidate signals of a question. *)
Definition candidate_signals (topic_id : option Z) (global_signals : dict)
    : list pystr :=
  match topic_id with
  | None => []
  | Some topic_id =>
    let q_key := lower (utf8 "q" ++ Str.of_int topic_id) in
    matching_signals q_key (utf8 "_" ++ Str.of_int topic_id) global_signals
  end.

Definition CANDIDATE_PREFIX : pystr := utf8 "候选脚本标记: ".
Definition ONLY_CANDIDATES_PREFIX : pystr := utf8 "存在候选逻辑标记：".
Definition ONLY_CANDIDATES_SUFFIX : pystr := utf8 "（未形成可解析跳题规则）".
Definition NO_LOGIC : pystr := utf8 "未检测到显式逻辑".
Definition NOTE_SEP : pystr := utf8 "；".

Definition extract_logic_notes (node : Tag) (topic_id : option Z)
    (global_signals : dict) : pystr :=
  let notes := explicit_notes node in
  let topic_signals := candidate_signals topic_id global_signals in
  let notes := unique_keep_order notes in
  match notes, topic_signals with
  | _ :: _, _ :: _ =>
    let notes :=
      notes ++ [CANDIDATE_PREFIX
                ++ Str.join NOTE_SEP
                     (unique_keep_order (take 3 topic_signals))] in
    Str.join NOTE_SEP (take 8 notes)
  | _ :: _, [] => Str.join NOTE_SEP (take 8 notes)
  | [], _ :: _ =>
    let merged := Str.join NOTE_SEP (unique_keep_order (take 4 topic_signals)) in
    ONLY_CANDIDATES_PREFIX ++ merged ++ ONLY_CANDIDATES_SUFFIX
  | [], [] => NO_LOGIC
  end.

(** *** One question *)

Definition STEM_PLACEHOLDER : pystr := utf8 "（未识别题干）".

Definition parse_question (node : Tag) (display_index : Z)
    (section_name : pystr) (global_signals : dict) : outcome Question :=
  topic_id ← parse_topic_id (get node (utf8 "topic"));
  let type_code := normalize_text (get_str node (utf8 "type")) in
  let qtype := map_qtype type_code in
  let required_attr :=
    bool_decide (normalize_text (get_str node (utf8 "req")) = utf8 "1") in
  let required_star :=
    bool_decide (is_Some (select_one node (utf8 ".field-label .req"))) in
  let required := required_attr || required_star in
  let stem :=
    Str.or_else (tag_text (select_one node (utf8 ".topichtml")))
                STEM_PLACEHOLDER in
  let options := extract_options node type_code in
  let logic_notes := extract_logic_notes node topic_id global_signals in
  Return {| index := display_index;
            topic_id := topic_id;
            display_no := Str.of_int display_index;
            qtype := qtype;
            required := required;
            stem := stem;
            options := options;
            logic_notes := logic_notes;
            section := section_name |}.

(** *** Sections *)

(** [min(xs)] and [max(xs)], [None] on the empty list. *)
Definition py_min (xs : list Z) : option Z :=
  match xs with
  | [] => None
  | x :: rest => Some (foldl Z.min x rest)
  end.

Definition py_max (xs : list Z) : option Z :=
  match xs with
  | [] => None
  | x :: rest => Some (foldl Z.max x rest)
  end.

(** [[q.topic_id for q in questions
      if q.section == name and q.topic_id is not None]] *)
Definition section_topics (questions : list Question) (name : pystr)
    : list Z :=
  omap (fun q => if decide (section q = name) then topic_id q else None)
       questions.

Fixpoint collect_sections (questions : list Question)
    (ordered_names : list pystr) : list Section_ :=
  match ordered_names with
  | [] => []
  | name :: rest =>
    let topics := section_topics questions name in
    let start_topic := py_min topics in
    let end_topic := py_max topics in
    if bool_decide (topics = []) && bool_decide (name ≠ DEFAULT_SECTION)
    then collect_sections questions rest
    else mkSection name start_topic end_topic
           :: collect_sections questions rest
  end.

Definition build_sections (questions : list Question)
    (ordered_names : list pystr) : list Section_ :=
  let sections := collect_sections questions ordered_names in
  let sections :=
    match sections with
    | [] => [mkSection DEFAULT_SECTION None None]
    | _ => sections
    end in
  if (1 <? length sections)%nat
  then filter (fun s => ¬ (name s = DEFAULT_SECTION
                           ∧ start_topic s = None ∧ end_topic s = None))
              sections
  else sections.

(** *** The parse *)

(** The state of the traversal loop of [parse_survey]. *)
Record walk := mkWalk {
  ordered_names : list pystr;
  current_section : pystr;
  questions_acc : list Question;
  display_index : Z;
}.

Definition walk_start : walk :=
  {| ordered_names := [DEFAULT_SECTION];
     current_section := DEFAULT_SECTION;
     questions_acc := [];
     display_index := 0 |}.

(** The text a divider node names its section with. *)
Definition divider_name (node : Tag) : pystr :=
  Str.or_else (tag_text (find node (utf8 "div"))) (tag_text (Some node)).

(** One iteration of [for node in nodes]. *)
Definition visit (global_signals : dict) (st : walk) (node : Tag)
    : outcome walk :=
  if is_cutfield node then
    let section_name := divider_name node in
    if Str.truthy section_name then
      Return {| ordered_names :=
                  if decide (section_name ∈ ordered_names st)
                  then ordered_names st
                  else ordered_names st ++ [section_name];
                current_section := section_name;
                questions_acc := questions_acc st;
                display_index := display_index st |}
    else Return st
  else if is_question_field node then
    let display_index := (display_index st + 1)%Z in
    question ← parse_question node display_index (current_section st)
                              global_signals;
    Return {| ordered_names := ordered_names st;
              current_section := current_section st;
              questions_acc := questions_acc st ++ [question];
              display_index := display_index |}
  else Return st.

(** The loop [for node in nodes], which an exception leaves at once. *)
Fixpoint traverse (global_signals : dict) (st : walk) (nodes : list Tag)
    : outcome walk :=
  match nodes with
  | [] => Return st
  | node :: rest =>
    st ← visit global_signals st node;
    traverse global_signals st rest
  end.

Definition NO_CONTAINER : pystr := utf8 "页面中未找到题目容器 #divQuestion。".
Definition NO_QUESTIONS : pystr := utf8 "页面解析完成，但未识别到题目。".
Definition DEFAULT_TITLE : pystr := utf8 "问卷导出".

Definition parse_survey (now : datetime) (html source_url : pystr)
    : outcome Survey :=
  match check_restricted_page html with
  | Some (c :: reason) => Raise (mkExportError EXIT_PARSE (c :: reason))
  | _ =>
    let soup := BeautifulSoup html in
    match select_one soup (utf8 "#divQuestion") with
    | None => Raise (mkExportError EXIT_PARSE NO_CONTAINER)
    | Some container =>
      let title :=
        Str.or_else (tag_text (select_one soup (utf8 "#htitle")))
          (Str.or_else (tag_text (find soup (utf8 "title"))) DEFAULT_TITLE) in
      let description := extract_description soup in
      let crawl_time := strftime now in
      let global_signals := extract_global_logic_signals html in
      let nodes := find_all container [utf8 "div"] in
      st ← traverse global_signals walk_start nodes;
      match questions_acc st with
      | [] => Raise (mkExportError EXIT_PARSE NO_QUESTIONS)
      | questions =>
        let sections := build_sections questions (ordered_names st) in
        Return {| title := title;
                  description := description;
                  source_url := source_url;
                  crawl_time := crawl_time;
                  sections := sections;
                  questions := questions |}
      end
    end
  end.

End Program.

(** ** Output names, fetching and the structured form *)




(** What [requests.get] gives at one attempt: a response with its status
    code and its text under the apparent encoding, or a
    [RequestException] with its message. *)
Inductive reply :=
| Response (status_code : Z) (text : pystr)
| RequestException (msg : pystr).

(** What [fetch_html] does besides returning: requests, log lines and
    sleeps, in order. *)
Inductive event :=
| Get (attempt : Z)
| Log (message : pystr)
| Sleep (seconds : Z).

#[local] Set Warnings "-register-all".

(** The values of the structured form of a survey. *)
Inductive pyval :=
| PNone
| PBool (b : bool)
| PInt (n : Z)
| PStr (s : list N)
| PList (items : list pyval)
| PDict (entries : list (list N * pyval)).

Fixpoint pdict_get (entries : list (list N * pyval)) (k : pystr) : pyval :=
  match entries with
  | [] => PNone
  | (k', v) :: rest => if decide (k' = k) then v else pdict_get rest k
  end.

Section Output.
Context `{U : UnicodeData} `{FS : FileSystem}.

Definition DEFAULT_FILENAME : pystr := utf8 "wjx_export".

Definition sanitize_filename (name : pystr) : pystr :=
  let name := normalize_text name in
  let name := Re.sub false Pat.FORBIDDEN_IN_NAMES (utf8 "_") name in
  let name := Str.strip_chars (utf8 " .") name in
  let name := match name with [] => DEFAULT_FILENAME | _ => name end in
  if (80 <? length name)%nat
  then Str.rstrip_chars (utf8 " .") (take 80 name)
  else name.







End Output.

(** [str(last_error)] *)
Definition str_of_error (last_error : option pystr) : pystr :=
  match last_error with
  | None => utf8 "None"
  | Some msg => msg
  end.

(** The loop of [fetch_html] over the attempts still to make; [get] is
    [requests.get] with the url, the headers and the timeout fixed, as a
    function of the attempt. *)
Fixpoint fetch_loop (get : Z -> reply) (retries : Z) (attempts : list Z)
    (last_error : option pystr) (events : list event)
    : outcome pystr * list event :=
  match attempts with
  | [] =>
    (Raise (mkExportError EXIT_NETWORK
              (utf8 "网络请求失败: " ++ str_of_error last_error)),
     events)
  | attempt :: rest =>
    let events := events ++ [Get attempt] in
    let failed exc :=
      let events :=
        if (attempt <? retries)%Z then
          let sleep_sec := (2 ^ attempt)%Z in
          events
          ++ [Log (utf8 "网络请求失败，" ++ Str.of_int sleep_sec
                   ++ utf8 " 秒后重试 (" ++ Str.of_int (attempt + 1)
                   ++ utf8 "/" ++ Str.of_int retries ++ utf8 ")...");
              Sleep sleep_sec]
        else events in
      fetch_loop get retries rest (Some exc) events in
    match get attempt with
    | Response status_code text =>
      if (400 <=? status_code)%Z
      then failed (utf8 "HTTP " ++ Str.of_int status_code)
      else (Return text, events)
    | RequestException msg => failed msg
    end
  end.

Definition fetch_html (get : Z -> reply) (retries : Z)
    : outcome pystr * list event :=
  fetch_loop get retries (seqZ 0 (retries + 1)) None [].

(** [survey_to_dict] *)
Definition question_item (q : Question) : list (list N * pyval) :=
  [ (utf8 "index", PInt (index q));
    (utf8 "topic_id",
     match topic_id q with Some t => PInt t | None => PNone end);
    (utf8 "display_no", PStr (display_no q));
    (utf8 "qtype", PStr (qtype q));
    (utf8 "required", PBool (required q));
    (utf8 "stem", PStr (stem q));
    (utf8 "options", PStr (options q));
    (utf8 "logic_notes", PStr (logic_notes q));
    (utf8 "section", PStr (section q)) ].

(** [q["section"] == s.name] *)
Definition item_in_section (s : Section_) (q : list (list N * pyval)) : bool :=
  match pdict_get q (utf8 "section") with
  | PStr x => bool_decide (x = name s)
  | _ => false
  end.

Definition opt_int (o : option Z) : pyval :=
  match o with
  | Some n => PInt n
  | None => PNone
  end.

Definition section_item (question_items : list (list (list N * pyval)))
    (s : Section_) : list (list N * pyval) :=
  let sec_questions := List.filter (item_in_section s) question_items in
  [ (utf8 "name", PStr (name s));
    (utf8 "start_topic", opt_int (start_topic s));
    (utf8 "end_topic", opt_int (end_topic s));
    (utf8 "question_count", PInt (Z.of_nat (length sec_questions)));
    (utf8 "questions", PList (PDict <$> sec_questions)) ].

Definition survey_to_dict (survey : Survey) : list (list N * pyval) :=
  let question_items := question_item <$> questions survey in
  let section_items := section_item question_items <$> sections survey in
  [ (utf8 "schema_version", PStr (utf8 "1.0"));
    (utf8 "title", PStr (title survey));
    (utf8 "description", PStr (description survey));
    (utf8 "source_url", PStr (source_url survey));
    (utf8 "crawl_time", PStr (crawl_time survey));
    (utf8 "question_count", PInt (Z.of_nat (length (questions survey))));
    (utf8 "sections", PList (PDict <$> section_items));
    (utf8 "questions", PList (PDict <$> question_items)) ].

(** [render_markdown] *)

(** [x if x is not None else 'N/A'] inside an f-string. *)
Definition or_na (o : option Z) : pystr :=
  match o with
  | Some n => Str.of_int n
  | None => utf8 "N/A"
  end.

Definition question_lines (q : Question) : list pystr :=
  [ utf8 "### Q" ++ display_no q;
    utf8 "- index: " ++ Str.of_int (index q);
    utf8 "- topic_id: " ++ or_na (topic_id q);
    utf8 "- qtype: " ++ qtype q;
    utf8 "- required: " ++ (if required q then utf8 "是" else utf8 "否");
    utf8 "- stem: " ++ stem q;
    utf8 "- options:";
    utf8 "```text";
    options q;
    utf8 "```";
    utf8 "- logic_notes:";
    utf8 "```text";
    logic_notes q;
    utf8 "```";
    [] ].

Definition section_lines (survey : Survey) (s : Section_) : list pystr :=
  let section_questions :=
    List.filter (fun q => bool_decide (section q = name s))
                (questions survey) in
  match section_questions with
  | [] => []
  | _ =>
    [ utf8 "## 章节: " ++ name s;
      utf8 "- 起始题号(topic): " ++ or_na (start_topic s);
      utf8 "- 结束题号(topic): " ++ or_na (end_topic s);
      utf8 "- 章节题数: " ++ Str.of_int (Z.of_nat (length section_questions));
      [] ]
    ++ concat (question_lines <$> section_questions)
  end.

Definition render_lines (survey : Survey) : list pystr :=
  [ utf8 "# " ++ title survey;
    [];
    utf8 "## 元数据";
    utf8 "- 来源: " ++ source_url survey;
    utf8 "- 抓取时间: " ++ crawl_time survey;
    utf8 "- 题目总数: " ++ Str.of_int (Z.of_nat (length (questions survey))) ]
  ++ (if Str.truthy (description survey)
      then [utf8 "- 简介: " ++ description survey]
      else [])
  ++ [[]]
  ++ concat (section_lines survey <$> sections survey).

Definition render_markdown (survey : Survey) : pystr :=
  Str.rstrip (Str.join NEWLINE (render_lines survey)) ++ NEWLINE.

(* ===================================================================== *)
(** * Part 5. A reference instance of the interfaces                      *)
(* ===================================================================== *)

(** ASCII-only tables: exact on text whose cased letters and digits are
    ASCII (CJK text has neither case nor decimal digits). *)
Module Ascii_tables.

Definition lower_char (c : char) : char :=
  if ((0x41 <=? c) && (c <=? 0x5A))%N then (c + 32)%N else c.

Definition decimal_char (c : char) : option N :=
  if ((0x30 <=? c) && (c <=? 0x39))%N then Some (c - 0x30)%N else None.

Definition tables : UnicodeData :=
  {| lower := fun s => lower_char <$> s; decimal := decimal_char |}.

End Ascii_tables.

(** A document tree with the queries of [Bs4] computed on it, and a reader
    for well-formed markup: double-quoted or single-quoted attribute
    values, explicit end tags except on void elements, no comments,
    entities or raw-text elements containing [<]. Selectors are matched
    inside the subtree of the node they are asked on. *)
Module TreeDom.

#[local] Set Warnings "-register-all".

Inductive node :=
| Text (s : pystr)
| Elem (tag : pystr) (attrs : list (list N * list N)) (children : list node).

(** *** Queries *)

(** The element descendants of a node in document order, each with its
    chain of ancestors inside the subtree, nearest first. *)
Fixpoint descendants (ancestors : list node) (n : node)
    : list (node * list node) :=
  match n with
  | Text _ => []
  | Elem _ _ children =>
    concat ((fun c =>
               match c with
               | Text _ => []
               | Elem _ _ _ =>
                 (c, n :: ancestors) :: descendants (n :: ancestors) c
               end) <$> children)
  end.

Definition tag_of (n : node) : pystr :=
  match n with
  | Text _ => []
  | Elem tag _ _ => tag
  end.

Definition attr (n : node) (a : pystr) : option pystr :=
  match n with
  | Text _ => None
  | Elem _ attrs _ => dict_find attrs a
  end.

(** Maximal runs of non-whitespace characters. *)
Fixpoint words_from (s cur : pystr) : list pystr :=
  match s with
  | [] => match cur with [] => [] | _ => [rev cur] end
  | c :: s' =>
    if Str.isspace c
    then match cur with [] => words_from s' [] | _ => rev cur :: words_from s' [] end
    else words_from s' (c :: cur)
  end.

Definition classes (n : node) : list pystr :=
  match attr n (utf8 "class") with
  | Some v => words_from v []
  | None => []
  end.

Fixpoint strings (n : node) : list pystr :=
  match n with
  | Text s => [s]
  | Elem _ _ children => concat (strings <$> children)
  end.

Definition text_of (n : node) (separator : pystr) (strip : bool) : pystr :=
  if strip
  then Str.join separator (filter (fun s => s ≠ []) (Str.strip <$> strings n))
  else Str.join separator (strings n).

Definition by_names (n : node) (names : list pystr) : list node :=
  fst <$> filter (fun d => tag_of d.1 ∈ names) (descendants [] n).

(** *** Selectors: comma-separated alternatives of space-separated
        compounds [tag.class#id[attr]] and [[attr='value']]. *)

Record compound := mkCompound {
  c_tag : pystr;
  c_id : pystr;
  c_classes : list pystr;
  c_attrs : list (list N * option (list N));
}.

Inductive token :=
| TNone | TTag | TClass | TId | TAttr | TAttrVal (name : pystr).

Definition flush (c : compound) (t : token) (buf : pystr) : compound :=
  let w := rev buf in
  match t, w with
  | TTag, _ :: _ => mkCompound w (c_id c) (c_classes c) (c_attrs c)
  | TClass, _ :: _ => mkCompound (c_tag c) (c_id c) (c_classes c ++ [w]) (c_attrs c)
  | TId, _ :: _ => mkCompound (c_tag c) w (c_classes c) (c_attrs c)
  | TAttr, _ :: _ =>
    mkCompound (c_tag c) (c_id c) (c_classes c) (c_attrs c ++ [(w, None)])
  | TAttrVal a, _ =>
    mkCompound (c_tag c) (c_id c) (c_classes c) (c_attrs c ++ [(a, Some w)])
  | _, _ => c
  end.

Definition in_brackets (t : token) : bool :=
  match t with
  | TAttr | TAttrVal _ => true
  | _ => false
  end.

Definition compound_step (st : compound * token * pystr) (c : char)
    : compound * token * pystr :=
  let '(cmp, t, buf) := st in
  if in_brackets t then
    if (c =? ch "]")%N then (flush cmp t buf, TNone, [])
    else if (c =? ch "=")%N then
      match t with
      | TAttr => (cmp, TAttrVal (rev buf), [])
      | _ => (cmp, t, c :: buf)
      end
    else if ((c =? ch "'") || (c =? 0x22))%N then (cmp, t, buf)
    else (cmp, t, c :: buf)
  else if (c =? ch ".")%N then (flush cmp t buf, TClass, [])
  else if (c =? ch "#")%N then (flush cmp t buf, TId, [])
  else if (c =? ch "[")%N then (flush cmp t buf, TAttr, [])
  else (cmp, t, c :: buf).

Definition parse_compound (s : pystr) : compound :=
  let '(cmp, t, buf) := foldl compound_step (mkCompound [] [] [] [], TTag, []) s in
  flush cmp t buf.

Fixpoint split_from (sep : char) (s cur : pystr) : list pystr :=
  match s with
  | [] => [rev cur]
  | c :: s' =>
    if (c =? sep)%N then rev cur :: split_from sep s' []
    else split_from sep s' (c :: cur)
  end.

Definition parse_selector (s : pystr) : list (list compound) :=
  (fun alternative => parse_compound <$> words_from alternative [])
    <$> split_from (ch ",") s [].

Definition matches_compound (c : compound) (n : node) : bool :=
  bool_decide (c_tag c = [] ∨ c_tag c = tag_of n)
  && bool_decide (c_id c = [] ∨ attr n (utf8 "id") = Some (c_id c))
  && forallb (fun k => bool_decide (k ∈ classes n)) (c_classes c)
  && forallb (fun av =>
                match av.2 with
                | None => bool_decide (is_Some (attr n av.1))
                | Some v => bool_decide (attr n av.1 = Some v)
                end) (c_attrs c).

(** [outer] lists the compounds still to be found among the ancestors,
    innermost first. *)
Fixpoint ancestors_match (outer : list compound) (ancestors : list node)
    : bool :=
  match outer with
  | [] => true
  | c :: outer' =>
    match ancestors with
    | [] => false
    | a :: ancestors' =>
      if matches_compound c a then ancestors_match outer' ancestors'
      else ancestors_match outer ancestors'
    end
  end.

Definition matches_complex (cs : list compound) (d : node * list node) : bool :=
  match rev cs with
  | [] => false
  | c :: outer => matches_compound c d.1 && ancestors_match outer d.2
  end.

Definition css_select (n : node) (selector : pystr) : list node :=
  let alternatives := parse_selector selector in
  fst <$> List.filter (fun d => existsb (fun cs => matches_complex cs d) alternatives)
                      (descendants [] n).

(** *** Reading markup *)

Inductive mode :=
| MText (buf : pystr)
| MTagName (closing : bool) (buf : pystr)
| MAttrs (tag : pystr) (attrs : dict)
| MAttrName (tag : pystr) (attrs : dict) (buf : pystr)
| MAttrEq (tag : pystr) (attrs : dict) (name : pystr)
| MAttrVal (tag : pystr) (attrs : dict) (name : pystr) (quote : char)
           (buf : pystr).

(** An element still open, with the children read so far. *)
Record frame := mkFrame {
  f_tag : pystr;
  f_attrs : dict;
  f_children : list node;
}.

Definition ROOT : pystr := utf8 "[document]".

Definition void_tags : list pystr :=
  [utf8 "area"; utf8 "base"; utf8 "br"; utf8 "col"; utf8 "embed"; utf8 "hr";
   utf8 "img"; utf8 "input"; utf8 "link"; utf8 "meta"; utf8 "param";
   utf8 "source"; utf8 "track"; utf8 "wbr"].

Definition add_child (c : node) (stack : list frame) : list frame :=
  match stack with
  | [] => []
  | f :: rest => mkFrame (f_tag f) (f_attrs f) (f_children f ++ [c]) :: rest
  end.

Definition pop (stack : list frame) : list frame :=
  match stack with
  | f :: g :: rest =>
    add_child (Elem (f_tag f) (f_attrs f) (f_children f)) (g :: rest)
  | _ => stack
  end.

Definition open_tag (tag : pystr) (attrs : dict) (stack : list frame)
    : list frame :=
  if decide (tag ∈ void_tags) then add_child (Elem tag attrs []) stack
  else mkFrame tag attrs [] :: stack.

(** An end tag closes the nearest open element of that name and all
    elements opened inside it; it is ignored when there is none. *)
Definition close_tag (tag : pystr) (stack : list frame) : list frame :=
  match list_find (fun f => f_tag f = tag) (removelast stack) with
  | Some (i, _) => Nat.iter (S i) pop stack
  | None => stack
  end.

Definition flush_text (buf : pystr) (stack : list frame) : list frame :=
  match buf with
  | [] => stack
  | _ => add_child (Text (rev buf)) stack
  end.

Definition ident (buf : pystr) : pystr := Ascii_tables.lower_char <$> rev buf.

Definition read_step (st : mode * list frame) (c : char) : mode * list frame :=
  let '(m, stack) := st in
  match m with
  | MText buf =>
    if (c =? ch "<")%N then (MTagName false [], flush_text buf stack)
    else (MText (c :: buf), stack)
  | MTagName closing buf =>
    if (c =? ch "/")%N then (MTagName true buf, stack)
    else if (c =? ch ">")%N then
      (MText [], if closing then close_tag (ident buf) stack
                 else open_tag (ident buf) [] stack)
    else if Str.isspace c then
      (if closing then m else MAttrs (ident buf) [], stack)
    else (MTagName closing (c :: buf), stack)
  | MAttrs tag attrs =>
    if (c =? ch ">")%N then (MText [], open_tag tag attrs stack)
    else if Str.isspace c || (c =? ch "/")%N then (m, stack)
    else (MAttrName tag attrs [c], stack)
  | MAttrName tag attrs buf =>
    if (c =? ch "=")%N then (MAttrEq tag attrs (ident buf), stack)
    else if (c =? ch ">")%N then
      (MText [], open_tag tag (dict_set attrs (ident buf) []) stack)
    else if Str.isspace c then (MAttrs tag (dict_set attrs (ident buf) []), stack)
    else (MAttrName tag attrs (c :: buf), stack)
  | MAttrEq tag attrs name =>
    if ((c =? ch "'") || (c =? 0x22))%N then (MAttrVal tag attrs name c [], stack)
    else (MAttrs tag attrs, stack)
  | MAttrVal tag attrs name quote buf =>
    if (c =? quote)%N then (MAttrs tag (dict_set attrs name (rev buf)), stack)
    else (MAttrVal tag attrs name quote (c :: buf), stack)
  end.

Definition read (html : pystr) : node :=
  let '(m, stack) := foldl read_step (MText [], [mkFrame ROOT [] []]) html in
  let stack := match m with MText buf => flush_text buf stack | _ => stack end in
  match Nat.iter (length stack) pop stack with
  | f :: _ => Elem (f_tag f) (f_attrs f) (f_children f)
  | [] => Elem ROOT [] []
  end.

Definition bs4 : Bs4 :=
  {| Tag := node;
     BeautifulSoup := read;
     select := css_select;
     find_all := by_names;
     get := attr;
     get_class := classes;
     get_text := text_of |}.

End TreeDom.

(** The program on the reference instance. *)
Definition run_parse_survey (now : datetime) (html source_url : pystr)
    : outcome Survey :=
  @parse_survey Ascii_tables.tables TreeDom.bs4 now html source_url.

Definition sample_now : datetime :=
  {| year := 2024; month := 3; day := 9; hour := 8; minute := 5; second := 0 |}.

Definition sample_doc : pystr := utf8
  "<html><head><title>Demo</title></head><body><h1 id='htitle'>T</h1><div id='divQuestion'><div class='cutfield'><div>Part A</div></div><div class='field ui-field-contain' topic='1' type='3' req='1'><div class='topichtml'>Pick</div><div class='ui-radio'><input id='q1_1' rel='q2'><div class='label'>Yes</div></div><div class='ui-radio'><div class='label'>No</div></div></div><div class='cutfield'></div><div class='field ui-field-contain' type='1'><div class='topichtml'>Why</div></div></div><script>var relation_map = q1_2; var x = 5;</script></body></html>".

(* ===================================================================== *)
(** * Part 6. Vocabulary of the statements                                *)
(* ===================================================================== *)

(** The six messages the detector can report. *)
Definition RESTRICTED_REASONS : list pystr :=
  (snd <$> keyword_reasons) ++ [PASSWORD_REASON].

(** The two messages of a structural failure. *)
Definition STRUCTURAL_MESSAGES : list pystr := [NO_CONTAINER; NO_QUESTIONS].

(** Case-insensitive prefix and substring tests, letter by letter as
    [re.IGNORECASE] compares the letters of a pattern. *)
Fixpoint istartswith (s p : pystr) {struct p} : bool :=
  match p, s with
  | [], _ => true
  | x :: p', c :: s' =>
    (Re.fold_lower x =? Re.fold_lower c)%N && istartswith s' p'
  | _ :: _, [] => false
  end.

Fixpoint icontains (s p : pystr) : bool :=
  istartswith s p
  || match s with
     | [] => false
     | _ :: s' => icontains s' p
     end.

(** [mentions kws s]: some keyword of [kws] occurs in [s], whatever the
    case of the letters. *)
Definition mentions (kws : list pystr) (s : pystr) : bool :=
  existsb (icontains s) kws.


(** Whether an iteration of the loop stores the pair it is given. *)
Definition is_kept (m : Re.captures) : bool :=
  mentions Pat.NAME_KEYWORDS (Re.group m 1)
  || mentions Pat.VALUE_KEYWORDS (Re.group m 2).

(** The length of the longest prefix of [s] whose characters satisfy [P]. *)
Fixpoint run (P : N → bool) (s : pystr) : nat :=
  match s with
  | c :: s' => if P c then S (run P s') else O
  | [] => O
  end.

(** The greedy repetition [P{lo,hi}] of one character class, continued by
    [k]: the longest run first, then shorter ones. *)
Fixpoint greedy {A} (P : N → bool) (lo : nat) (hi : option nat) (s : pystr)
    (g : Re.captures) (k : pystr → Re.captures → option A) : option A :=
  let stop := match lo with O => k s g | S _ => None end in
  match hi with
  | Some O => stop
  | _ =>
    match s with
    | c :: s' =>
      if P c then
        match greedy P (pred lo) (pred <$> hi) s' g k with
        | Some a => Some a
        | None => stop
        end
      else stop
    | [] => stop
    end
  end.

(** Every run of whitespace replaced by one space; [in_run] tells that the
    character before was whitespace. *)
Fixpoint collapse (s : pystr) (in_run : bool) : pystr :=
  match s with
  | [] => []
  | c :: s' =>
    if Str.isspace c
    then (if in_run then collapse s' true else 0x20%N :: collapse s' true)
    else c :: collapse s' false
  end.

(** The first character, if any, is not whitespace. *)
Definition head_nonspace (s : pystr) : Prop :=
  match s with
  | [] => True
  | d :: _ => Str.isspace d = false
  end.

(** Every whitespace character is a plain space, and is not followed by
    whitespace. *)
Fixpoint tidy (s : pystr) : Prop :=
  match s with
  | [] => True
  | c :: s' =>
    (Str.isspace c = true → c = 0x20%N ∧ head_nonspace s') ∧ tidy s'
  end.

(** Normalized text: tidy, and no whitespace at either end. *)
Definition normalized (s : pystr) : Prop :=
  tidy s ∧ head_nonspace s ∧ head_nonspace (rev s).

(** An explicit note begins with the character of "题" or of "选". *)
Definition note_head (s : pystr) : Prop :=
  head s = Some 0x9898%N ∨ head s = Some 0x9009%N.

(** [names.append(x)] unless [x in names]. *)
Definition add_name (names : list pystr) (x : pystr) : list pystr :=
  if decide (x ∈ names) then names else names ++ [x].

(** The characters [sanitize_filename] replaces. *)
Definition forbidden_in_names (c : N) : bool :=
  bool_decide (c ∈ [0x3C; 0x3E; 0x3A; 0x22; 0x2F; 0x5C; 0x7C; 0x3F; 0x2A]%N)
  || (c <=? 0x1F)%N.

(** An attempt fails when [requests.get] raises or the status is 400 or
    more; [error_text] is [str] of the exception then caught. *)
Definition failing (r : reply) : Prop :=
  match r with
  | Response status_code _ => (400 <= status_code)%Z
  | RequestException _ => True
  end.

Definition error_text (r : reply) : pystr :=
  match r with
  | Response status_code _ => utf8 "HTTP " ++ Str.of_int status_code
  | RequestException msg => msg
  end.

(** The seconds slept and the attempts requested, in order. *)
Definition sleeps (events : list event) : list Z :=
  omap (fun e => match e with Sleep s => Some s | _ => None end) events.

Definition gets (events : list event) : list Z :=
  omap (fun e => match e with Get a => Some a | _ => None end) events.

(** What a failed attempt leaves in the trace. *)
Definition failure_events (retries attempt : Z) : list event :=
  Get attempt
  :: (if (attempt <? retries)%Z
      then [Log (utf8 "网络请求失败，" ++ Str.of_int (2 ^ attempt)
                 ++ utf8 " 秒后重试 (" ++ Str.of_int (attempt + 1)
                 ++ utf8 "/" ++ Str.of_int retries ++ utf8 ")...");
            Sleep (2 ^ attempt)]
      else []).

(** The sum of a list of integers. *)
Definition total (xs : list Z) : Z := foldr Z.add 0%Z xs.

(** Reading the counts back from the structured form: the integer stored
    under a key, and the [question_count] of every entry of [sections]. *)
Definition int_entry (d : list (list N * pyval)) (k : pystr) : Z :=
  match pdict_get d k with
  | PInt n => n
  | _ => 0%Z
  end.

Definition section_counts (d : list (list N * pyval)) : list Z :=
  match pdict_get d (utf8 "sections") with
  | PList items =>
    (fun v => match v with
              | PDict sec => int_entry sec (utf8 "question_count")
              | _ => 0%Z
              end) <$> items
  | _ => []
  end.

(** The questions a section entry of the structured form lists. *)
Definition section_questions (d : list (list N * pyval)) : list pyval :=
  match pdict_get d (utf8 "questions") with
  | PList items => items
  | _ => []
  end.

Section Vocabulary.
Context `{U : UnicodeData} `{B : Bs4}.

(** What [\d] matches: the characters with a decimal value. *)
Definition is_decimal (c : N) : bool := bool_decide (is_Some (decimal c)).

(** The first maximal run of decimal digits of a text. *)
Fixpoint first_digit_run (s : pystr) : option pystr :=
  match s with
  | [] => None
  | c :: s' =>
    if is_decimal c then Some (take (run is_decimal s) s)
    else first_digit_run s'
  end.

(** The non-empty section names of the dividers among [nodes], in
    document order. *)
Definition divider_names (nodes : list Tag) : list pystr :=
  filter (fun nm => nm ≠ []) (divider_name <$> List.filter is_cutfield nodes).

(** How the loop body classifies a node: a node carrying the divider
    class is a divider whatever else it carries; a question node is a
    node that reaches [parse_question]. *)
Definition is_divider (node : Tag) : bool := is_cutfield node.

Definition is_question_node (node : Tag) : bool :=
  negb (is_cutfield node) && is_question_field node.

(** The question container of a document, and the nodes the traversal
    visits. *)
Definition container_of (html : pystr) : option Tag :=
  select_one (BeautifulSoup html) (utf8 "#divQuestion").

Definition nodes_of (html : pystr) : list Tag :=
  match container_of html with
  | Some container => find_all container [utf8 "div"]
  | None => []
  end.

Definition question_nodes_of (html : pystr) : list Tag :=
  List.filter is_question_node (nodes_of html).

Definition divider_nodes_of (html : pystr) : list Tag :=
  List.filter is_divider (nodes_of html).

(** The question that [parse_question] builds once the topic id is
    known: everything after its first statement. *)
Definition question_of (node : Tag) (topic_id : option Z) (display_index : Z)
    (section_name : pystr) (global_signals : dict) : Question :=
  let type_code := normalize_text (get_str node (utf8 "type")) in
  {| index := display_index;
     topic_id := topic_id;
     display_no := Str.of_int display_index;
     qtype := map_qtype type_code;
     required :=
       bool_decide (normalize_text (get_str node (utf8 "req")) = utf8 "1")
       || bool_decide (is_Some (select_one node (utf8 ".field-label .req")));
     stem :=
       Str.or_else (tag_text (select_one node (utf8 ".topichtml")))
                   STEM_PLACEHOLDER;
     options := extract_options node type_code;
     logic_notes := extract_logic_notes node topic_id global_signals;
     section := section_name |}.

(** The traversal state at the end of the loop, when the loop ends. *)
Definition final_walk (html : pystr) : outcome walk :=
  traverse (extract_global_logic_signals html) walk_start (nodes_of html).

(** The survey returned from the final state of the loop. *)
Definition survey_of (now : datetime) (html source_url : pystr) (st : walk)
    : Survey :=
  {| title :=
       Str.or_else
         (tag_text (select_one (BeautifulSoup html) (utf8 "#htitle")))
         (Str.or_else
            (tag_text (find (BeautifulSoup html) (utf8 "title")))
            DEFAULT_TITLE);
     description := extract_description (BeautifulSoup html);
     source_url := source_url;
     crawl_time := strftime now;
     sections := build_sections (questions_acc st) (ordered_names st);
     questions := questions_acc st |}.

(** The digits that [parse_topic_id] converts for a node: the first run of
    decimal digits of its [topic] attribute. The node is [oversized] when
    that run is longer than [int] accepts. *)
Definition topic_digits (node : Tag) : option pystr :=
  get node (utf8 "topic") ≫= first_digit_run.

Definition oversized (node : Tag) : bool :=
  match topic_digits node with
  | Some digits => (INT_MAX_STR_DIGITS <? length digits)%nat
  | None => false
  end.

(** [no_options_found node type_code placeholder]: the extraction that
    [type_code] selects finds nothing on [node], and [placeholder] is the
    literal of that case. *)
Inductive no_options_found (node : Tag) : pystr → pystr → Prop :=
| no_radio_labels :
    extract_option_labels node (utf8 ".ui-radio .label") = [] →
    no_options_found node (utf8 "3") SINGLE_PLACEHOLDER
| no_checkbox_labels :
    extract_option_labels node (utf8 ".ui-checkbox .label") = [] →
    no_options_found node (utf8 "4") MULTI_PLACEHOLDER
| no_scale_text :
    tag_text (select_one node (utf8 ".scaleTitle_frist")) = [] →
    tag_text (select_one node (utf8 ".scaleTitle_last")) = [] →
    scale_anchors
      (select node (utf8 ".scale-rating a[val], .scale-div a[val]")) = [] →
    no_options_found node (utf8 "5") SCALE_PLACEHOLDER
| no_matrix_table :
    select_one node (utf8 "table.matrix-rating, table.matrixtable") = None →
    no_options_found node (utf8 "6") MATRIX_NO_TABLE
| no_matrix_rows (table : Tag) :
    select_one node (utf8 "table.matrix-rating, table.matrixtable")
    = Some table →
    select table (utf8 "tr") = [] →
    no_options_found node (utf8 "6") MATRIX_NO_ROWS
| no_matrix_text (table first_row : Tag) (more_rows : list Tag) :
    select_one node (utf8 "table.matrix-rating, table.matrixtable")
    = Some table →
    select table (utf8 "tr") = first_row :: more_rows →
    matrix_headers first_row = [] →
    matrix_row_labels more_rows = [] →
    no_options_found node (utf8 "6") MATRIX_NO_TEXT
| no_fallback_labels (type_code : pystr) :
    type_code ∉ [utf8 "1"; utf8 "3"; utf8 "4"; utf8 "5"; utf8 "6"] →
    extract_option_labels node (utf8 ".label") = [] →
    no_options_found node type_code FALLBACK_PLACEHOLDER.

(** A divider without text leaves the traversal state as it is. *)
Definition nameless_divider (node : Tag) : Prop :=
  is_divider node = true → divider_name node = [].

(** The claim of C8 on one step of the loop: the divider's text becomes
    the current section. *)
Definition divider_renames (signals : dict) (st : walk) (node : Tag)
    : Prop :=
  is_divider node = true →
  ∃ st', visit signals st node = Return st'
         ∧ current_section st' = divider_name node.

(** What the traversal maintains about section names. *)
Definition names_consistent (st : walk) : Prop :=
  NoDup (ordered_names st)
  ∧ current_section st ∈ ordered_names st
  ∧ Forall (fun q => section q ∈ ordered_names st) (questions_acc st).


End Vocabulary.

(** ** Sample documents and nodes *)

Definition sample_survey : Survey :=
  Eval vm_compute in
    match run_parse_survey sample_now sample_doc (utf8 "u") with
    | Return s => s
    | Raise _ => mkSurvey [] [] [] [] [] []
    end.

Definition password_doc : pystr := utf8
  "<html><body><form><input name='pw' type='password'></form><div id='divQuestion'><div class='field ui-field-contain' topic='1' type='1'></div></div></body></html>".

(** The first divider and the first question node of [sample_doc]. *)
Definition sample_divider : TreeDom.node :=
  Eval vm_compute in
    default (TreeDom.Text []) (head (@divider_nodes_of TreeDom.bs4 sample_doc)).


Definition sample_signals : dict :=
  Eval vm_compute in @extract_global_logic_signals Ascii_tables.tables sample_doc.

(** A divider without any text, and a traversal state inside "Part A". *)
Definition empty_divider : TreeDom.node :=
  TreeDom.Elem (utf8 "div") [(utf8 "class", utf8 "cutfield")] [].

Definition walk_in_part_a : walk :=
  {| ordered_names := [DEFAULT_SECTION; utf8 "Part A"];
     current_section := utf8 "Part A";
     questions_acc := [];
     display_index := 0 |}.

(** A single-choice question without option labels, and a question
    without a type attribute. *)
Definition bare_choice : TreeDom.node :=
  TreeDom.Elem (utf8 "div")
    [(utf8 "class", utf8 "field ui-field-contain"); (utf8 "type", utf8 "3")] [].

Definition untyped_node : TreeDom.node :=
  TreeDom.Elem (utf8 "div") [(utf8 "class", utf8 "field ui-field-contain")] [].

(** A section whose only question has no topic attribute. *)
Definition untopiced_doc : pystr := utf8
  "<html><body><div id='divQuestion'><div class='cutfield'>Part A</div><div class='field ui-field-contain' type='1'><div class='topichtml'>Why</div></div></div></body></html>".

Definition untopiced_survey : Survey :=
  Eval vm_compute in
    match run_parse_survey sample_now untopiced_doc (utf8 "u") with
    | Return s => s
    | Raise _ => mkSurvey [] [] [] [] [] []
    end.

(** A document whose only question node has no type attribute and a
    topic attribute of 4301 digits. *)
Definition oversized_doc : pystr :=
  utf8 "<html><body><div id='divQuestion'><div class='field ui-field-contain' topic='"
  ++ replicate 4301 (ch "7")
  ++ utf8 "'><div class='topichtml'>Why</div></div></div></body></html>".

Definition oversized_node : TreeDom.node :=
  TreeDom.Elem (utf8 "div")
    [(utf8 "class", utf8 "field ui-field-contain");
     (utf8 "topic", replicate 4301 (ch "7"))]
    [TreeDom.Elem (utf8 "div") [(utf8 "class", utf8 "topichtml")]
       [TreeDom.Text (utf8 "Why")]].

(** A script that assigns the same variable twice. *)
Definition reassigned_doc : pystr := utf8
  "var relation_map = q1_2; var relation_map = q3; var x = 5;".

Definition reassigned_matches : list Re.captures :=
  Eval vm_compute in
    @Re.findall Ascii_tables.tables true Pat.VAR_ASSIGN reassigned_doc.

(** A server that times out twice and then answers, and one that always
    answers 503. *)
Definition flaky_get (attempt : Z) : reply :=
  if (attempt <? 2)%Z then RequestException (utf8 "timeout")
  else Response 200 (utf8 "<html></html>").

Definition unavailable_get (attempt : Z) : reply := Response 503 [].

(* ===================================================================== *)
(** * Part 7. Lemmas and theorems                                         *)
(* ===================================================================== *)

#[local] Set Warnings "-clear-no-such-hyp".
Arguments utf8 : simpl never.

(** ** Text helpers *)

Lemma length_slice_to (s : pystr) (n : Z) :
  (0 <= n)%Z → (Z.of_nat (length (Str.slice_to s n)) <= n)%Z.
Proof.
  intros Hn. unfold Str.slice_to.
  destruct (Z.leb_spec 0 n); [|lia].
  rewrite length_take. lia.
Qed.

Lemma join_nonempty (sep x : pystr) (rest : list pystr) :
  x ≠ [] → Str.join sep (x :: rest) ≠ [].
Proof.
  intros Hx. destruct rest as [|y rest]; simpl; [done|].
  destruct x; [done|]. discriminate.
Qed.

Section Facts.
Context `{UnicodeData} `{Bs4}.

Lemma truncate_length (text : pystr) (max_len : Z) :
  (3 <= max_len)%Z → (Z.of_nat (length (truncate text max_len)) <= max_len)%Z.
Proof.
  intros Hmax. unfold truncate.
  destruct (Z.leb_spec (Z.of_nat (length (normalize_text text))) max_len);
    [done|].
  rewrite length_app.
  pose proof (length_slice_to (normalize_text text) (max_len - 3)) as Hs.
  change (length (utf8 "...")) with 3%nat. lia.
Qed.

(** *** [unique_keep_order] *)

Lemma unique_fold_inv (items : list pystr) (seen : gset (list N))
    (result : list pystr) :
  (∀ x, x ∈ seen ↔ x ∈ result) → NoDup result →
  let r := foldl unique_step (seen, result) items in
  (∀ x, x ∈ r.1 ↔ x ∈ r.2) ∧ NoDup r.2
  ∧ (∀ x, x ∈ r.2 ↔ x ∈ result ∨ x ∈ items)
  ∧ result `prefix_of` r.2
  ∧ (length r.2 ≤ length result + length items)%nat.
Proof.
  revert seen result.
  induction items as [|item items IH]; intros seen result Hseen Hnd; simpl.
  - split_and!; [done|done|set_solver|done|lia].
  - destruct (decide (item ∈ seen)) as [Hin|Hnin].
    + destruct (IH seen result Hseen Hnd) as (I1 & I2 & I3 & I4 & I5).
      split_and!; [done|done| |done|lia].
      intros x. rewrite I3. apply Hseen in Hin. set_solver.
    + destruct (IH ({[item]} ∪ seen) (result ++ [item])) as (I1 & I2 & I3 & I4 & I5).
      * intros x. rewrite elem_of_union, elem_of_singleton, elem_of_app,
          list_elem_of_singleton, Hseen. tauto.
      * apply NoDup_app. split_and!; [done| |apply NoDup_singleton].
        intros x Hx Hx'. apply list_elem_of_singleton in Hx' as ->.
        apply Hnin, Hseen, Hx.
      * split_and!; [done|done| | |].
        -- intros x. rewrite I3, elem_of_app, list_elem_of_singleton.
           set_solver.
        -- etrans; [|exact I4]. by apply prefix_app_r.
        -- rewrite length_app in I5. simpl in I5. lia.
Qed.

Lemma unique_keep_order_spec (items : list pystr) :
  NoDup (unique_keep_order items)
  ∧ (∀ x, x ∈ unique_keep_order items ↔ x ∈ items)
  ∧ (length (unique_keep_order items) ≤ length items)%nat.
Proof.
  unfold unique_keep_order.
  destruct (unique_fold_inv items ∅ []) as (_ & I2 & I3 & _ & I5);
    [set_solver|constructor|].
  split_and!; [done| |simpl in I5; lia].
  intros x. rewrite I3. set_solver.
Qed.

Lemma unique_keep_order_nil_iff (items : list pystr) :
  unique_keep_order items = [] ↔ items = [].
Proof.
  destruct (unique_keep_order_spec items) as (_ & Hin & _).
  split.
  - intros Hnil. destruct items as [|x items]; [done|].
    specialize (Hin x). rewrite Hnil in Hin. set_solver.
  - by intros ->.
Qed.

End Facts.

(** ** The traversal of [parse_survey] *)

Section Traversal.
Context `{UnicodeData} `{Bs4}.

Lemma bind_Return {A B} (m : outcome A) (f : A → outcome B) (b : B) :
  m ≫= f = Return b ↔ ∃ a, m = Return a ∧ f a = Return b.
Proof.
  destruct m as [a|e]; simpl.
  - split; [by exists a|]. by intros (? & [= <-] & ?).
  - split; [done|]. by intros (? & ? & _).
Qed.


Lemma parse_question_eq (node : Tag) (display_index : Z)
    (section_name : pystr) (signals : dict) :
  parse_question node display_index section_name signals
  = topic_id ← parse_topic_id (get node (utf8 "topic"));
    Return (question_of node topic_id display_index section_name signals).
Proof. reflexivity. Qed.

Lemma parse_question_Return (node : Tag) (display_index : Z)
    (section_name : pystr) (signals : dict) (q : Question) :
  parse_question node display_index section_name signals = Return q
  ↔ ∃ topic_id,
      parse_topic_id (get node (utf8 "topic")) = Return topic_id
      ∧ q = question_of node topic_id display_index section_name signals.
Proof.
  rewrite parse_question_eq, bind_Return.
  split; intros (t & Ht & Hq); exists t; (split; [done|]); congruence.
Qed.

Lemma parse_question_index (node : Tag) (display_index : Z)
    (section_name : pystr) (signals : dict) (q : Question) :
  parse_question node display_index section_name signals = Return q →
  index q = display_index ∧ section q = section_name
  ∧ display_no q = Str.of_int display_index.
Proof. intros (t & _ & ->)%parse_question_Return. done. Qed.

Lemma visit_question (signals : dict) (st : walk) (node : Tag) :
  is_question_node node = true →
  visit signals st node =
    question ← parse_question node (display_index st + 1)
                              (current_section st) signals;
    Return {| ordered_names := ordered_names st;
              current_section := current_section st;
              questions_acc := questions_acc st ++ [question];
              display_index := (display_index st + 1)%Z |}.
Proof.
  unfold is_question_node, visit. intros Hq.
  apply andb_true_iff in Hq as [Hc Hf]. apply negb_true_iff in Hc.
  by rewrite Hc, Hf.
Qed.

Lemma visit_divider (signals : dict) (st : walk) (node : Tag) :
  is_divider node = true →
  visit signals st node =
    Return
      match divider_name node with
      | [] => st
      | section_name =>
        {| ordered_names :=
             if decide (section_name ∈ ordered_names st)
             then ordered_names st
             else ordered_names st ++ [section_name];
           current_section := section_name;
           questions_acc := questions_acc st;
           display_index := display_index st |}
      end.
Proof.
  unfold is_divider, visit. intros ->.
  by destruct (divider_name node).
Qed.

Lemma visit_other (signals : dict) (st : walk) (node : Tag) :
  is_divider node = false → is_question_node node = false →
  visit signals st node = Return st.
Proof.
  unfold is_divider, is_question_node, visit. intros ->. simpl. by intros ->.
Qed.

Lemma visit_cases (signals : dict) (st : walk) (node : Tag) :
  (is_divider node = true ∧ is_question_node node = false)
  ∨ (is_divider node = false ∧ is_question_node node = true)
  ∨ (is_divider node = false ∧ is_question_node node = false).
Proof.
  unfold is_divider, is_question_node.
  destruct (is_cutfield node), (is_question_field node); simpl; tauto.
Qed.

(** What one iteration that returns has done. *)
Lemma visit_Return (signals : dict) (st st' : walk) (node : Tag) :
  visit signals st node = Return st' →
  (is_divider node = true
   ∧ st' = match divider_name node with
           | [] => st
           | section_name =>
             {| ordered_names :=
                  if decide (section_name ∈ ordered_names st)
                  then ordered_names st
                  else ordered_names st ++ [section_name];
                current_section := section_name;
                questions_acc := questions_acc st;
                display_index := display_index st |}
           end)
  ∨ (is_question_node node = true
     ∧ ∃ q, parse_question node (display_index st + 1) (current_section st)
                           signals = Return q
            ∧ st' = {| ordered_names := ordered_names st;
                       current_section := current_section st;
                       questions_acc := questions_acc st ++ [q];
                       display_index := (display_index st + 1)%Z |})
  ∨ (is_divider node = false ∧ is_question_node node = false ∧ st' = st).
Proof.
  destruct (visit_cases signals st node) as [[Hd Hq]|[[Hd Hq]|[Hd Hq]]].
  - rewrite visit_divider by done. intros [= <-]. by left.
  - rewrite visit_question by done.
    intros (q & Hp & [= <-])%bind_Return. right; left. split; [done|].
    by exists q.
  - rewrite visit_other by done. intros [= <-]. by right; right.
Qed.

Lemma traverse_cons (signals : dict) (st : walk) (node : Tag)
    (nodes : list Tag) :
  traverse signals st (node :: nodes)
  = visit signals st node ≫= fun st => traverse signals st nodes.
Proof. reflexivity. Qed.

Lemma traverse_app (signals : dict) (st : walk) (l1 l2 : list Tag) :
  traverse signals st (l1 ++ l2)
  = traverse signals st l1 ≫= fun st => traverse signals st l2.
Proof.
  revert st. induction l1 as [|node l1 IH]; intros st; [done|].
  cbn [app]. rewrite !traverse_cons.
  destruct (visit signals st node) as [st1|e]; simpl; [apply IH|done].
Qed.

(** The questions appended by a run of the loop, their indices, and the
    growth of the list of section names. *)
Lemma traverse_inv (signals : dict) (nodes : list Tag) (st st' : walk) :
  traverse signals st nodes = Return st' →
  let qnodes := List.filter is_question_node nodes in
  ∃ qs,
    questions_acc st' = questions_acc st ++ qs
    ∧ Forall2 (fun q node =>
                 parse_question node (index q) (section q) signals
                 = Return q)
              qs qnodes
    ∧ index <$> qs
      = (fun k => display_index st + Z.of_nat k)%Z <$> seq 1 (length qnodes)
    ∧ (length (ordered_names st')
       ≤ length (ordered_names st) + length (List.filter is_divider nodes))%nat.
Proof.
  revert st. induction nodes as [|node nodes IH]; intros st.
  - intros [= <-]. exists []. rewrite app_nil_r.
    split_and!; [done|constructor|done|simpl; lia].
  - rewrite traverse_cons. intros (st1 & Hv & Ht)%bind_Return.
    destruct (IH _ Ht) as (qs & E1 & E2 & E3 & E4).
    apply visit_Return in Hv
      as [[Hd ->]|[(Hq & q & Hp & ->)|(Hd & Hq & ->)]].
    + assert (is_question_node node = false) as Hq.
      { unfold is_question_node. unfold is_divider in Hd. by rewrite Hd. }
      simpl. rewrite Hd, Hq. exists qs.
      destruct (divider_name node) as [|c nm] eqn:Hnm.
      * split_and!; [done|done|done|simpl; lia].
      * simpl in *. split_and!; [done|done|done|].
        destruct (decide (c :: nm ∈ ordered_names st));
          [lia|rewrite length_app in E4; simpl in E4; lia].
    + assert (is_divider node = false) as Hd.
      { unfold is_question_node in Hq. unfold is_divider.
        by destruct (is_cutfield node). }
      destruct (parse_question_index _ _ _ _ _ Hp) as (Hi & Hs & _).
      simpl in *. rewrite Hd, Hq. simpl.
      exists (q :: qs). split_and!.
      * rewrite E1, <- app_assoc. reflexivity.
      * constructor; [by rewrite Hi, Hs|done].
      * rewrite fmap_cons, E3.
        apply (f_equal2 cons); [lia|].
        change (list_fmap nat Z) with (@fmap list _ nat Z).
        rewrite <- (fmap_S_seq 1), <- list_fmap_compose.
        apply list_fmap_ext. intros i x _. simpl. lia.
      * lia.
    + simpl. rewrite Hd, Hq. by exists qs.
Qed.

(** *** Sections never outnumber the names they are built from *)

Lemma length_collect_sections (questions : list Question)
    (names : list pystr) :
  (length (collect_sections questions names) ≤ length names)%nat.
Proof.
  induction names as [|nm names IH]; simpl; [done|].
  destruct (_ && _); simpl; lia.
Qed.

Lemma length_build_sections (questions : list Question)
    (names : list pystr) :
  names ≠ [] →
  (length (build_sections questions names) ≤ length names)%nat.
Proof.
  intros Hne. unfold build_sections.
  pose proof (length_collect_sections questions names) as Hc.
  assert (length names ≠ 0)%nat by (destruct names; simpl; [done|lia]).
  destruct (collect_sections questions names) as [|s0 ss]; simpl.
  - lia.
  - destruct ss as [|s1 ss]; simpl; [simpl in Hc; lia|].
    etrans; [apply length_filter|]. exact Hc.
Qed.

Lemma traverse_names_nonempty (signals : dict) (nodes : list Tag)
    (st st' : walk) :
  traverse signals st nodes = Return st' →
  ordered_names st ≠ [] →
  ordered_names st' ≠ [].
Proof.
  revert st. induction nodes as [|node nodes IH]; intros st.
  { by intros [= <-]. }
  rewrite traverse_cons. intros (st1 & Hv & Ht)%bind_Return Hne.
  apply (IH _ Ht).
  apply visit_Return in Hv as [[_ ->]|[(_ & q & _ & ->)|(_ & _ & ->)]];
    [|done|done].
  destruct (divider_name node); [done|]. simpl.
  destruct (decide _); [done|]. by destruct (ordered_names st).
Qed.

End Traversal.

(** ** The restriction detector *)

Section Detector.
Context `{UnicodeData}.

Lemma first_keyword_reason_in (lower_html reason : pystr) (items : dict) :
  first_keyword_reason lower_html items = Some reason →
  reason ∈ snd <$> items.
Proof.
  induction items as [|[keyword r] items IH]; simpl; [done|].
  destruct (Str.contains _ _).
  - intros [= ->]. left.
  - intros Hr. right. by apply IH.
Qed.

Lemma check_restricted_page_reason (html reason : pystr) :
  check_restricted_page html = Some reason → reason ∈ RESTRICTED_REASONS.
Proof.
  unfold check_restricted_page, RESTRICTED_REASONS. intros Hc.
  apply elem_of_app.
  destruct (first_keyword_reason _ _) as [r|] eqn:Hk.
  - injection Hc as ->. left. by eapply first_keyword_reason_in.
  - destruct (Re.search _ _ _); [|done].
    injection Hc as <-. right. left.
Qed.

Lemma restricted_reasons_nonempty :
  Forall (fun reason => reason ≠ []) RESTRICTED_REASONS.
Proof. repeat constructor; discriminate. Qed.

Lemma check_restricted_page_truthy (html reason : pystr) :
  check_restricted_page html = Some reason → reason ≠ [].
Proof.
  intros Hc%check_restricted_page_reason.
  by eapply (proj1 (Forall_forall _ _) restricted_reasons_nonempty).
Qed.

(** The detector reports exactly when a keyword occurs in the lowered
    text or the password-field pattern matches. *)
Lemma check_restricted_page_None (html : pystr) :
  check_restricted_page html = None ↔
  Forall (fun kw => Str.contains (lower html) (lower kw) = false)
         (fst <$> keyword_reasons)
  ∧ Re.search true Pat.PASSWORD_INPUT html = None.
Proof.
  unfold check_restricted_page.
  assert (∀ items,
    first_keyword_reason (lower html) items = None ↔
    Forall (fun kw => Str.contains (lower html) (lower kw) = false)
           (fst <$> items)) as Hk.
  { induction items as [|[kw r] items IH]; simpl.
    - split; [constructor|done].
    - destruct (Str.contains _ _) eqn:E.
      + split; [done|]. intros Hf. inversion Hf. congruence.
      + rewrite IH. split; [by constructor|by inversion 1]. }
  destruct (first_keyword_reason _ _) eqn:E.
  - split; [done|]. intros [Hf _]. apply Hk in Hf. congruence.
  - apply Hk in E. destruct (Re.search _ _ _).
    + split; [done|]. by intros [_ ?].
    + by split.
Qed.

End Detector.

(** ** Properties of [parse_survey] *)

Section Parse.
Context `{UnicodeData} `{Bs4}.

Lemma final_walk_questions (html : pystr) (st : walk) :
  final_walk html = Return st →
  Forall2 (fun q node =>
             parse_question node (index q) (section q)
                            (extract_global_logic_signals html)
             = Return q)
          (questions_acc st) (question_nodes_of html)
  ∧ index <$> questions_acc st
    = Z.of_nat <$> seq 1 (length (question_nodes_of html))
  ∧ (length (ordered_names st) ≤ 1 + length (divider_nodes_of html))%nat.
Proof.
  unfold final_walk, question_nodes_of, divider_nodes_of. intros Hw.
  destruct (traverse_inv _ _ _ _ Hw) as (qs & E1 & E2 & E3 & E4).
  simpl in E1. rewrite E1. split_and!; [done| |exact E4].
  rewrite E3. apply list_fmap_ext. intros i k _. simpl. lia.
Qed.

(** [parse_survey] once the detector has reported nothing. *)
Lemma parse_survey_unrestricted (now : datetime) (html source_url : pystr) :
  check_restricted_page html = None →
  parse_survey now html source_url =
    match container_of html with
    | None => Raise (mkExportError EXIT_PARSE NO_CONTAINER)
    | Some container =>
      st ← final_walk html;
      match questions_acc st with
      | [] => Raise (mkExportError EXIT_PARSE NO_QUESTIONS)
      | _ => Return (survey_of now html source_url st)
      end
    end.
Proof.
  intros Hc. unfold parse_survey, final_walk, nodes_of, container_of.
  rewrite Hc. destruct (select_one _ _); [|done].
  destruct (traverse _ _ _) as [st|e]; [|done]. simpl.
  unfold survey_of. by destruct (questions_acc st).
Qed.

End Parse.

Section MainTheorems.
Context `{U : UnicodeData} `{B : Bs4}.

Lemma parse_survey_return_unrestricted (now : datetime)
    (html source_url : pystr) (s : Survey) :
  parse_survey now html source_url = Return s →
  check_restricted_page html = None.
Proof.
  unfold parse_survey. intros Hp.
  destruct (check_restricted_page html) as [[|c r]|] eqn:Hc; [|done|done].
  by apply check_restricted_page_truthy in Hc.
Qed.

(** A returned survey is built from the final state of a loop that ended
    with at least one question. *)
Lemma parse_survey_Return (now : datetime) (html source_url : pystr)
    (s : Survey) :
  parse_survey now html source_url = Return s →
  ∃ st, check_restricted_page html = None
        ∧ container_of html ≠ None
        ∧ final_walk html = Return st
        ∧ questions_acc st ≠ []
        ∧ s = survey_of now html source_url st.
Proof.
  intros Hp.
  pose proof (parse_survey_return_unrestricted _ _ _ _ Hp) as Hc.
  rewrite (parse_survey_unrestricted _ _ _ Hc) in Hp.
  destruct (container_of html) as [container|]; [|done].
  apply bind_Return in Hp as (st & Hw & Hp). exists st.
  destruct (questions_acc st) as [|q qs] eqn:Hq; [done|].
  by injection Hp as <-.
Qed.

(** C1. A returned survey has one question per recognized question node,
    in traversal order, numbered 1..N with [display_no] the decimal form
    of the index, and at most D+1 sections for D divider nodes. *)
Theorem parse_survey_questions_indexed (now : datetime)
    (html source_url : pystr) (s : Survey) :
  parse_survey now html source_url = Return s →
  let N := length (question_nodes_of html) in
  let D := length (divider_nodes_of html) in
  length (questions s) = N
  ∧ index <$> questions s = Z.of_nat <$> seq 1 N
  ∧ Forall (fun q => display_no q = Str.of_int (index q)) (questions s)
  ∧ Forall2 (fun q node =>
               parse_question node (index q) (section q)
                              (extract_global_logic_signals html)
               = Return q)
            (questions s) (question_nodes_of html)
  ∧ (length (sections s) ≤ D + 1)%nat.
Proof.
  intros Hp N D.
  destruct (parse_survey_Return _ _ _ _ Hp) as (st & _ & _ & Hw & _ & ->).
  destruct (final_walk_questions _ _ Hw) as (F1 & F2 & F3).
  cbn [questions sections survey_of].
  split_and!.
  - by apply Forall2_length in F1.
  - done.
  - clear -F1.
    induction F1 as [|q' node qs' ns Hq' _ IH]; constructor; [|done].
    by destruct (parse_question_index _ _ _ _ _ Hq') as (_ & _ & ->).
  - done.
  - etrans; [apply length_build_sections|].
    + apply (traverse_names_nonempty _ _ _ _ Hw). discriminate.
    + unfold D. lia.
Qed.

(** C5. Two parses of the same text and locator, at whatever times,
    raise the same error or return surveys equal in every field but
    [crawl_time], which is the formatted clock reading. *)
Theorem parse_survey_deterministic (now1 now2 : datetime)
    (html url : pystr) :
  match parse_survey now1 html url, parse_survey now2 html url with
  | Return s1, Return s2 =>
    title s1 = title s2 ∧ description s1 = description s2
    ∧ source_url s1 = source_url s2 ∧ sections s1 = sections s2
    ∧ questions s1 = questions s2
    ∧ crawl_time s1 = strftime now1 ∧ crawl_time s2 = strftime now2
  | Raise e1, Raise e2 => e1 = e2
  | _, _ => False
  end.
Proof.
  unfold parse_survey.
  destruct (check_restricted_page html) as [[|c r]|]; try done;
    (destruct (select_one _ _); [|done]);
    (destruct (traverse _ _ _) as [st|e]; [|done]); simpl;
    by destruct (questions_acc st).
Qed.

End MainTheorems.

Lemma restricted_not_structural :
  Forall (fun r => r ∉ STRUCTURAL_MESSAGES) RESTRICTED_REASONS.
Proof. apply (bool_decide_unpack _). vm_compute. exact I. Qed.

(** C2. When the detector reports a reason, the parse raises the parse
    error carrying exactly that reason, one of the detector's six messages
    and none of the structural ones. The node interface [B] is arbitrary:
    nothing that reading the markup or looking up the container would give
    can change the result. *)
Theorem restricted_page_raises (U : UnicodeData) (B : Bs4) (now : datetime)
    (html source_url reason : pystr) :
  check_restricted_page html = Some reason →
  @parse_survey U B now html source_url
  = Raise (mkExportError EXIT_PARSE reason)
  ∧ reason ∈ RESTRICTED_REASONS
  ∧ reason ∉ STRUCTURAL_MESSAGES.
Proof.
  intros Hc.
  pose proof (check_restricted_page_reason _ _ Hc) as Hin.
  pose proof (check_restricted_page_truthy _ _ Hc) as Hne.
  split_and!; [|done|].
  - unfold parse_survey. rewrite Hc. by destruct reason.
  - by eapply (proj1 (Forall_forall _ _) restricted_not_structural).
Qed.

(** ** The parse on the sample documents *)

Lemma parse_survey_questions_indexed_witness :
  @parse_survey Ascii_tables.tables TreeDom.bs4 sample_now sample_doc (utf8 "u")
  = Return sample_survey
  ∧ length (questions sample_survey) = 2%nat
  ∧ index <$> questions sample_survey = [1; 2]%Z
  ∧ (length (sections sample_survey) ≤ 2 + 1)%nat.
Proof.
  assert (@parse_survey Ascii_tables.tables TreeDom.bs4 sample_now sample_doc
            (utf8 "u") = Return sample_survey) as Hp
    by (vm_compute; reflexivity).
  split; [exact Hp|].
  destruct (@parse_survey_questions_indexed Ascii_tables.tables TreeDom.bs4
              sample_now sample_doc (utf8 "u") sample_survey Hp)
    as (H1 & H2 & _ & _ & H5).
  split_and!; [exact H1|exact H2|exact H5].
Defined.

Lemma restricted_page_raises_witness :
  @check_restricted_page Ascii_tables.tables password_doc
  = Some PASSWORD_REASON
  ∧ @parse_survey Ascii_tables.tables TreeDom.bs4 sample_now password_doc
      (utf8 "u")
    = Raise (mkExportError EXIT_PARSE PASSWORD_REASON).
Proof.
  assert (@check_restricted_page Ascii_tables.tables password_doc
          = Some PASSWORD_REASON) as Hc by (vm_compute; reflexivity).
  split; [exact Hc|].
  exact (proj1 (restricted_page_raises Ascii_tables.tables TreeDom.bs4
                  sample_now password_doc (utf8 "u") PASSWORD_REASON Hc)).
Defined.

(** ** Options and type tags *)

Section Options.
Context `{U : UnicodeData} `{B : Bs4}.

Lemma truthy_nonempty (s : pystr) : Str.truthy s = true ↔ s ≠ [].
Proof. by destruct s. Qed.

Lemma nonempty_texts_nonempty (tags : list Tag) :
  Forall (fun t => t ≠ []) (nonempty_texts tags).
Proof.
  induction tags as [|tag tags IH]; simpl; [constructor|].
  destruct (Str.truthy _) eqn:Ht; [|done].
  constructor; [by apply truthy_nonempty|done].
Qed.

Lemma unique_keep_order_Forall (P : pystr → Prop) (items : list pystr) :
  Forall P items → Forall P (unique_keep_order items).
Proof.
  destruct (unique_keep_order_spec items) as (_ & Hin & _).
  rewrite !Forall_forall. intros HP x Hx. by apply HP, Hin.
Qed.

Lemma join_nonempty_all (sep : pystr) (items : list pystr) :
  items ≠ [] → Forall (fun t => t ≠ []) items → Str.join sep items ≠ [].
Proof.
  destruct items as [|x rest]; [done|].
  intros _ Hall. apply join_nonempty. by apply Forall_inv in Hall.
Qed.

Lemma labels_text_nonempty (node : Tag) (selector fallback : pystr) :
  fallback ≠ [] →
  match extract_option_labels node selector with
  | [] => fallback
  | labels => Str.join (utf8 "；") labels
  end ≠ [].
Proof.
  intros Hf.
  pose proof (unique_keep_order_Forall _ _
                (nonempty_texts_nonempty (select node selector))) as Hall.
  fold (extract_option_labels node selector) in Hall.
  destruct (extract_option_labels node selector) as [|l ls]; [done|].
  by apply join_nonempty_all.
Qed.

Lemma literal_app_nonempty (lit rest : pystr) : lit ≠ [] → lit ++ rest ≠ [].
Proof. by destruct lit. Qed.

(** Whatever the node and its type code, the options text is not the
    empty string. *)
Lemma extract_options_nonempty (node : Tag) (type_code : pystr) :
  extract_options node type_code ≠ [].
Proof.
  unfold extract_options.
  repeat destruct (decide _); try (by apply labels_text_nonempty); [done| |].
  - unfold extract_scale_options. cbv zeta.
    destruct (Str.truthy _ || Str.truthy _);
      destruct (unique_keep_order _); cbn [app];
      first [done
            |apply join_nonempty, literal_app_nonempty;
             vm_compute; discriminate].
  - unfold extract_matrix_options.
    destruct (select_one _ _) as [table|]; [|done].
    destruct (select table _) as [|first_row more_rows]; [done|].
    cbv zeta.
    destruct (matrix_headers first_row), (matrix_row_labels more_rows);
      cbn [app];
      first [done
            |apply join_nonempty, literal_app_nonempty;
             vm_compute; discriminate].
Qed.

Ltac type_code_cases :=
  repeat match goal with
         | |- context [decide (?a = ?b)] =>
           destruct (decide (a = b)) as [?Heq|?Hne];
           [try (exfalso; vm_compute in Heq; discriminate Heq)|]
         end.

(** C9. When the extraction for the question's type finds nothing, the
    options text is the placeholder literal of that case, and that literal
    is not the empty string. *)
Theorem options_placeholder_when_none_found (node : Tag) (display_index : Z)
    (section_name : pystr) (signals : dict) (placeholder : pystr) :
  no_options_found node (normalize_text (get_str node (utf8 "type")))
                   placeholder →
  extract_options node (normalize_text (get_str node (utf8 "type")))
  = placeholder
  ∧ (∀ q, parse_question node display_index section_name signals = Return q →
          options q = placeholder)
  ∧ placeholder ≠ [].
Proof.
  intros Hnone.
  enough (extract_options node (normalize_text (get_str node (utf8 "type")))
          = placeholder ∧ placeholder ≠ []) as [Ho Hne].
  { split_and!; [done| |done].
    by intros q (t & _ & ->)%parse_question_Return. }
  revert Hnone.
  remember (normalize_text (get_str node (utf8 "type"))) as type_code.
  clear Heqtype_code. unfold extract_options.
  intros [Hl|Hl|Hleft Hright Ha|Ht|table Ht Hr|table first more Ht Hr Hh Hl
          |tc Hnot Hl].
  - rewrite Hl. by type_code_cases.
  - rewrite Hl. by type_code_cases.
  - unfold extract_scale_options. rewrite Hleft, Hright, Ha.
    by type_code_cases.
  - unfold extract_matrix_options. rewrite Ht. by type_code_cases.
  - unfold extract_matrix_options. rewrite Ht, Hr. by type_code_cases.
  - unfold extract_matrix_options. rewrite Ht, Hr, Hh, Hl.
    by type_code_cases.
  - rewrite Hl. split; [|done].
    repeat match goal with
           | |- context [decide (tc = ?b)] =>
             destruct (decide (tc = b)) as [->|?]; [exfalso; apply Hnot|]
           end; try done; set_solver.
Qed.

(** A node without a type attribute, or with an empty one: the type tag
    and the options of the question built from it. *)
Lemma untyped_question_of (node : Tag) (topic_id : option Z)
    (display_index : Z) (section_name : pystr) (signals : dict) :
  get node (utf8 "type") = None ∨ get node (utf8 "type") = Some [] →
  let q := question_of node topic_id display_index section_name signals in
  qtype q = utf8 "未知类型(N/A)"
  ∧ options q
    = match extract_option_labels node (utf8 ".label") with
      | [] => FALLBACK_PLACEHOLDER
      | labels => Str.join (utf8 "；") labels
      end.
Proof.
  intros Hty.
  assert (normalize_text (get_str node (utf8 "type")) = []) as Hcode.
  { unfold get_str. by destruct Hty as [-> | ->]. }
  unfold question_of. cbn [qtype options]. rewrite Hcode. split.
  - by vm_compute.
  - unfold extract_options. by type_code_cases.
Qed.

End Options.

(** ** Logic notes *)

Section LogicNotes.
Context `{U : UnicodeData} `{B : Bs4}.





End LogicNotes.

(** ** Dividers and the current section *)

Section Dividers.
Context `{U : UnicodeData} `{B : Bs4}.

Lemma visit_keeps_current_section (signals : dict) (st st' : walk)
    (node : Tag) :
  nameless_divider node →
  visit signals st node = Return st' →
  current_section st' = current_section st.
Proof.
  intros Hn Hv.
  apply visit_Return in Hv as [[Hd ->]|[(_ & q & _ & ->)|(_ & _ & ->)]];
    [|done|done].
  by rewrite (Hn Hd).
Qed.

Lemma traverse_keeps_current_section (signals : dict) (nodes : list Tag)
    (st st' : walk) :
  Forall nameless_divider nodes →
  traverse signals st nodes = Return st' →
  current_section st' = current_section st.
Proof.
  intros Hn. revert st.
  induction Hn as [|node nodes Hnode _ IH]; intros st.
  { by intros [= <-]. }
  rewrite traverse_cons. intros (st1 & Hv & Ht)%bind_Return.
  rewrite (IH _ Ht). by eapply visit_keeps_current_section.
Qed.

Lemma traverse_questions_prefix (signals : dict) (nodes : list Tag)
    (st st' : walk) :
  traverse signals st nodes = Return st' →
  questions_acc st `prefix_of` questions_acc st'.
Proof.
  intros Ht. destruct (traverse_inv _ _ _ _ Ht) as (qs & E & _).
  rewrite E. by exists qs.
Qed.

(** C8, as the code has it. A divider whose text ([divider_name]: the
    text of its first inner [div], else its own) is not empty makes that
    text the current section and appends it to the section names unless
    already there; a divider with empty text changes nothing. Question
    nodes that follow, up to the next divider with a non-empty text, are
    given that section, in the loop and in the returned survey. *)
Theorem divider_sets_current_section (signals : dict) (st : walk)
    (node : Tag) :
  is_divider node = true →
  ∃ st',
    visit signals st node = Return st'
    ∧ (divider_name node = [] → st' = st)
    ∧ (divider_name node ≠ [] →
       current_section st' = divider_name node
       ∧ ordered_names st'
         = (if decide (divider_name node ∈ ordered_names st)
            then ordered_names st
            else ordered_names st ++ [divider_name node])
       ∧ questions_acc st' = questions_acc st
       ∧ display_index st' = display_index st
       ∧ ∀ later qnode st2,
           Forall nameless_divider later →
           is_question_node qnode = true →
           traverse signals st' later = Return st2 →
           current_section st2 = divider_name node
           ∧ ∀ st3,
               visit signals st2 qnode = Return st3 →
               ∃ q,
                 parse_question qnode (display_index st2 + 1)
                                (divider_name node) signals = Return q
                 ∧ questions_acc st3 = questions_acc st2 ++ [q])
    ∧ ∀ now html url s before later qnode after,
        divider_name node ≠ [] →
        nodes_of html = before ++ node :: later ++ qnode :: after →
        Forall nameless_divider later →
        is_question_node qnode = true →
        parse_survey now html url = Return s →
        ∃ q, q ∈ questions s
             ∧ parse_question qnode (index q) (divider_name node)
                              (extract_global_logic_signals html)
               = Return q.
Proof.
  intros Hd.
  assert (∀ sig st0 st1, divider_name node ≠ [] →
            visit sig st0 node = Return st1 →
            current_section st1 = divider_name node) as Hcur.
  { intros sig st0 st1 Hne. rewrite visit_divider by done. intros [= <-].
    by destruct (divider_name node). }
  assert (∀ sig st2 st3 qnode,
            is_question_node qnode = true →
            visit sig st2 qnode = Return st3 →
            ∃ q, parse_question qnode (display_index st2 + 1)
                                (current_section st2) sig = Return q
                 ∧ questions_acc st3 = questions_acc st2 ++ [q]) as Hstep.
  { intros sig st2 st3 qnode Hq. rewrite visit_question by done.
    intros (q & Hp & [= <-])%bind_Return. by exists q. }
  eexists. split; [by apply visit_divider|]. split_and!.
  - intros Hnil. by rewrite Hnil.
  - intros Hne.
    destruct (divider_name node) as [|c nm] eqn:Hnm; [done|]. cbn.
    split_and!; [done|done|done|done|].
    intros later qnode st2 Hlater Hq Ht.
    pose proof (traverse_keeps_current_section _ _ _ _ Hlater Ht) as Hsec.
    cbn in Hsec. split; [done|].
    intros st3 Hv. destruct (Hstep _ _ _ _ Hq Hv) as (q & Hp & Hacc).
    exists q. by rewrite <- Hsec.
  - intros now html url s before later qnode after Hne Hnodes Hlater Hq Hp.
    destruct (parse_survey_Return _ _ _ _ Hp) as (stf & _ & _ & Hw & _ & ->).
    cbn [questions survey_of].
    unfold final_walk in Hw. rewrite Hnodes in Hw.
    set (sig := extract_global_logic_signals html) in *.
    rewrite traverse_app in Hw.
    apply bind_Return in Hw as (st1 & _ & Hw).
    rewrite traverse_cons in Hw.
    apply bind_Return in Hw as (st1' & Hv1 & Hw).
    rewrite traverse_app in Hw.
    apply bind_Return in Hw as (st2 & Hlat & Hw).
    rewrite traverse_cons in Hw.
    apply bind_Return in Hw as (st3 & Hv3 & Hw).
    assert (current_section st2 = divider_name node) as Hsec.
    { rewrite (traverse_keeps_current_section _ _ _ _ Hlater Hlat).
      by eapply Hcur. }
    destruct (Hstep _ _ _ _ Hq Hv3) as (q & Hpq & Hacc).
    rewrite Hsec in Hpq.
    destruct (parse_question_index _ _ _ _ _ Hpq) as (Hi & _ & _).
    exists q. split; [|by rewrite Hi].
    eapply elem_of_prefix; [|by eapply traverse_questions_prefix].
    rewrite Hacc. apply elem_of_app. right. left.
Qed.

End Dividers.

(** ** Global logic signals *)

Lemma dict_set_keys (d : dict) (k v k' : pystr) :
  k' ∈ (dict_set d k v).*1 ↔ k' = k ∨ k' ∈ d.*1.
Proof.
  induction d as [|[k0 v0] d IH]; simpl.
  - rewrite list_elem_of_singleton. split; [by left|].
    intros [?|Hin]; [done|by apply elem_of_nil in Hin].
  - destruct (decide (k0 = k)) as [->|Hne]; simpl.
    + rewrite !elem_of_cons. tauto.
    + rewrite !elem_of_cons, IH. tauto.
Qed.


Section Signals.
Context `{U : UnicodeData}.

Lemma rmatch_word {A} (w s : pystr) (g : Re.captures)
    (k : pystr → Re.captures → option A) :
  Re.rmatch true (Re.word w) s g k
  = if istartswith s w then k (drop (length w) s) g else None.
Proof.
  revert s g k. induction w as [|c w IH]; intros s g k; [done|].
  destruct w as [|c' w'].
  - cbn [Re.word Re.rmatch]. destruct s as [|c0 s']; [done|].
    unfold Re.lit_matches. cbn [istartswith length drop].
    by rewrite andb_true_r.
  - change (Re.word (c :: c' :: w'))
      with (Re.RCat (Re.RLit c) (Re.word (c' :: w'))).
    cbn [Re.rmatch]. destruct s as [|c0 s']; [done|].
    unfold Re.lit_matches. cbn [istartswith]. fold istartswith.
    destruct (Re.fold_lower c =? Re.fold_lower c0)%N; [|done].
    rewrite IH. reflexivity.
Qed.

Lemma rmatch_alt_words {A} (kws : list pystr) (s : pystr) (g : Re.captures)
    (k : pystr → Re.captures → option A) :
  (∀ s' g', is_Some (k s' g')) →
  is_Some (Re.rmatch true (Re.alt (Re.word <$> kws)) s g k)
  ↔ existsb (istartswith s) kws = true.
Proof.
  intros Hk. induction kws as [|kw kws IH].
  - cbn. destruct s; split; intros Hs; try discriminate Hs;
      by apply is_Some_None in Hs.
  - destruct kws as [|kw' kws'].
    + change (Re.alt (Re.word <$> [kw])) with (Re.word kw).
      rewrite rmatch_word. cbn [existsb]. rewrite orb_false_r.
      destruct (istartswith s kw); [done|].
      split; [by intros ?%is_Some_None|done].
    + change (Re.alt (Re.word <$> kw :: kw' :: kws'))
        with (Re.RAlt (Re.word kw) (Re.alt (Re.word <$> kw' :: kws'))).
      cbn [Re.rmatch]. rewrite rmatch_word.
      change (existsb (istartswith s) (kw :: kw' :: kws'))
        with (istartswith s kw || existsb (istartswith s) (kw' :: kws')).
      destruct (istartswith s kw).
      * destruct (Hk (drop (length kw) s) g) as [a ->]. by split.
      * exact IH.
Qed.

Lemma match_at_keywords (kws : list pystr) (s : pystr) :
  is_Some (Re.match_at true (Pat.keywords kws) s)
  ↔ existsb (istartswith s) kws = true.
Proof.
  unfold Re.match_at, Pat.keywords. cbn [Re.rmatch].
  apply rmatch_alt_words. eauto.
Qed.

Lemma mentions_cons (kws : list pystr) (c : N) (s : pystr) :
  mentions kws (c :: s)
  = existsb (istartswith (c :: s)) kws || mentions kws s.
Proof.
  unfold mentions. induction kws as [|kw kws IH]; [done|].
  cbn [existsb]. rewrite IH.
  change (icontains (c :: s) kw)
    with (istartswith (c :: s) kw || icontains s kw).
  destruct (istartswith (c :: s) kw), (icontains s kw),
    (existsb (istartswith (c :: s)) kws); done.
Qed.

Lemma mentions_nil (kws : list pystr) :
  mentions kws [] = existsb (istartswith []) kws.
Proof.
  unfold mentions. induction kws as [|kw kws IH]; [done|].
  cbn [existsb]. rewrite IH.
  change (icontains [] kw) with (istartswith [] kw || false).
  by rewrite orb_false_r.
Qed.

(** The keyword patterns of the program search for a keyword as a
    case-insensitive substring. *)
Lemma search_keywords (kws : list pystr) (s : pystr) :
  is_Some (Re.search true (Pat.keywords kws) s) ↔ mentions kws s = true.
Proof.
  induction s as [|c s IH].
  - cbn [Re.search]. rewrite mentions_nil, <- match_at_keywords.
    destruct (Re.match_at true (Pat.keywords kws) []) as [[g r]|];
      split; intros Hs; try done; by apply is_Some_None in Hs.
  - cbn [Re.search]. rewrite mentions_cons, orb_true_iff, <- IH,
      <- match_at_keywords.
    destruct (Re.match_at true (Pat.keywords kws) (c :: s)) as [[g r]|].
    + split; [by left|done].
    + split; [by right|]. intros [Hs|Hs]; [by apply is_Some_None in Hs|done].
Qed.

Lemma signal_step_kept (signals : dict) (m : Re.captures) :
  signal_step signals m
  = if is_kept m
    then dict_set signals (Re.group m 1) (truncate (Re.group m 2) 140)
    else signals.
Proof.
  unfold signal_step, is_kept.
  pose proof (search_keywords Pat.NAME_KEYWORDS (Re.group m 1)) as Hn.
  pose proof (search_keywords Pat.VALUE_KEYWORDS (Re.group m 2)) as Hv.
  fold Pat.NAME_LOGIC in Hn. fold Pat.VALUE_LOGIC in Hv.
  destruct (Re.search true Pat.NAME_LOGIC (Re.group m 1)).
  - by rewrite (proj1 Hn).
  - destruct (mentions Pat.NAME_KEYWORDS _);
      [by destruct (proj2 Hn eq_refl)|].
    destruct (Re.search true Pat.VALUE_LOGIC (Re.group m 2)).
    + by rewrite (proj1 Hv).
    + destruct (mentions Pat.VALUE_KEYWORDS _);
        [by destruct (proj2 Hv eq_refl)|done].
Qed.



End Signals.

(** ** Sections of a returned survey *)

Section Sections.
Context `{U : UnicodeData} `{B : Bs4}.

Lemma visit_names_consistent (signals : dict) (st st' : walk) (node : Tag) :
  visit signals st node = Return st' →
  names_consistent st → names_consistent st'.
Proof.
  intros Hv (Hnd & Hcur & Hqs).
  apply visit_Return in Hv as [[Hd ->]|[(_ & q & Hp & ->)|(_ & _ & ->)]].
  - destruct (divider_name node) as [|c nm]; [done|].
    unfold names_consistent. cbn.
    destruct (decide (c :: nm ∈ ordered_names st)) as [Hin|Hnin].
    + done.
    + split_and!.
      * apply NoDup_app. split_and!; [done| |apply NoDup_singleton].
        intros x Hx ->%list_elem_of_singleton. done.
      * apply elem_of_app. right. left.
      * eapply Forall_impl; [exact Hqs|]. intros q Hq'.
        apply elem_of_app. by left.
  - unfold names_consistent. cbn.
    destruct (parse_question_index _ _ _ _ _ Hp) as (_ & Hs & _).
    split_and!; [done|done|].
    apply Forall_app. split; [done|]. constructor; [|done]. by rewrite Hs.
  - done.
Qed.

Lemma traverse_names_consistent (signals : dict) (nodes : list Tag)
    (st st' : walk) :
  traverse signals st nodes = Return st' →
  names_consistent st → names_consistent st'.
Proof.
  revert st. induction nodes as [|node nodes IH]; intros st.
  { by intros [= <-]. }
  rewrite traverse_cons. intros (st1 & Hv & Ht)%bind_Return Hst.
  apply (IH _ Ht). by eapply visit_names_consistent.
Qed.

Lemma walk_start_consistent : names_consistent walk_start.
Proof.
  unfold names_consistent, walk_start. cbn.
  split_and!; [apply NoDup_singleton|left|constructor].
Qed.

Lemma collect_sections_spec (questions : list Question) (names : list pystr)
    (s : Section_) :
  s ∈ collect_sections questions names ↔
  ∃ nm, nm ∈ names
        ∧ s = mkSection nm (py_min (section_topics questions nm))
                        (py_max (section_topics questions nm))
        ∧ (section_topics questions nm ≠ [] ∨ nm = DEFAULT_SECTION).
Proof.
  induction names as [|nm names IH]; simpl.
  - split; [by intros ?%elem_of_nil|].
    intros (nm & Hnm & _). by apply elem_of_nil in Hnm.
  - destruct (bool_decide (section_topics questions nm = [])) eqn:Ht;
      destruct (bool_decide (nm ≠ DEFAULT_SECTION)) eqn:Hd; simpl;
      [apply bool_decide_eq_true in Ht, Hd
      |apply bool_decide_eq_true in Ht; apply bool_decide_eq_false in Hd
      |apply bool_decide_eq_false in Ht
      |apply bool_decide_eq_false in Ht].
    + rewrite IH. split.
      * intros (nm' & Hin & Hs & Hk). exists nm'. split_and!; [by right|done|done].
      * intros (nm' & Hin & Hs & Hk). exists nm'.
        apply elem_of_cons in Hin as [->|Hin]; [|done].
        by destruct Hk.
    + rewrite elem_of_cons, IH. split.
      * intros [->|(nm' & Hin & Hs & Hk)].
        -- exists nm. split_and!; [left|done|]. right.
           by destruct (decide (nm = DEFAULT_SECTION)).
        -- exists nm'. split_and!; [by right|done|done].
      * intros (nm' & Hin & Hs & Hk).
        apply elem_of_cons in Hin as [->|Hin]; [by left|].
        right. by exists nm'.
    + rewrite elem_of_cons, IH. split.
      * intros [->|(nm' & Hin & Hs & Hk)].
        -- exists nm. split_and!; [left|done|by left].
        -- exists nm'. split_and!; [by right|done|done].
      * intros (nm' & Hin & Hs & Hk).
        apply elem_of_cons in Hin as [->|Hin]; [by left|].
        right. by exists nm'.
    + rewrite elem_of_cons, IH. split.
      * intros [->|(nm' & Hin & Hs & Hk)].
        -- exists nm. split_and!; [left|done|by left].
        -- exists nm'. split_and!; [by right|done|done].
      * intros (nm' & Hin & Hs & Hk).
        apply elem_of_cons in Hin as [->|Hin]; [by left|].
        right. by exists nm'.
Qed.

Lemma collect_sections_names_sublist (questions : list Question)
    (names : list pystr) :
  name <$> collect_sections questions names `sublist_of` names.
Proof.
  induction names as [|nm names IH]; simpl; [done|].
  destruct (_ && _); simpl; [by apply sublist_cons|by apply sublist_skip].
Qed.

Lemma section_topics_elem (questions : list Question) (nm : pystr) (t : Z) :
  t ∈ section_topics questions nm ↔
  ∃ q, q ∈ questions ∧ section q = nm ∧ topic_id q = Some t.
Proof.
  unfold section_topics. rewrite list_elem_of_omap.
  split; intros (q & Hq & Ht); exists q.
  - destruct (decide (section q = nm)); [done|discriminate Ht].
  - destruct Ht as [Hs Ht]. split; [done|].
    by destruct (decide (section q = nm)).
Qed.

Lemma py_min_None (xs : list Z) : py_min xs = None ↔ xs = [].
Proof. by destruct xs. Qed.

(** A section that [build_sections] keeps next to another one has a
    question with a topic id. *)
Lemma build_sections_populated (questions : list Question)
    (names : list pystr) (s : Section_) :
  (1 < length (build_sections questions names))%nat →
  s ∈ build_sections questions names →
  ∃ q, q ∈ questions ∧ section q = name s ∧ topic_id q ≠ None.
Proof.
  unfold build_sections.
  set (sections :=
         match collect_sections questions names with
         | [] => [mkSection DEFAULT_SECTION None None]
         | _ => collect_sections questions names
         end).
  destruct (Nat.ltb_spec 1 (length sections)) as [Hlong|Hshort]; [|lia].
  intros _ [Hkeep Hin]%list_elem_of_filter.
  assert (s ∈ collect_sections questions names) as Hs.
  { unfold sections in Hin, Hlong.
    destruct (collect_sections questions names); [simpl in Hlong; lia|done]. }
  apply collect_sections_spec in Hs as (nm & _ & -> & Hk). cbn in *.
  destruct (section_topics questions nm) as [|t ts] eqn:Ht.
  - destruct Hk as [?| ->]; [done|]. by destruct Hkeep.
  - assert (t ∈ section_topics questions nm) as Hin' by (rewrite Ht; left).
    apply section_topics_elem in Hin' as (q & Hq & Hsec & Htid).
    exists q. split_and!; [done|done|congruence].
Qed.

(** With distinct names, [build_sections] returns at least one section. *)
Lemma build_sections_nonempty (questions : list Question)
    (names : list pystr) :
  NoDup names → build_sections questions names ≠ [].
Proof.
  intros Hnd. unfold build_sections.
  pose proof (collect_sections_names_sublist questions names) as Hsub.
  assert (NoDup (name <$> collect_sections questions names)) as Hnd'
    by (by eapply sublist_NoDup).
  destruct (collect_sections questions names) as [|s0 [|s1 ss]]; [done|done|].
  cbn [length Nat.ltb Nat.leb].
  cbn in Hnd'. apply NoDup_cons in Hnd' as [Hnin _].
  assert (name s0 ≠ name s1) as Hne.
  { intros Heq. apply Hnin. rewrite Heq. left. }
  intros Hnil.
  assert (∀ s, s ∈ s0 :: s1 :: ss → name s = DEFAULT_SECTION) as Hall.
  { intros s Hs. destruct (decide (name s = DEFAULT_SECTION)); [done|].
    assert (s ∈ filter (fun s => ¬ (name s = DEFAULT_SECTION
                                    ∧ start_topic s = None
                                    ∧ end_topic s = None))
                       (s0 :: s1 :: ss)) as Hin.
    { apply list_elem_of_filter. split; [|done]. tauto. }
    rewrite Hnil in Hin. by apply elem_of_nil in Hin. }
  apply Hne. rewrite (Hall s0), (Hall s1); [done|right; left|left].
Qed.

(** A question with a topic id finds its section among those built. *)
Lemma build_sections_covers_topics (questions : list Question)
    (names : list pystr) (q : Question) :
  q ∈ questions → topic_id q ≠ None → section q ∈ names →
  section q ∈ name <$> build_sections questions names.
Proof.
  intros Hq Htid Hsec.
  destruct (topic_id q) as [t|] eqn:Ht; [|done].
  assert (t ∈ section_topics questions (section q)) as Htopic.
  { apply section_topics_elem. by exists q. }
  set (s := mkSection (section q)
                      (py_min (section_topics questions (section q)))
                      (py_max (section_topics questions (section q)))).
  assert (s ∈ collect_sections questions names) as Hs.
  { apply collect_sections_spec. exists (section q).
    split_and!; [done|done|]. left. intros Hnil. rewrite Hnil in Htopic.
    by apply elem_of_nil in Htopic. }
  assert (start_topic s ≠ None) as Hstart.
  { unfold s. cbn. rewrite py_min_None. intros Hnil. rewrite Hnil in Htopic.
    by apply elem_of_nil in Htopic. }
  apply (list_elem_of_fmap_2' name _ s); [|done].
  unfold build_sections.
  destruct (collect_sections questions names) as [|s0 ss] eqn:Hc;
    [by apply elem_of_nil in Hs|].
  destruct (1 <? length (s0 :: ss))%nat; [|done].
  apply list_elem_of_filter. split; [|done]. tauto.
Qed.

(** The parts of C3 that the code keeps: a returned survey has at least
    one section; sections standing next to another one each have a
    question; and every question with a topic id names a section of the
    list. *)
Lemma returned_sections_sound (now : datetime) (html url : pystr)
    (s : Survey) :
  parse_survey now html url = Return s →
  sections s ≠ []
  ∧ ((1 < length (sections s))%nat →
     Forall (fun sec => ∃ q, q ∈ questions s ∧ section q = name sec)
            (sections s))
  ∧ Forall (fun q => topic_id q ≠ None → section q ∈ name <$> sections s)
           (questions s).
Proof.
  intros Hp.
  destruct (parse_survey_Return _ _ _ _ Hp) as (st & _ & _ & Hw & Hacc & ->).
  destruct (traverse_names_consistent _ _ _ _ Hw walk_start_consistent)
    as (Hnd & _ & Hqs).
  cbn [questions sections survey_of].
  split_and!.
  - by apply build_sections_nonempty.
  - intros Hlong. apply Forall_forall. intros sec Hsec.
    destruct (build_sections_populated _ _ _ Hlong Hsec) as (q & ? & ? & _).
    by exists q.
  - apply Forall_forall. intros q Hq Htid.
    apply build_sections_covers_topics; [done|done|].
    by eapply (proj1 (Forall_forall _ _) Hqs).
Qed.

End Sections.

(** ** The theorems on the samples *)

(** C3, the defect. In [untopiced_doc] the divider "Part A" is followed by
    one question without a topic attribute: the survey is returned with
    the default section alone, and the question's section, "Part A", is
    not the name of any section of the list. *)
Theorem untopiced_section_dropped :
  @parse_survey Ascii_tables.tables TreeDom.bs4 sample_now untopiced_doc
    (utf8 "u") = Return untopiced_survey
  ∧ section <$> questions untopiced_survey = [utf8 "Part A"]
  ∧ topic_id <$> questions untopiced_survey = [None]
  ∧ name <$> sections untopiced_survey = [DEFAULT_SECTION]
  ∧ ¬ Forall (fun q => section q ∈ name <$> sections untopiced_survey)
             (questions untopiced_survey).
Proof.
  split_and!; [by vm_compute|by vm_compute|by vm_compute|by vm_compute|].
  intros Hall. apply Forall_inv in Hall.
  vm_compute in Hall. apply list_elem_of_singleton in Hall. discriminate Hall.
Qed.


(** C8, the counterexample. A divider without text, met while the
    current section is "Part A", leaves it "Part A" rather than making the
    divider's (empty) text the current section; in [sample_doc] the second
    question follows such a divider and is returned in section "Part A". *)
Lemma nameless_divider_counterexample :
  @is_divider TreeDom.bs4 empty_divider = true
  ∧ @divider_name Ascii_tables.tables TreeDom.bs4 empty_divider = []
  ∧ @visit Ascii_tables.tables TreeDom.bs4 [] walk_in_part_a empty_divider
    = Return walk_in_part_a
  ∧ current_section walk_in_part_a = utf8 "Part A"
  ∧ ¬ @divider_renames Ascii_tables.tables TreeDom.bs4 [] walk_in_part_a
        empty_divider
  ∧ section <$> questions sample_survey = [utf8 "Part A"; utf8 "Part A"].
Proof.
  split_and!;
    [by vm_compute|by vm_compute|by vm_compute|by vm_compute|
    |by vm_compute].
  intros Hr. destruct (Hr eq_refl) as (st' & Hv & Hcur).
  vm_compute in Hv. injection Hv as <-.
  vm_compute in Hcur. discriminate Hcur.
Qed.

Lemma divider_sets_current_section_witness :
  @is_divider TreeDom.bs4 sample_divider = true
  ∧ @divider_name Ascii_tables.tables TreeDom.bs4 sample_divider
    = utf8 "Part A"
  ∧ ∃ st',
      @visit Ascii_tables.tables TreeDom.bs4 sample_signals walk_start
        sample_divider = Return st'
      ∧ current_section st' = utf8 "Part A"
      ∧ ordered_names st' = [DEFAULT_SECTION; utf8 "Part A"].
Proof.
  assert (@is_divider TreeDom.bs4 sample_divider = true) as Hd
    by (vm_compute; reflexivity).
  assert (@divider_name Ascii_tables.tables TreeDom.bs4 sample_divider
          = utf8 "Part A") as Hn by (vm_compute; reflexivity).
  destruct (@divider_sets_current_section Ascii_tables.tables TreeDom.bs4
              sample_signals walk_start sample_divider Hd)
    as (st' & Hv & _ & Hnamed & _).
  destruct Hnamed as (H1 & H2 & _).
  { rewrite Hn. vm_compute. discriminate. }
  split_and!; [exact Hd|exact Hn|].
  exists st'. split_and!; [exact Hv|by rewrite H1|].
  rewrite H2, Hn. vm_compute. reflexivity.
Defined.

Lemma options_placeholder_when_none_found_witness :
  @no_options_found Ascii_tables.tables TreeDom.bs4 bare_choice
    (@normalize_text Ascii_tables.tables
       (@get_str TreeDom.bs4 bare_choice (utf8 "type")))
    SINGLE_PLACEHOLDER
  ∧ (∃ q, @parse_question Ascii_tables.tables TreeDom.bs4 bare_choice 1
            DEFAULT_SECTION [] = Return q
          ∧ options q = SINGLE_PLACEHOLDER)
  ∧ SINGLE_PLACEHOLDER ≠ [].
Proof.
  assert (@no_options_found Ascii_tables.tables TreeDom.bs4 bare_choice
            (@normalize_text Ascii_tables.tables
               (@get_str TreeDom.bs4 bare_choice (utf8 "type")))
            SINGLE_PLACEHOLDER) as Hno.
  { replace (@normalize_text Ascii_tables.tables
               (@get_str TreeDom.bs4 bare_choice (utf8 "type")))
      with (utf8 "3") by (vm_compute; reflexivity).
    apply no_radio_labels. vm_compute. reflexivity. }
  split; [exact Hno|].
  destruct (@options_placeholder_when_none_found Ascii_tables.tables
              TreeDom.bs4 bare_choice 1 DEFAULT_SECTION [] SINGLE_PLACEHOLDER
              Hno) as (_ & Hq & Hne).
  split; [|exact Hne].
  eexists. split; [vm_compute; reflexivity|].
  apply Hq. vm_compute. reflexivity.
Defined.


(** ** Repetition of a character class *)

Section Repetition.
Context `{U : UnicodeData}.

Lemma rmatch_repeat_set {A} (ic : bool) (lo : nat) (hi : option nat)
    (negate : bool) (items : list Re.cset_item) (s : pystr) (g : Re.captures)
    (k : pystr → Re.captures → option A) :
  Re.rmatch ic (Re.RRepeat lo hi (Re.RSet negate items)) s g k
  = greedy (Re.set_matches ic negate items) lo hi s g k.
Proof.
  cbn [Re.rmatch].
  remember (length s) as fuel eqn:Hfuel.
  assert (length s ≤ fuel)%nat as Hlen by lia. clear Hfuel.
  revert lo hi s g Hlen.
  induction fuel as [|fuel IH]; intros lo hi s g Hlen.
  - destruct s; [|simpl in Hlen; lia]. by destruct hi as [[|h]|].
  - destruct hi as [[|h]|]; destruct s as [|c s']; try reflexivity;
      cbn [greedy fmap option_fmap option_map pred Re.rmatch];
      (destruct (Re.set_matches ic negate items c); [|reflexivity]);
      (replace (length s' <? length (c :: s'))%nat with true
         by (symmetry; apply Nat.ltb_lt; simpl; lia));
      rewrite IH by (simpl in Hlen; lia); reflexivity.
Qed.

(** With a continuation that accepts everything, [P+] takes the whole run
    and fails on an empty one. *)
Lemma greedy_plus_total {A} (P : N → bool) (s : pystr) (g : Re.captures)
    (k : pystr → Re.captures → option A) :
  (∀ s' g', is_Some (k s' g')) →
  greedy P 1 None s g k
  = match run P s with
    | O => None
    | S _ => k (drop (run P s) s) g
    end.
Proof.
  intros Hk.
  assert (∀ s, greedy P 0 None s g k = k (drop (run P s) s) g) as Hstar.
  { clear s. induction s as [|c s IH]; [done|].
    cbn [greedy run fmap option_fmap option_map pred].
    destruct (P c); [|done]. rewrite IH. cbn [drop].
    by destruct (Hk (drop (run P s) s) g) as [a ->]. }
  destruct s as [|c s]; [done|].
  cbn [greedy run fmap option_fmap option_map pred].
  destruct (P c); [|done]. rewrite Hstar. cbn [drop].
  by destruct (Hk (drop (run P s) s) g) as [a ->].
Qed.

Lemma run_le (P : N → bool) (s : pystr) : (run P s ≤ length s)%nat.
Proof. induction s as [|c s IH]; simpl; [lia|]. destruct (P c); simpl; lia. Qed.

End Repetition.

(** ** [normalize_text] *)

Lemma run_ext (P Q : N → bool) (s : pystr) :
  (∀ c, P c = Q c) → run P s = run Q s.
Proof.
  intros HPQ. induction s as [|c s IH]; simpl; [done|].
  by rewrite HPQ, IH.
Qed.

Lemma lstrip_drop (s : pystr) : Str.lstrip s = drop (run Str.isspace s) s.
Proof.
  induction s as [|c s IH]; simpl; [done|].
  by destruct (Str.isspace c).
Qed.

Lemma lstrip_head_nonspace (s : pystr) : head_nonspace (Str.lstrip s).
Proof.
  induction s as [|c s IH]; simpl; [done|].
  by destruct (Str.isspace c) eqn:Hc.
Qed.

Lemma lstrip_id (s : pystr) : head_nonspace s → Str.lstrip s = s.
Proof. destruct s as [|c s]; simpl; [done|]. by intros ->. Qed.

Lemma tidy_app_r (s t : pystr) : tidy (s ++ t) → tidy t.
Proof. induction s as [|c s IH]; simpl; [done|]. intros [_ Ht]. by apply IH. Qed.

Lemma head_nonspace_app_l (s t : pystr) :
  head_nonspace (s ++ t) → head_nonspace s.
Proof. by destruct s. Qed.

Lemma tidy_app_l (s t : pystr) : tidy (s ++ t) → tidy s.
Proof.
  induction s as [|c s IH]; simpl; [done|].
  intros [Hc Ht]. split; [|by apply IH].
  intros Hsp. destruct (Hc Hsp) as [-> Hh]. split; [done|].
  by eapply head_nonspace_app_l.
Qed.

Lemma tidy_lstrip (s : pystr) : tidy s → tidy (Str.lstrip s).
Proof.
  rewrite lstrip_drop. intros Ht.
  rewrite <- (take_drop (run Str.isspace s) s) in Ht.
  by apply tidy_app_r in Ht.
Qed.

Lemma rstrip_prefix (s : pystr) : ∃ t, s = Str.rstrip s ++ t.
Proof.
  unfold Str.rstrip. rewrite lstrip_drop.
  exists (rev (take (run Str.isspace (rev s)) (rev s))).
  rewrite <- rev_app_distr, take_drop. by rewrite rev_involutive.
Qed.

Lemma rstrip_last_nonspace (s : pystr) : head_nonspace (rev (Str.rstrip s)).
Proof.
  unfold Str.rstrip. rewrite rev_involutive. apply lstrip_head_nonspace.
Qed.

Lemma strip_normalized (s : pystr) : tidy s → normalized (Str.strip s).
Proof.
  intros Ht. unfold Str.strip.
  destruct (rstrip_prefix (Str.lstrip s)) as [t Hpre].
  split_and!.
  - apply (tidy_app_l _ t). rewrite <- Hpre. by apply tidy_lstrip.
  - apply (head_nonspace_app_l _ t). rewrite <- Hpre.
    apply lstrip_head_nonspace.
  - apply rstrip_last_nonspace.
Qed.

Lemma strip_id (s : pystr) :
  head_nonspace s → head_nonspace (rev s) → Str.strip s = s.
Proof.
  intros Hh Hl. unfold Str.strip, Str.rstrip.
  rewrite (lstrip_id s Hh), (lstrip_id (rev s) Hl). apply rev_involutive.
Qed.

Lemma collapse_head_nonspace (s : pystr) : head_nonspace (collapse s true).
Proof.
  induction s as [|c s IH]; simpl; [done|].
  by destruct (Str.isspace c) eqn:Hc.
Qed.

Lemma collapse_tidy (s : pystr) (in_run : bool) : tidy (collapse s in_run).
Proof.
  revert in_run. induction s as [|c s IH]; intros in_run; simpl; [done|].
  destruct (Str.isspace c) eqn:Hc.
  - destruct in_run; [apply IH|]. simpl. split; [|apply IH].
    intros _. split; [done|]. apply collapse_head_nonspace.
  - simpl. split; [|apply IH]. intros Hc'. congruence.
Qed.

Lemma collapse_id (s : pystr) :
  tidy s →
  collapse s false = s ∧ (head_nonspace s → collapse s true = s).
Proof.
  induction s as [|c s IH]; simpl; [done|].
  intros [Hc Ht]. destruct (IH Ht) as [IH1 IH2].
  destruct (Str.isspace c) eqn:Hsp.
  - destruct (Hc eq_refl) as [-> Hh]. split; [by rewrite IH2|done].
  - by rewrite IH1.
Qed.

Section NormalizeText.
Context `{U : UnicodeData}.

Lemma match_at_whitespace (s : pystr) :
  Re.match_at false Pat.WHITESPACE s
  = match run Str.isspace s with
    | O => None
    | S _ => Some ([], drop (run Str.isspace s) s)
    end.
Proof.
  unfold Re.match_at, Pat.WHITESPACE, Re.plus, Re.ws.
  rewrite rmatch_repeat_set, greedy_plus_total by eauto.
  rewrite (run_ext _ Str.isspace); [done|].
  intros c. unfold Re.set_matches, Re.in_set. simpl. by rewrite orb_false_r.
Qed.

Lemma sub_whitespace_from (s : pystr) :
  Re.sub_from false Pat.WHITESPACE (utf8 " ") s 0 = collapse s false
  ∧ Re.sub_from false Pat.WHITESPACE (utf8 " ") s (run Str.isspace s)
    = collapse s true.
Proof.
  induction s as [|c s [IH1 IH2]]; [done|].
  assert (Str.isspace c = false →
          Re.sub_from false Pat.WHITESPACE (utf8 " ") (c :: s) 0
          = c :: collapse s false) as Hplain.
  { intros Hc. cbn [Re.sub_from]. rewrite match_at_whitespace.
    cbn [run]. rewrite Hc. by rewrite IH1. }
  cbn [run collapse]. destruct (Str.isspace c) eqn:Hc.
  - split; [|exact IH2].
    cbn [Re.sub_from]. rewrite match_at_whitespace. cbn [run]. rewrite Hc.
    cbn [drop]. rewrite length_drop.
    pose proof (run_le Str.isspace s) as Hle.
    replace (length (c :: s) - (length s - run Str.isspace s) - 1)%nat
      with (run Str.isspace s) by (simpl; lia).
    by rewrite IH2.
  - split; by apply Hplain.
Qed.

Lemma normalize_text_collapse (text : pystr) :
  normalize_text text = Str.strip (collapse text false).
Proof.
  unfold normalize_text, Re.sub. by rewrite (proj1 (sub_whitespace_from _)).
Qed.

Lemma normalize_text_normalized (text : pystr) :
  normalized (normalize_text text).
Proof.
  rewrite normalize_text_collapse. apply strip_normalized, collapse_tidy.
Qed.

Lemma normalize_text_id (text : pystr) :
  normalized text → normalize_text text = text.
Proof.
  intros (Ht & Hh & Hl). rewrite normalize_text_collapse.
  rewrite (proj1 (collapse_id _ Ht)). by apply strip_id.
Qed.

End NormalizeText.

Lemma tidy_spaces (s : pystr) :
  tidy s → Forall (fun c => Str.isspace c = true → c = 0x20%N) s.
Proof.
  induction s as [|c s IH]; simpl; [constructor|].
  intros [Hc Ht]. constructor; [|by apply IH].
  intros Hsp. by destruct (Hc Hsp).
Qed.

Lemma tidy_no_double_space (a b : pystr) :
  ¬ tidy (a ++ [0x20%N; 0x20%N] ++ b).
Proof.
  intros Ht. apply tidy_app_r in Ht. destruct Ht as [Hc _].
  destruct (Hc eq_refl) as [_ Hh]. discriminate Hh.
Qed.

Lemma tidy_app (a b : pystr) :
  tidy a → tidy b → head_nonspace b → tidy (a ++ b).
Proof.
  intros Ha Hb Hh. induction a as [|c a IH]; simpl; [done|].
  destruct Ha as [Hc Ha]. split; [|by apply IH].
  intros Hsp. destruct (Hc Hsp) as [-> Hha]. split; [done|].
  by destruct a.
Qed.

Lemma filter_nonspace_lstrip (s : pystr) :
  List.filter (fun c => negb (Str.isspace c)) (Str.lstrip s)
  = List.filter (fun c => negb (Str.isspace c)) s.
Proof.
  induction s as [|c s IH]; simpl; [done|].
  destruct (Str.isspace c) eqn:Hc; simpl; [done|]. by rewrite Hc.
Qed.

Lemma filter_nonspace_strip (s : pystr) :
  List.filter (fun c => negb (Str.isspace c)) (Str.strip s)
  = List.filter (fun c => negb (Str.isspace c)) s.
Proof.
  unfold Str.strip, Str.rstrip.
  rewrite <- (rev_involutive (List.filter _ (rev _))).
  rewrite <- List.filter_rev, rev_involutive, filter_nonspace_lstrip.
  rewrite List.filter_rev, rev_involutive. apply filter_nonspace_lstrip.
Qed.

Lemma filter_nonspace_collapse (s : pystr) (in_run : bool) :
  List.filter (fun c => negb (Str.isspace c)) (collapse s in_run)
  = List.filter (fun c => negb (Str.isspace c)) s.
Proof.
  revert in_run. induction s as [|c s IH]; intros in_run; simpl; [done|].
  destruct (Str.isspace c) eqn:Hc; simpl.
  - destruct in_run; simpl; apply IH.
  - by rewrite Hc, IH.
Qed.

Section TextTheorems.
Context `{U : UnicodeData}.

(** X1. Normalized text has no whitespace character other than the plain
    space, no two spaces in a row, and no whitespace at its start or end. *)
Theorem normalize_text_shape (text : pystr) :
  let t := normalize_text text in
  Forall (fun c => Str.isspace c = true → c = 0x20%N) t
  ∧ (∀ a b, t ≠ a ++ [0x20%N; 0x20%N] ++ b)
  ∧ (∀ c t', t = c :: t' → Str.isspace c = false)
  ∧ (∀ t' c, t = t' ++ [c] → Str.isspace c = false).
Proof.
  intros t. destruct (normalize_text_normalized text) as (Ht & Hh & Hl).
  fold t in Ht, Hh, Hl. split_and!.
  - by apply tidy_spaces.
  - intros a b Heq. rewrite Heq in Ht. by apply tidy_no_double_space in Ht.
  - intros c t' Heq. by rewrite Heq in Hh.
  - intros t' c Heq. rewrite Heq, rev_app_distr in Hl. exact Hl.
Qed.

(** X2. [normalize_text] is idempotent, and the texts it leaves unchanged
    are exactly the normalized ones. *)
Theorem normalize_text_fixpoints (text : pystr) :
  normalize_text (normalize_text text) = normalize_text text
  ∧ (normalize_text text = text ↔ normalized text).
Proof.
  split.
  - apply normalize_text_id, normalize_text_normalized.
  - split; [|apply normalize_text_id].
    intros <-. apply normalize_text_normalized.
Qed.

(** X3. [normalize_text] neither drops, adds nor reorders characters that
    are not whitespace. *)
Theorem normalize_text_keeps_letters (text : pystr) :
  List.filter (fun c => negb (Str.isspace c)) (normalize_text text)
  = List.filter (fun c => negb (Str.isspace c)) text.
Proof.
  rewrite normalize_text_collapse, filter_nonspace_strip.
  apply filter_nonspace_collapse.
Qed.

Lemma dots_normalized_app (t : pystr) (k : nat) :
  normalized t → normalized (take k t ++ utf8 "...").
Proof.
  intros (Ht & Hh & _).
  assert (tidy (take k t)) as Htk.
  { rewrite <- (take_drop k t) in Ht. by apply tidy_app_l in Ht. }
  assert (head_nonspace (take k t)) as Hhk.
  { rewrite <- (take_drop k t) in Hh. by apply head_nonspace_app_l in Hh. }
  split_and!.
  - apply tidy_app; [done| |]; by vm_compute.
  - destruct (take k t); [by vm_compute|done].
  - rewrite rev_app_distr. by vm_compute.
Qed.

(** X4. For a limit of at least 3, [truncate] returns the normalized text
    when it fits, and otherwise its first [max_len - 3] characters
    followed by three dots: exactly [max_len] characters. *)
Theorem truncate_cases (text : pystr) (max_len : Z) :
  (3 <= max_len)%Z →
  let t := normalize_text text in
  ((Z.of_nat (length t) <= max_len)%Z → truncate text max_len = t)
  ∧ ((max_len < Z.of_nat (length t))%Z →
     truncate text max_len = take (Z.to_nat (max_len - 3)) t ++ utf8 "..."
     ∧ Z.of_nat (length (truncate text max_len)) = max_len).
Proof.
  intros Hmax t. unfold truncate. fold t.
  destruct (Z.leb_spec (Z.of_nat (length t)) max_len) as [Hle|Hgt].
  - split; [done|lia].
  - split; [lia|]. intros _. unfold Str.slice_to.
    destruct (Z.leb_spec 0 (max_len - 3)); [|lia].
    split; [done|]. rewrite length_app, length_take.
    change (length (utf8 "...")) with 3%nat. lia.
Qed.

(** X5. For a limit of at least 3, what [truncate] returns is normalized
    text, and truncating it again with the same limit changes nothing. *)
Theorem truncate_stable (text : pystr) (max_len : Z) :
  (3 <= max_len)%Z →
  normalized (truncate text max_len)
  ∧ truncate (truncate text max_len) max_len = truncate text max_len.
Proof.
  intros Hmax.
  assert (normalized (truncate text max_len)) as Hn.
  { unfold truncate.
    destruct (Z.leb_spec (Z.of_nat (length (normalize_text text))) max_len).
    - apply normalize_text_normalized.
    - unfold Str.slice_to. destruct (Z.leb_spec 0 (max_len - 3)); [|lia].
      apply dots_normalized_app, normalize_text_normalized. }
  split; [done|].
  pose proof (truncate_length text max_len Hmax) as Hlen.
  unfold truncate at 1. rewrite (normalize_text_id _ Hn).
  by destruct (Z.leb_spec (Z.of_nat (length (truncate text max_len))) max_len);
    [|lia].
Qed.

End TextTheorems.

(** ** [unique_keep_order] and the option labels *)

Lemma unique_fold_result (items : list pystr) (seen : gset (list N))
    (result : list pystr) :
  (foldl unique_step (seen, result) items).2
  = result ++ (foldl unique_step (seen, []) items).2.
Proof.
  revert seen result.
  induction items as [|item items IH]; intros seen result; simpl.
  - by rewrite app_nil_r.
  - destruct (decide (item ∈ seen)); [apply IH|].
    rewrite (IH _ (result ++ [item])), (IH _ [item]).
    by rewrite <- app_assoc.
Qed.

Lemma unique_fold_seen (items : list pystr) (seen : gset (list N))
    (x : pystr) :
  (foldl unique_step ({[ x ]} ∪ seen, []) items).2
  = (foldl unique_step (seen, []) (filter (fun y => y ≠ x) items)).2.
Proof.
  revert seen. induction items as [|item items IH]; intros seen; [done|].
  destruct (decide (item = x)) as [->|Hne].
  - rewrite filter_cons_False by tauto. simpl.
    destruct (decide (x ∈ {[x]} ∪ seen)) as [_|Hnin]; [apply IH|].
    exfalso. apply Hnin. set_solver.
  - rewrite filter_cons_True by done. simpl.
    destruct (decide (item ∈ seen)) as [Hin|Hnin].
    + destruct (decide (item ∈ {[x]} ∪ seen)) as [_|Hnin]; [apply IH|].
      exfalso. apply Hnin. set_solver.
    + destruct (decide (item ∈ {[x]} ∪ seen)) as [Hin|_]; [set_solver|].
      rewrite (unique_fold_result _ _ [item]).
      rewrite (unique_fold_result _ ({[item]} ∪ seen) [item]).
      replace ({[item]} ∪ ({[x]} ∪ seen)) with ({[x]} ∪ ({[item]} ∪ seen))
        by set_solver.
      by rewrite IH.
Qed.

Lemma unique_keep_order_cons (x : pystr) (items : list pystr) :
  unique_keep_order (x :: items)
  = x :: unique_keep_order (filter (fun y => y ≠ x) items).
Proof.
  unfold unique_keep_order. simpl.
  destruct (decide (x ∈ (∅ : gset (list N)))) as [Hin|_]; [set_solver|].
  rewrite (unique_fold_result _ _ [x]). simpl. f_equal.
  apply unique_fold_seen.
Qed.

Lemma unique_keep_order_sublist (items : list pystr) :
  unique_keep_order items `sublist_of` items.
Proof.
  remember (length items) as n eqn:Hn. revert items Hn.
  induction (lt_wf n) as [n _ IH]. intros [|x items] Hn; [done|].
  rewrite unique_keep_order_cons. apply sublist_skip.
  etrans; [|apply (sublist_filter (fun y => y ≠ x))].
  eapply IH; [|reflexivity].
  pose proof (length_filter (fun y => y ≠ x) items). simpl in Hn. lia.
Qed.

Lemma filter_ne_id (x : pystr) (items : list pystr) :
  x ∉ items → filter (fun y => y ≠ x) items = items.
Proof.
  induction items as [|y items IH]; [done|].
  rewrite not_elem_of_cons. intros [Hne Hnin].
  rewrite filter_cons_True by done. by rewrite IH.
Qed.

Lemma unique_keep_order_NoDup_id (items : list pystr) :
  NoDup items → unique_keep_order items = items.
Proof.
  induction 1 as [|x items Hx Hnd IH]; [done|].
  rewrite unique_keep_order_cons. f_equal.
  by rewrite filter_ne_id.
Qed.

(** X6. [unique_keep_order] keeps the first occurrence of every item and
    drops the later ones: the result has no duplicates and the same items
    as the input, it is the input with entries removed, and a list
    without duplicates is returned unchanged. *)
Theorem unique_keep_order_first_occurrences (items : list pystr) :
  NoDup (unique_keep_order items)
  ∧ (∀ x, x ∈ unique_keep_order items ↔ x ∈ items)
  ∧ unique_keep_order items `sublist_of` items
  ∧ (NoDup items ↔ unique_keep_order items = items)
  ∧ (∀ x rest, items = x :: rest →
       unique_keep_order items
       = x :: unique_keep_order (filter (fun y => y ≠ x) rest)).
Proof.
  destruct (unique_keep_order_spec items) as (Hnd & Hin & _).
  split_and!; [done|done|apply unique_keep_order_sublist| |].
  - split; [apply unique_keep_order_NoDup_id|]. by intros <-.
  - intros x rest ->. apply unique_keep_order_cons.
Qed.

Section Labels.
Context `{U : UnicodeData} `{B : Bs4}.

Lemma nonempty_texts_elem (tags : list Tag) (t : pystr) :
  t ∈ nonempty_texts tags
  ↔ t ≠ [] ∧ ∃ tag, tag ∈ tags ∧ tag_text (Some tag) = t.
Proof.
  induction tags as [|tag tags IH]; cbn [nonempty_texts]; cbv zeta.
  - split; [by intros ?%elem_of_nil|].
    intros (_ & tag & Htag & _). by apply elem_of_nil in Htag.
  - destruct (Str.truthy (tag_text (Some tag))) eqn:Ht.
    + rewrite elem_of_cons, IH. split.
      * intros [->|(Hne & tag' & Hin & Heq)].
        -- split; [by apply truthy_nonempty|]. exists tag. split; [left|done].
        -- split; [done|]. exists tag'. split; [by right|done].
      * intros (Hne & tag' & Hin & Heq).
        apply elem_of_cons in Hin as [->|Hin]; [by left|].
        right. split; [done|]. by exists tag'.
    + rewrite IH. split.
      * intros (Hne & tag' & Hin & Heq). split; [done|].
        exists tag'. split; [by right|done].
      * intros (Hne & tag' & Hin & Heq). split; [done|].
        apply elem_of_cons in Hin as [->|Hin]; [|by exists tag'].
        rewrite Heq in Ht. apply truthy_nonempty in Hne. congruence.
Qed.

(** X7. The option labels of a node are pairwise distinct, and they are
    exactly the non-empty texts of the elements the selector finds; each
    is normalized text. *)
Theorem extract_option_labels_distinct (node : Tag) (selector : pystr) :
  let labels := extract_option_labels node selector in
  NoDup labels
  ∧ (∀ t, t ∈ labels
          ↔ t ≠ [] ∧ ∃ tag, tag ∈ select node selector
                            ∧ tag_text (Some tag) = t)
  ∧ Forall normalized labels.
Proof.
  intros labels. unfold labels, extract_option_labels.
  destruct (unique_keep_order_spec (nonempty_texts (select node selector)))
    as (Hnd & Hin & _).
  split_and!; [done| |].
  - intros t. rewrite Hin. apply nonempty_texts_elem.
  - apply Forall_forall. intros t Ht.
    apply Hin, nonempty_texts_elem in Ht as (_ & tag & _ & <-).
    apply normalize_text_normalized.
Qed.

End Labels.

(** ** [parse_topic_id] *)

Lemma take_run_Forall (P : N → bool) (s : pystr) :
  Forall (fun c => P c = true) (take (run P s) s).
Proof.
  induction s as [|c s IH]; simpl; [constructor|].
  destruct (P c) eqn:Hc; simpl; [by constructor|constructor].
Qed.

Lemma run_app_all (P : N → bool) (a b : pystr) :
  Forall (fun c => P c = true) a → run P (a ++ b) = (length a + run P b)%nat.
Proof.
  induction 1 as [|c a Hc _ IH]; simpl; [done|]. by rewrite Hc, IH.
Qed.

Lemma run_head_false (P : N → bool) (s : pystr) :
  (∀ c s', s = c :: s' → P c = false) → run P s = 0%nat.
Proof. destruct s as [|c s]; simpl; [done|]. intros Hc. by rewrite (Hc c s). Qed.

Section TopicId.
Context `{U : UnicodeData}.

Lemma is_decimal_true (c : N) : is_decimal c = true ↔ is_Some (decimal c).
Proof. unfold is_decimal. apply bool_decide_eq_true. Qed.

Lemma is_decimal_false (c : N) : is_decimal c = false ↔ decimal c = None.
Proof.
  unfold is_decimal. rewrite bool_decide_eq_false.
  rewrite <- eq_None_not_Some. done.
Qed.

Lemma rmatch_group {A} (ic : bool) (n : nat) (r : Re.regex) (s : pystr)
    (g : Re.captures) (k : pystr → Re.captures → option A) :
  Re.rmatch ic (Re.RGroup n r) s g k
  = Re.rmatch ic r s g
      (fun s' g' => k s' (g' ++ [(n, take (length s - length s') s)])).
Proof. reflexivity. Qed.

Lemma match_at_digits (s : pystr) :
  Re.match_at false Pat.DIGITS s
  = match run is_decimal s with
    | O => None
    | S _ =>
      Some ([(1%nat, take (run is_decimal s) s)], drop (run is_decimal s) s)
    end.
Proof.
  unfold Re.match_at, Pat.DIGITS, Re.plus, Re.digit.
  rewrite rmatch_group, rmatch_repeat_set, greedy_plus_total by eauto.
  rewrite (run_ext _ is_decimal).
  2:{ intros c. unfold Re.set_matches, Re.in_set. simpl.
      by rewrite orb_false_r. }
  destruct (run is_decimal s) eqn:Hrun; [done|].
  rewrite length_drop, <- Hrun. pose proof (run_le is_decimal s).
  by replace (length s - (length s - run is_decimal s))%nat
    with (run is_decimal s) by lia.
Qed.

Lemma search_digits (s : pystr) :
  Re.search false Pat.DIGITS s
  = (fun d => [(1%nat, d)]) <$> first_digit_run s.
Proof.
  induction s as [|c s IH]; [done|].
  cbn [Re.search first_digit_run]. rewrite match_at_digits.
  cbn [run]. by destruct (is_decimal c).
Qed.

Lemma parse_topic_id_run (raw : pystr) :
  parse_topic_id (Some raw)
  = match first_digit_run raw with
    | None => Return None
    | Some digits => n ← int_of_digits digits; Return (Some n)
    end.
Proof.
  unfold parse_topic_id. destruct raw as [|c raw]; [done|].
  rewrite search_digits. by destruct (first_digit_run (c :: raw)).
Qed.

Lemma int_of_digits_cases (digits : pystr) :
  int_of_digits digits
  = if (INT_MAX_STR_DIGITS <? length digits)%nat
    then Raise (ValueError (digit_limit_message (length digits)))
    else Return (digits_value digits).
Proof. reflexivity. Qed.

Lemma first_digit_run_None (s : pystr) :
  first_digit_run s = None ↔ Forall (fun c => decimal c = None) s.
Proof.
  induction s as [|c s IH]; simpl; [by split; [constructor|]|].
  destruct (is_decimal c) eqn:Hc.
  - split; [done|]. intros Hall. apply Forall_inv in Hall.
    apply is_decimal_false in Hall. congruence.
  - rewrite IH. apply is_decimal_false in Hc.
    split; [by constructor|by inversion 1].
Qed.

Lemma first_digit_run_app (pre digits rest : pystr) :
  Forall (fun c => decimal c = None) pre →
  digits ≠ [] →
  Forall (fun c => is_Some (decimal c)) digits →
  (∀ c rest', rest = c :: rest' → decimal c = None) →
  first_digit_run (pre ++ digits ++ rest) = Some digits.
Proof.
  intros Hpre Hne Hdig Hrest.
  induction Hpre as [|c pre Hc _ IH]; simpl.
  - destruct digits as [|d digits]; [done|].
    assert (Forall (fun c => is_decimal c = true) (d :: digits)) as Hdig'.
    { eapply Forall_impl; [exact Hdig|]. intros c. apply is_decimal_true. }
    cbn [app]. cbn [first_digit_run].
    rewrite (proj1 (Forall_forall _ _) Hdig' d) by left.
    change (d :: digits ++ rest) with ((d :: digits) ++ rest).
    rewrite run_app_all by done.
    rewrite (run_head_false is_decimal rest).
    2:{ intros c s' Heq. apply is_decimal_false. by eapply Hrest. }
    rewrite Nat.add_0_r. by rewrite take_app_length.
  - apply is_decimal_false in Hc. by rewrite Hc.
Qed.

Lemma digits_value_nonneg (s : pystr) : (0 <= digits_value s)%Z.
Proof.
  unfold digits_value.
  assert (∀ acc, (0 <= acc)%Z →
            (0 <= foldl (fun acc c =>
                           acc * 10 + Z.of_N (default 0%N (decimal c)))%Z
                        acc s)%Z) as Hacc.
  { induction s as [|c s IH]; intros acc Hacc; simpl; [done|].
    apply IH. lia. }
  by apply Hacc.
Qed.

(** The outcomes of [parse_topic_id] on an attribute that is present. *)
Lemma parse_topic_id_outcomes (raw : pystr) :
  match first_digit_run raw with
  | None => parse_topic_id (Some raw) = Return None
  | Some digits =>
    if (INT_MAX_STR_DIGITS <? length digits)%nat
    then parse_topic_id (Some raw)
         = Raise (ValueError (digit_limit_message (length digits)))
    else parse_topic_id (Some raw) = Return (Some (digits_value digits))
  end.
Proof.
  rewrite parse_topic_id_run.
  destruct (first_digit_run raw) as [digits|]; [|done].
  rewrite int_of_digits_cases.
  by destruct (INT_MAX_STR_DIGITS <? length digits)%nat.
Qed.

(** X8. The topic id is absent when the attribute is missing or holds no
    decimal digit, and only then. Otherwise the first run of digits in the
    attribute decides: a run of at most 4300 digits gives the number it
    writes, which is never negative, and a longer run makes [int] raise
    [ValueError]; nothing else makes [parse_topic_id] raise. *)
Theorem parse_topic_id_first_digits (raw : pystr) :
  parse_topic_id None = Return None
  ∧ (parse_topic_id (Some raw) = Return None
     ↔ Forall (fun c => decimal c = None) raw)
  ∧ (∀ n, parse_topic_id (Some raw) = Return (Some n) → (0 <= n)%Z)
  ∧ (∀ pre digits rest,
       raw = pre ++ digits ++ rest →
       Forall (fun c => decimal c = None) pre →
       digits ≠ [] →
       Forall (fun c => is_Some (decimal c)) digits →
       (∀ c rest', rest = c :: rest' → decimal c = None) →
       parse_topic_id (Some raw)
       = if (INT_MAX_STR_DIGITS <? length digits)%nat
         then Raise (ValueError (digit_limit_message (length digits)))
         else Return (Some (digits_value digits)))
  ∧ (∀ e, parse_topic_id (Some raw) = Raise e →
          ∃ digits,
            first_digit_run raw = Some digits
            ∧ (INT_MAX_STR_DIGITS < length digits)%nat
            ∧ e = ValueError (digit_limit_message (length digits))).
Proof.
  pose proof (parse_topic_id_outcomes raw) as Hcases.
  split_and!.
  - done.
  - rewrite <- first_digit_run_None.
    destruct (first_digit_run raw) as [digits|]; [|done].
    destruct (INT_MAX_STR_DIGITS <? length digits)%nat;
      rewrite Hcases; by split.
  - intros n. destruct (first_digit_run raw) as [digits|].
    + destruct (INT_MAX_STR_DIGITS <? length digits)%nat;
        rewrite Hcases; [done|].
      intros [= <-]. apply digits_value_nonneg.
    + by rewrite Hcases.
  - intros pre digits rest -> Hpre Hne Hdig Hrest.
    rewrite (first_digit_run_app _ _ _ Hpre Hne Hdig Hrest) in Hcases.
    by destruct (INT_MAX_STR_DIGITS <? length digits)%nat.
  - intros e. destruct (first_digit_run raw) as [digits|].
    + destruct (Nat.ltb_spec INT_MAX_STR_DIGITS (length digits));
        rewrite Hcases; [|done].
      intros [= <-]. by exists digits.
    + by rewrite Hcases.
Qed.

End TopicId.

(** ** The fields of a parsed question *)

Lemma join_cons_prefix (sep x : pystr) (rest : list pystr) :
  ∃ t, Str.join sep (x :: rest) = x ++ t.
Proof.
  destruct rest as [|y rest]; simpl.
  - exists []. by rewrite app_nil_r.
  - by eexists.
Qed.

Lemma of_uint_nonempty (d : Decimal.uint) : d ≠ Decimal.Nil → Str.of_uint d ≠ [].
Proof. by destruct d. Qed.

Lemma of_uint_digits (d : Decimal.uint) :
  Forall (fun c => (0x30 <= c <= 0x39)%N) (Str.of_uint d).
Proof. induction d; simpl; constructor; (lia || done). Qed.

Lemma of_uint_inj (d d' : Decimal.uint) :
  Str.of_uint d = Str.of_uint d' → d = d'.
Proof.
  revert d'. induction d; intros []; simpl; intros Heq;
    try discriminate Heq; try reflexivity;
    injection Heq as Heq; f_equal; by apply IHd.
Qed.

Lemma of_int_nonempty (n : Z) : Str.of_int n ≠ [].
Proof.
  destruct n as [|p|p]; simpl; [done| |done].
  apply of_uint_nonempty, Unsigned.to_uint_nonnil.
Qed.

Lemma of_int_inj (n m : Z) : Str.of_int n = Str.of_int m → n = m.
Proof.
  destruct n as [|p|p], m as [|q|q]; simpl; intros Heq; try reflexivity.
  - change [48%N] with (Str.of_uint (Decimal.D0 Decimal.Nil)) in Heq.
    apply of_uint_inj in Heq. symmetry in Heq.
    by apply Unsigned.to_uint_nonzero in Heq.
  - discriminate Heq.
  - change [48%N] with (Str.of_uint (Decimal.D0 Decimal.Nil)) in Heq.
    apply of_uint_inj in Heq. by apply Unsigned.to_uint_nonzero in Heq.
  - apply of_uint_inj, Unsigned.to_uint_inj in Heq. by subst.
  - pose proof (of_uint_digits (Pos.to_uint p)) as Hd. rewrite Heq in Hd.
    apply Forall_inv in Hd. lia.
  - discriminate Heq.
  - pose proof (of_uint_digits (Pos.to_uint q)) as Hd. rewrite <- Heq in Hd.
    apply Forall_inv in Hd. lia.
  - injection Heq as Heq.
    apply of_uint_inj, Unsigned.to_uint_inj in Heq. by subst.
Qed.

Section QuestionFields.
Context `{U : UnicodeData} `{B : Bs4}.

Lemma attr_notes_heads (node : Tag) (attrs : list pystr) :
  Forall note_head (attr_notes node attrs).
Proof.
  induction attrs as [|attr attrs IH]; cbn [attr_notes]; cbv zeta;
    [constructor|].
  destruct (Str.truthy _); [|done].
  constructor; [|done]. left. by vm_compute.
Qed.

Lemma input_notes_heads (input_tag : Tag) :
  Forall note_head (input_notes input_tag).
Proof.
  unfold input_notes. cbv zeta. apply Forall_app. split.
  - destruct (Str.truthy _); [|constructor].
    constructor; [|constructor]. right. by vm_compute.
  - destruct (Str.truthy _); [|constructor].
    constructor; [|constructor]. right. by vm_compute.
Qed.

Lemma explicit_notes_heads (node : Tag) :
  Forall note_head (explicit_notes node).
Proof.
  unfold explicit_notes. rewrite !Forall_app. split_and!.
  - apply attr_notes_heads.
  - unfold style_notes. cbv zeta. destruct (Str.contains _ _);
      [|constructor].
    constructor; [|constructor]. left. by vm_compute.
  - apply Forall_concat, Forall_fmap, Forall_forall. intros tag _.
    apply input_notes_heads.
Qed.

Lemma note_head_not_sentinel (n t : pystr) : note_head n → n ++ t ≠ NO_LOGIC.
Proof.
  intros Hn Heq. apply (f_equal head) in Heq.
  destruct n as [|c n]; [by destruct Hn|]. cbn [app head] in Heq.
  destruct Hn as [[= ->]|[= ->]]; vm_compute in Heq; discriminate Heq.
Qed.

Lemma note_head_nonempty (n : pystr) : note_head n → n ≠ [].
Proof. by intros [Hn|Hn] ->. Qed.

Lemma extract_logic_notes_cases (node : Tag) (topic_id : option Z)
    (signals : dict) :
  (extract_logic_notes node topic_id signals = NO_LOGIC
   ↔ explicit_notes node = [] ∧ candidate_signals topic_id signals = [])
  ∧ extract_logic_notes node topic_id signals ≠ [].
Proof.
  unfold extract_logic_notes. cbv zeta.
  pose proof (unique_keep_order_Forall _ _ (explicit_notes_heads node))
    as Hheads.
  pose proof (unique_keep_order_nil_iff (explicit_notes node)) as Hnil.
  destruct (unique_keep_order (explicit_notes node)) as [|n ns].
  - rewrite (proj1 Hnil eq_refl).
    destruct (candidate_signals topic_id signals) as [|c cs].
    + split; [by split|by vm_compute].
    + split.
      * split; [|by intros [_ ?]]. intros Heq. exfalso. revert Heq.
        generalize (Str.join NOTE_SEP (unique_keep_order (take 4 (c :: cs)))).
        intros merged. vm_compute. discriminate.
      * generalize (Str.join NOTE_SEP (unique_keep_order (take 4 (c :: cs)))).
        intros merged. vm_compute. discriminate.
  - apply Forall_inv in Hheads.
    assert (explicit_notes node ≠ []) as Hne.
    { intros Heq. by apply Hnil in Heq. }
    assert (∀ more, Str.join NOTE_SEP (take 8 ((n :: ns) ++ more)) ≠ NO_LOGIC
                    ∧ Str.join NOTE_SEP (take 8 ((n :: ns) ++ more)) ≠ [])
      as Hjoin.
    { intros more. cbn [app take].
      destruct (join_cons_prefix NOTE_SEP n (take 7 (ns ++ more))) as [t ->].
      split; [by apply note_head_not_sentinel|].
      apply literal_app_nonempty. by apply note_head_nonempty. }
    destruct (candidate_signals topic_id signals) as [|c cs].
    + specialize (Hjoin []). rewrite app_nil_r in Hjoin.
      destruct Hjoin as [H1 H2]. split; [|done].
      split; [done|]. by intros [? _].
    + destruct (Hjoin [CANDIDATE_PREFIX
                       ++ Str.join NOTE_SEP
                            (unique_keep_order (take 3 (c :: cs)))])
        as [H1 H2].
      split; [|done]. split; [done|]. by intros [? _].
Qed.

(** X9. The logic notes of a question are the sentinel exactly when the
    node carries no explicit note and no global signal mentions its topic
    id; and they are never the empty string. *)
Theorem logic_notes_sentinel_iff (node : Tag) (topic_id : option Z)
    (signals : dict) :
  (extract_logic_notes node topic_id signals = NO_LOGIC
   ↔ explicit_notes node = [] ∧ candidate_signals topic_id signals = [])
  ∧ extract_logic_notes node topic_id signals ≠ [].
Proof. apply extract_logic_notes_cases. Qed.

Lemma map_qtype_nonempty (type_code : pystr) : map_qtype type_code ≠ [].
Proof.
  unfold map_qtype, qtype_mapping. cbn [dict_get].
  repeat (destruct (decide _); [by vm_compute|]).
  apply literal_app_nonempty. by vm_compute.
Qed.

(** X10. No text field of a parsed question is empty: the stem, the
    options, the logic notes, the type tag and the display number all
    hold at least one character; and a topic id is never negative. *)
Theorem parse_question_fields_nonempty (node : Tag) (display_index : Z)
    (section_name : pystr) (signals : dict) (q : Question) :
  parse_question node display_index section_name signals = Return q →
  stem q ≠ [] ∧ options q ≠ [] ∧ logic_notes q ≠ [] ∧ qtype q ≠ []
  ∧ display_no q ≠ []
  ∧ (∀ t, topic_id q = Some t → (0 <= t)%Z).
Proof.
  intros (topic & Htopic & ->)%parse_question_Return.
  unfold question_of. cbn [stem options logic_notes qtype display_no
                           topic_id].
  split_and!.
  - destruct (tag_text _); [by vm_compute|done].
  - apply extract_options_nonempty.
  - apply extract_logic_notes_cases.
  - apply map_qtype_nonempty.
  - apply of_int_nonempty.
  - intros t ->. destruct (get node (utf8 "topic")) as [raw|]; [|done].
    pose proof (parse_topic_id_outcomes raw) as Hcases.
    destruct (first_digit_run raw) as [digits|]; [|congruence].
    destruct (INT_MAX_STR_DIGITS <? length digits)%nat; [congruence|].
    rewrite Hcases in Htopic. injection Htopic as <-.
    apply digits_value_nonneg.
Qed.

Lemma returned_questions (now : datetime) (html url : pystr) (s : Survey) :
  parse_survey now html url = Return s →
  ∃ st, final_walk html = Return st
        ∧ questions s = questions_acc st
        ∧ sections s = build_sections (questions s) (ordered_names st).
Proof.
  intros Hp.
  destruct (parse_survey_Return _ _ _ _ Hp) as (st & _ & _ & Hw & _ & ->).
  by exists st.
Qed.

(** X11. The display numbers of a returned survey are pairwise distinct
    strings. *)
Theorem display_numbers_distinct (now : datetime) (html url : pystr)
    (s : Survey) :
  parse_survey now html url = Return s →
  NoDup (display_no <$> questions s).
Proof.
  intros Hp. destruct (returned_questions _ _ _ _ Hp) as (st & Hw & -> & _).
  destruct (final_walk_questions _ _ Hw) as (F & Hidx & _).
  assert (display_no <$> questions_acc st
          = Str.of_int <$> (index <$> questions_acc st))
    as ->.
  { rewrite <- list_fmap_compose. apply Forall_fmap_ext_1.
    clear Hidx. induction F as [|q node qs ns Hq _ IH]; constructor; [|done].
    by destruct (parse_question_index _ _ _ _ _ Hq) as (_ & _ & ->). }
  rewrite Hidx.
  apply (NoDup_fmap_2_strong Str.of_int).
  - intros n m _ _. apply of_int_inj.
  - apply NoDup_fmap_2; [|apply NoDup_seq]. intros n m. lia.
Qed.

End QuestionFields.

(** ** The outcomes of the parse *)

Section Outcomes.
Context `{U : UnicodeData} `{B : Bs4}.

Lemma parse_topic_id_node (node : Tag) :
  parse_topic_id (get node (utf8 "topic"))
  = match topic_digits node with
    | Some digits =>
      if (INT_MAX_STR_DIGITS <? length digits)%nat
      then Raise (ValueError (digit_limit_message (length digits)))
      else Return (Some (digits_value digits))
    | None => Return None
    end.
Proof.
  unfold topic_digits. destruct (get node _) as [raw|]; [|done]. simpl.
  pose proof (parse_topic_id_outcomes raw) as Hcases.
  destruct (first_digit_run raw) as [digits|]; [|done].
  by destruct (INT_MAX_STR_DIGITS <? length digits)%nat.
Qed.

Lemma parse_question_outcomes (node : Tag) (display_index : Z)
    (section_name : pystr) (signals : dict) :
  parse_question node display_index section_name signals
  = match topic_digits node with
    | Some digits =>
      if (INT_MAX_STR_DIGITS <? length digits)%nat
      then Raise (ValueError (digit_limit_message (length digits)))
      else Return (question_of node (Some (digits_value digits))
                               display_index section_name signals)
    | None => Return (question_of node None display_index section_name
                                  signals)
    end.
Proof.
  rewrite parse_question_eq, parse_topic_id_node.
  destruct (topic_digits node) as [digits|]; [|done].
  by destruct (INT_MAX_STR_DIGITS <? length digits)%nat.
Qed.

Lemma parse_question_fits (node : Tag) (display_index : Z)
    (section_name : pystr) (signals : dict) :
  oversized node = false ↔
  ∃ q, parse_question node display_index section_name signals = Return q.
Proof.
  rewrite parse_question_outcomes. unfold oversized.
  destruct (topic_digits node) as [digits|]; [|split; eauto].
  destruct (INT_MAX_STR_DIGITS <? length digits)%nat.
  - split; [done|]. by intros [q ?].
  - split; eauto.
Qed.





Lemma question_nodes_container (html : pystr) :
  question_nodes_of html ≠ [] → container_of html ≠ None.
Proof.
  unfold question_nodes_of, nodes_of. by destruct (container_of html).
Qed.


(** X26. A question node without a type attribute, or with an empty one:
    whenever [parse_question] returns, the type tag is the unknown-type
    label spelled with [N/A] and the options are those of the generic
    fallback; and it returns unless the topic attribute holds a first run
    of more than 4300 digits, whatever the type. *)
Theorem untyped_question_fallback (node : Tag) (display_index : Z)
    (section_name : pystr) (signals : dict) :
  get node (utf8 "type") = None ∨ get node (utf8 "type") = Some [] →
  (∀ q, parse_question node display_index section_name signals = Return q →
        qtype q = utf8 "未知类型(N/A)"
        ∧ options q
          = match extract_option_labels node (utf8 ".label") with
            | [] => FALLBACK_PLACEHOLDER
            | labels => Str.join (utf8 "；") labels
            end)
  ∧ ((∃ q, parse_question node display_index section_name signals
           = Return q)
     ↔ oversized node = false).
Proof.
  intros Hty. split.
  - intros q (topic & _ & ->)%parse_question_Return.
    by apply untyped_question_of.
  - symmetry. apply parse_question_fits.
Qed.

End Outcomes.

(** ** The parse of a document with an oversized topic attribute *)

(** C6, the defect. In [oversized_doc] the detector reports nothing, the
    container is there and one question node is recognized, so that the
    parse should return a survey; but [int] refuses the 4301 digits of the
    node's topic attribute and its [ValueError], which nothing catches,
    leaves [parse_survey]: the outcome is neither a survey nor a
    structural failure. *)
Theorem oversized_topic_leaves_parse :
  @check_restricted_page Ascii_tables.tables oversized_doc = None
  ∧ @container_of TreeDom.bs4 oversized_doc ≠ None
  ∧ length (@question_nodes_of TreeDom.bs4 oversized_doc) = 1%nat
  ∧ run_parse_survey sample_now oversized_doc (utf8 "u")
    = Raise (ValueError (digit_limit_message 4301))
  ∧ digit_limit_message 4301
    = utf8 "Exceeds the limit (4300 digits) for integer string conversion: value has 4301 digits; use sys.set_int_max_str_digits() to increase the limit"
  ∧ (∀ s, run_parse_survey sample_now oversized_doc (utf8 "u") ≠ Return s)
  ∧ (∀ e : ExportError,
       run_parse_survey sample_now oversized_doc (utf8 "u") ≠ Raise e).
Proof.
  assert (run_parse_survey sample_now oversized_doc (utf8 "u")
          = Raise (ValueError (digit_limit_message 4301))) as Hp
    by (vm_compute; reflexivity).
  split_and!.
  - vm_compute. reflexivity.
  - vm_compute. discriminate.
  - vm_compute. reflexivity.
  - exact Hp.
  - vm_compute. reflexivity.
  - intros s. rewrite Hp. discriminate.
  - intros e. rewrite Hp. discriminate.
Qed.

(** C10, the defect. The question node of [oversized_doc] has no type
    attribute, and parsing it fails all the same: the [ValueError] of
    [int] on the node's topic attribute leaves [parse_question] at its
    first statement, and with it the parse of the document. It is the
    defect of C6, met on a node without a type. *)
Theorem untyped_question_parse_fails :
  @question_nodes_of TreeDom.bs4 oversized_doc = [oversized_node]
  ∧ @get TreeDom.bs4 oversized_node (utf8 "type") = None
  ∧ @parse_question Ascii_tables.tables TreeDom.bs4 oversized_node 1
      DEFAULT_SECTION []
    = Raise (ValueError (digit_limit_message 4301))
  ∧ @check_restricted_page Ascii_tables.tables oversized_doc = None
  ∧ run_parse_survey sample_now oversized_doc (utf8 "u")
    = Raise (ValueError (digit_limit_message 4301)).
Proof.
  split_and!; vm_compute; reflexivity.
Qed.

(** ** The signal table *)

Lemma dict_find_set (d : dict) (k v k' : pystr) :
  dict_find (dict_set d k v) k'
  = if decide (k = k') then Some v else dict_find d k'.
Proof.
  induction d as [|[k0 v0] d IH]; simpl.
  - by destruct (decide (k = k')).
  - destruct (decide (k0 = k)) as [->|Hne]; simpl.
    + by destruct (decide (k = k')).
    + rewrite IH. destruct (decide (k0 = k')) as [->|?]; [|done].
      by destruct (decide (k = k')); [congruence|].
Qed.

Lemma dict_set_NoDup (d : dict) (k v : pystr) :
  NoDup d.*1 → NoDup (dict_set d k v).*1.
Proof.
  induction d as [|[k0 v0] d IH]; simpl.
  - intros _. apply NoDup_singleton.
  - rewrite NoDup_cons. intros [Hnin Hnd].
    destruct (decide (k0 = k)) as [->|Hne]; simpl.
    + by apply NoDup_cons.
    + apply NoDup_cons. split; [|by apply IH].
      rewrite dict_set_keys. intros [?|?]; [congruence|done].
Qed.

Lemma dict_find_elem (d : dict) (k v : pystr) :
  NoDup d.*1 → dict_find d k = Some v ↔ (k, v) ∈ d.
Proof.
  induction d as [|[k0 v0] d IH]; simpl.
  - intros _. split; [done|by intros ?%elem_of_nil].
  - rewrite NoDup_cons. intros [Hnin Hnd].
    rewrite elem_of_cons, <- (IH Hnd).
    destruct (decide (k0 = k)) as [->|Hne].
    + split; [intros [= ->]; by left|].
      intros [[= ->]|Hin]; [done|].
      exfalso. apply Hnin. apply (IH Hnd) in Hin.
      by apply (list_elem_of_fmap_2' fst _ (k, v)).
    + split; [by right|]. intros [[= ? ?]|?]; [congruence|done].
Qed.

Section SignalTable.
Context `{U : UnicodeData}.

Lemma signals_fold_NoDup (ms : list Re.captures) (signals : dict) :
  NoDup signals.*1 → NoDup (foldl signal_step signals ms).*1.
Proof.
  revert signals. induction ms as [|m ms IH]; intros signals Hnd; [done|].
  simpl. apply IH. rewrite signal_step_kept.
  destruct (is_kept m); [by apply dict_set_NoDup|done].
Qed.

Lemma signals_fold_find_skip (ms : list Re.captures) (signals : dict)
    (name : pystr) :
  Forall (fun m => is_kept m = true → Re.group m 1 ≠ name) ms →
  dict_find (foldl signal_step signals ms) name = dict_find signals name.
Proof.
  intros Hms. revert signals.
  induction Hms as [|m ms Hm _ IH]; intros signals; [done|].
  simpl. rewrite IH, signal_step_kept.
  destruct (is_kept m); [|done].
  rewrite dict_find_set. by destruct (decide _); [destruct (Hm eq_refl)|].
Qed.

(** X12. The signal table has one entry per variable name, and looking a
    name up finds exactly the entry of the table. *)
Theorem signal_table_one_entry_per_name (html : pystr) :
  let signals := extract_global_logic_signals html in
  NoDup signals.*1
  ∧ ∀ name value, dict_find signals name = Some value ↔ (name, value) ∈ signals.
Proof.
  intros signals.
  assert (NoDup signals.*1) as Hnd
    by (apply signals_fold_NoDup; constructor).
  split; [done|]. intros name value. by apply dict_find_elem.
Qed.

(** X13. When a variable is assigned several times, the table holds the
    value of its last kept assignment, passed through
    [truncate(value, 140)]. *)
Theorem signal_table_last_assignment_wins (html : pystr)
    (before after : list Re.captures) (m : Re.captures) :
  Re.findall true Pat.VAR_ASSIGN html = before ++ m :: after →
  is_kept m = true →
  Forall (fun m' => is_kept m' = true → Re.group m' 1 ≠ Re.group m 1) after →
  dict_find (extract_global_logic_signals html) (Re.group m 1)
  = Some (truncate (Re.group m 2) 140).
Proof.
  intros Hfound Hkept Hafter. unfold extract_global_logic_signals.
  rewrite Hfound, foldl_app. cbn [foldl].
  rewrite signals_fold_find_skip by done.
  rewrite signal_step_kept, Hkept, dict_find_set.
  by destruct (decide _).
Qed.

End SignalTable.

(** ** Section names and topic ranges *)

Lemma unique_fold_add_name (xs : list pystr) (seen : gset (list N))
    (names : list pystr) :
  (∀ x, x ∈ seen ↔ x ∈ names) →
  (foldl unique_step (seen, names) xs).2 = foldl add_name names xs.
Proof.
  revert seen names.
  induction xs as [|x xs IH]; intros seen names Hseen; [done|].
  simpl. unfold add_name at 2.
  destruct (decide (x ∈ seen)) as [Hin|Hnin];
    destruct (decide (x ∈ names)) as [Hin'|Hnin'];
    try (by apply IH); try (exfalso; naive_solver).
  apply IH. intros y.
  rewrite elem_of_union, elem_of_singleton, elem_of_app,
    list_elem_of_singleton, Hseen. tauto.
Qed.

Lemma unique_keep_order_add_name (x : pystr) (xs : list pystr) :
  unique_keep_order (x :: xs) = foldl add_name [x] xs.
Proof.
  unfold unique_keep_order. simpl.
  destruct (decide (x ∈ (∅ : gset (list N)))) as [Hin|_]; [set_solver|].
  apply unique_fold_add_name. intros y.
  rewrite elem_of_union, elem_of_singleton, list_elem_of_singleton.
  set_solver.
Qed.

Lemma py_min_spec (xs : list Z) (a : Z) :
  py_min xs = Some a → a ∈ xs ∧ Forall (fun x => (a <= x)%Z) xs.
Proof.
  destruct xs as [|x xs]; [done|]. simpl. intros [= <-].
  assert (∀ acc, foldl Z.min acc xs ∈ acc :: xs
                 ∧ (foldl Z.min acc xs <= acc)%Z
                 ∧ Forall (fun y => (foldl Z.min acc xs <= y)%Z) xs) as Hf.
  { induction xs as [|y xs IH]; intros acc; simpl.
    - split_and!; [left|lia|constructor].
    - destruct (IH (Z.min acc y)) as (I1 & I2 & I3). split_and!.
      + apply elem_of_cons in I1 as [->|I1]; [|by right; right].
        destruct (Z.min_spec acc y) as [[_ ->]|[_ ->]];
          [left|right; left].
      + lia.
      + constructor; [lia|done]. }
  destruct (Hf x) as (I1 & I2 & I3). split; [done|]. by constructor.
Qed.

Lemma py_max_spec (xs : list Z) (b : Z) :
  py_max xs = Some b → b ∈ xs ∧ Forall (fun x => (x <= b)%Z) xs.
Proof.
  destruct xs as [|x xs]; [done|]. simpl. intros [= <-].
  assert (∀ acc, foldl Z.max acc xs ∈ acc :: xs
                 ∧ (acc <= foldl Z.max acc xs)%Z
                 ∧ Forall (fun y => (y <= foldl Z.max acc xs)%Z) xs) as Hf.
  { induction xs as [|y xs IH]; intros acc; simpl.
    - split_and!; [left|lia|constructor].
    - destruct (IH (Z.max acc y)) as (I1 & I2 & I3). split_and!.
      + apply elem_of_cons in I1 as [->|I1]; [|by right; right].
        destruct (Z.max_spec acc y) as [[_ ->]|[_ ->]];
          [right; left|left].
      + lia.
      + constructor; [lia|done]. }
  destruct (Hf x) as (I1 & I2 & I3). split; [done|]. by constructor.
Qed.

Lemma build_sections_elem (questions : list Question) (names : list pystr)
    (sec : Section_) :
  sec ∈ build_sections questions names →
  sec ∈ collect_sections questions names
  ∨ sec = mkSection DEFAULT_SECTION None None.
Proof.
  unfold build_sections.
  destruct (collect_sections questions names) as [|s0 ss].
  - cbn. intros Hin%list_elem_of_singleton. by right.
  - destruct (1 <? length (s0 :: ss))%nat; [|by left].
    intros [_ Hin]%list_elem_of_filter. by left.
Qed.

Lemma build_sections_names_sublist (questions : list Question)
    (names : list pystr) :
  DEFAULT_SECTION ∈ names →
  name <$> build_sections questions names `sublist_of` names.
Proof.
  intros Hdef.
  assert (collect_sections questions names ≠ []) as Hne.
  { intros Hnil.
    assert (mkSection DEFAULT_SECTION
              (py_min (section_topics questions DEFAULT_SECTION))
              (py_max (section_topics questions DEFAULT_SECTION))
            ∈ collect_sections questions names) as Hin.
    { apply collect_sections_spec. exists DEFAULT_SECTION.
      split_and!; [done|done|by right]. }
    rewrite Hnil in Hin. by apply elem_of_nil in Hin. }
  unfold build_sections.
  pose proof (collect_sections_names_sublist questions names) as Hsub.
  destruct (collect_sections questions names) as [|s0 ss]; [done|].
  destruct (1 <? length (s0 :: ss))%nat; [|done].
  etrans; [|exact Hsub]. apply fmap_sublist, sublist_filter.
Qed.

Section SectionNames.
Context `{U : UnicodeData} `{B : Bs4}.

Lemma traverse_ordered_names (signals : dict) (nodes : list Tag)
    (st st' : walk) :
  traverse signals st nodes = Return st' →
  ordered_names st'
  = foldl add_name (ordered_names st) (divider_names nodes).
Proof.
  revert st. induction nodes as [|node nodes IH]; intros st.
  { by intros [= <-]. }
  rewrite traverse_cons. intros (st1 & Hv & Ht)%bind_Return.
  rewrite (IH _ Ht). unfold divider_names. cbn [List.filter].
  apply visit_Return in Hv as [[Hd ->]|[(Hq & q & _ & ->)|(Hd & _ & ->)]].
  - unfold is_divider in Hd. rewrite Hd, fmap_cons.
    destruct (divider_name node) as [|c nm] eqn:Hnm.
    + by rewrite filter_cons_False by tauto.
    + by rewrite filter_cons_True by done.
  - unfold is_question_node in Hq.
    by destruct (is_cutfield node).
  - unfold is_divider in Hd. by rewrite Hd.
Qed.

Lemma final_walk_names (html : pystr) (st : walk) :
  final_walk html = Return st →
  ordered_names st
  = unique_keep_order (DEFAULT_SECTION :: divider_names (nodes_of html)).
Proof.
  unfold final_walk. intros Hw. rewrite (traverse_ordered_names _ _ _ _ Hw).
  by rewrite unique_keep_order_add_name.
Qed.

(** X14. The section names of a returned survey are pairwise distinct and
    follow the order in which the names first occur in the document (the
    default name first, then the non-empty divider texts); every
    question's section is one of those names. *)
Theorem section_names_first_occurrence (now : datetime) (html url : pystr)
    (s : Survey) :
  parse_survey now html url = Return s →
  let names :=
    unique_keep_order (DEFAULT_SECTION :: divider_names (nodes_of html)) in
  name <$> sections s `sublist_of` names
  ∧ NoDup (name <$> sections s)
  ∧ Forall (fun q => section q ∈ names) (questions s).
Proof.
  intros Hp names.
  destruct (returned_questions _ _ _ _ Hp) as (st & Hw & Hq & Hs).
  rewrite Hs, Hq. unfold names. rewrite <- (final_walk_names _ _ Hw).
  destruct (traverse_names_consistent _ _ _ _ Hw walk_start_consistent)
    as (Hnd & _ & Hqs).
  assert (name <$> build_sections (questions_acc st) (ordered_names st)
          `sublist_of` ordered_names st) as Hsub.
  { apply build_sections_names_sublist. rewrite (final_walk_names _ _ Hw).
    rewrite unique_keep_order_cons. left. }
  split_and!; [done|by eapply sublist_NoDup|done].
Qed.

End SectionNames.

(** X15. The topic range of a built section: both ends are absent or both
    present; when present they are the least and the greatest topic id
    among the questions of that section, so every such topic id lies
    between them. *)
Theorem section_topic_range (questions : list Question) (names : list pystr)
    (sec : Section_) :
  sec ∈ build_sections questions names →
  (start_topic sec = None ↔ end_topic sec = None)
  ∧ ∀ a b,
      start_topic sec = Some a → end_topic sec = Some b →
      (a <= b)%Z
      ∧ (∃ q, q ∈ questions ∧ section q = name sec ∧ topic_id q = Some a)
      ∧ (∃ q, q ∈ questions ∧ section q = name sec ∧ topic_id q = Some b)
      ∧ Forall (fun q =>
                  section q = name sec →
                  ∀ t, topic_id q = Some t → (a <= t <= b)%Z)
               questions.
Proof.
  intros [Hin| ->]%build_sections_elem; [|by split].
  apply collect_sections_spec in Hin as (nm & _ & -> & _).
  cbn [start_topic end_topic name].
  set (topics := section_topics questions nm).
  split; [by destruct topics|].
  intros a b Ha Hb.
  destruct (py_min_spec _ _ Ha) as [Hain Hamin].
  destruct (py_max_spec _ _ Hb) as [Hbin Hbmax].
  split_and!.
  - by eapply (proj1 (Forall_forall _ _) Hamin).
  - by apply section_topics_elem in Hain.
  - by apply section_topics_elem in Hbin.
  - apply Forall_forall. intros q Hq Hsec t Ht.
    assert (t ∈ topics) as Htin
      by (apply section_topics_elem; by exists q).
    split.
    + by eapply (proj1 (Forall_forall _ _) Hamin).
    + by eapply (proj1 (Forall_forall _ _) Hbmax).
Qed.

(** ** [sanitize_filename] *)

Lemma lstrip_chars_suffix (chars s : pystr) :
  ∃ pre, s = pre ++ Str.lstrip_chars chars s.
Proof.
  induction s as [|c s [pre IH]]; simpl; [by exists []|].
  destruct (bool_decide (c ∈ chars)); [|by exists []].
  exists (c :: pre). simpl. by rewrite <- IH.
Qed.

Lemma lstrip_chars_head (chars s : pystr) (c : N) (t : pystr) :
  Str.lstrip_chars chars s = c :: t → c ∉ chars.
Proof.
  induction s as [|d s IH]; simpl; [done|].
  destruct (bool_decide (d ∈ chars)) eqn:Hd; [done|].
  intros [= -> _]. by apply bool_decide_eq_false in Hd.
Qed.

Lemma lstrip_chars_keeps_last (chars s : pystr) (c : N) :
  c ∉ chars → ∃ t, Str.lstrip_chars chars (s ++ [c]) = t ++ [c].
Proof.
  intros Hc. induction s as [|d s [t IH]]; simpl.
  - rewrite bool_decide_eq_false_2 by done. by exists [].
  - destruct (bool_decide (d ∈ chars)); [by exists t|].
    by exists (d :: s).
Qed.

Lemma rstrip_chars_prefix (chars s : pystr) :
  ∃ suf, s = Str.rstrip_chars chars s ++ suf.
Proof.
  unfold Str.rstrip_chars.
  destruct (lstrip_chars_suffix chars (rev s)) as [pre Hpre].
  exists (rev pre). rewrite <- rev_app_distr, <- Hpre.
  by rewrite rev_involutive.
Qed.

Lemma rstrip_chars_last (chars s t : pystr) (c : N) :
  Str.rstrip_chars chars s = t ++ [c] → c ∉ chars.
Proof.
  unfold Str.rstrip_chars. intros Heq.
  apply (f_equal (@rev N)) in Heq.
  rewrite rev_involutive, rev_app_distr in Heq. simpl in Heq.
  by eapply lstrip_chars_head.
Qed.

Lemma rstrip_chars_keeps_head (chars t : pystr) (c : N) :
  c ∉ chars → ∃ t', Str.rstrip_chars chars (c :: t) = c :: t'.
Proof.
  intros Hc. unfold Str.rstrip_chars. simpl.
  destruct (lstrip_chars_keeps_last chars (rev t) c Hc) as [y ->].
  exists (rev y). by rewrite rev_app_distr.
Qed.

Lemma Forall_app_inv_l {A} (P : A → Prop) (a b : list A) :
  Forall P (a ++ b) → Forall P a.
Proof. rewrite Forall_app. tauto. Qed.

Lemma Forall_app_inv_r {A} (P : A → Prop) (a b : list A) :
  Forall P (a ++ b) → Forall P b.
Proof. rewrite Forall_app. tauto. Qed.

Section SanitizeFilename.
Context `{U : UnicodeData}.

Lemma set_matches_forbidden (c : N) :
  Re.set_matches false false
    [Re.CLit (ch "<"); Re.CLit (ch ">"); Re.CLit (ch ":"); Re.CLit 0x22%N;
     Re.CLit (ch "/"); Re.CLit 0x5C%N; Re.CLit (ch "|"); Re.CLit (ch "?");
     Re.CLit (ch "*"); Re.CRange 0x00%N 0x1F%N] c
  = forbidden_in_names c.
Proof.
  unfold Re.set_matches, Re.in_set, forbidden_in_names.
  cbn [existsb Re.item_matches xorb].
  change (ch "<") with 0x3C%N. change (ch ">") with 0x3E%N.
  change (ch ":") with 0x3A%N. change (ch "/") with 0x2F%N.
  change (ch "|") with 0x7C%N. change (ch "?") with 0x3F%N.
  change (ch "*") with 0x2A%N.
  repeat match goal with
         | |- context [(?x =? c)%N] =>
           destruct (N.eqb_spec x c) as [<-|?]; [by vm_compute|]
         end.
  rewrite bool_decide_eq_false_2.
  - cbn [orb]. rewrite orb_false_r. by destruct c.
  - intros Hin.
    repeat (apply elem_of_cons in Hin as [->|Hin]; [done|]).
    by apply elem_of_nil in Hin.
Qed.

Lemma sub_forbidden (s : pystr) :
  Re.sub false Pat.FORBIDDEN_IN_NAMES (utf8 "_") s
  = (fun c => if forbidden_in_names c then 0x5F%N else c) <$> s.
Proof.
  unfold Re.sub. induction s as [|c s IH]; [done|].
  cbn [Re.sub_from]. rewrite fmap_cons, <- IH.
  assert (Re.match_at false Pat.FORBIDDEN_IN_NAMES (c :: s)
          = if forbidden_in_names c then Some ([], s) else None) as ->.
  { unfold Re.match_at, Pat.FORBIDDEN_IN_NAMES. cbn [Re.rmatch].
    by rewrite set_matches_forbidden. }
  destruct (forbidden_in_names c); [|done].
  by replace (length (c :: s) - length s - 1)%nat with 0%nat
    by (simpl; lia).
Qed.

Lemma sub_forbidden_clean (s : pystr) :
  Forall (fun c => forbidden_in_names c = false)
         (Re.sub false Pat.FORBIDDEN_IN_NAMES (utf8 "_") s).
Proof.
  rewrite sub_forbidden. apply Forall_fmap, Forall_forall. intros c _. simpl.
  by destruct (forbidden_in_names c) eqn:Hc.
Qed.

(** X16. A sanitized file name is never empty and never longer than 80
    characters; it holds none of the characters [<], [>], [:], the double
    quote, [/], the backslash, [|], [?], the star or a control character;
    and it neither starts nor ends with a space or a dot. *)
Theorem sanitize_filename_safe (name : pystr) :
  let f := sanitize_filename name in
  f ≠ []
  ∧ (length f ≤ 80)%nat
  ∧ Forall (fun c => forbidden_in_names c = false) f
  ∧ (∀ c t, f = c :: t → c ∉ utf8 " .")
  ∧ (∀ t c, f = t ++ [c] → c ∉ utf8 " .").
Proof.
  unfold sanitize_filename. cbv zeta.
  set (cleaned := Re.sub false Pat.FORBIDDEN_IN_NAMES (utf8 "_")
                         (normalize_text name)).
  pose proof (sub_forbidden_clean (normalize_text name)) as Hclean.
  fold cleaned in Hclean.
  set (stripped := Str.strip_chars (utf8 " .") cleaned).
  assert (Forall (fun c => forbidden_in_names c = false) stripped) as Hs.
  { unfold stripped, Str.strip_chars.
    destruct (lstrip_chars_suffix (utf8 " .") cleaned) as [pre Hpre].
    destruct (rstrip_chars_prefix (utf8 " .")
                (Str.lstrip_chars (utf8 " .") cleaned)) as [suf Hsuf].
    rewrite Hpre in Hclean. apply Forall_app_inv_r in Hclean.
    rewrite Hsuf in Hclean. by apply Forall_app_inv_l in Hclean. }
  assert (∀ c t, stripped = c :: t → c ∉ utf8 " .") as Hhead.
  { unfold stripped, Str.strip_chars. intros c t Heq.
    destruct (rstrip_chars_prefix (utf8 " .")
                (Str.lstrip_chars (utf8 " .") cleaned)) as [suf Hsuf].
    rewrite Heq in Hsuf. by eapply lstrip_chars_head. }
  assert (∀ t c, stripped = t ++ [c] → c ∉ utf8 " .") as Hlast.
  { unfold stripped, Str.strip_chars. intros t c Heq.
    by eapply rstrip_chars_last. }
  set (named := match stripped with [] => DEFAULT_FILENAME | _ => stripped end).
  assert (named ≠ []
          ∧ Forall (fun c => forbidden_in_names c = false) named
          ∧ (∀ c t, named = c :: t → c ∉ utf8 " .")
          ∧ (∀ t c, named = t ++ [c] → c ∉ utf8 " .")) as (N1 & N2 & N3 & N4).
  { unfold named. destruct stripped as [|c0 t0]; [|by split_and!].
    split_and!.
    - by vm_compute.
    - apply (bool_decide_unpack _). by vm_compute.
    - intros c t Heq. vm_compute in Heq. injection Heq as <- _.
      apply (bool_decide_unpack _). by vm_compute.
    - intros t c Heq.
      change DEFAULT_FILENAME with (utf8 "wjx_expor" ++ [ch "t"]) in Heq.
      apply app_inj_tail in Heq as [_ <-].
      apply (bool_decide_unpack _). by vm_compute. }
  clearbody named. clear stripped Hs Hhead Hlast cleaned Hclean.
  destruct (Nat.ltb_spec 80 (length named)) as [Hlong|Hshort].
  - destruct named as [|c t]; [done|].
    assert (c ∉ utf8 " .") as Hc by (by eapply N3).
    cbn [take].
    destruct (rstrip_chars_keeps_head (utf8 " .") (take 79 t) c Hc)
      as [t' Ht'].
    destruct (rstrip_chars_prefix (utf8 " .") (c :: take 79 t))
      as [suf Hsuf].
    split_and!.
    + by rewrite Ht'.
    + apply (f_equal length) in Hsuf. rewrite length_app in Hsuf.
      simpl in Hsuf. rewrite length_take in Hsuf. lia.
    + assert (Forall (fun c => forbidden_in_names c = false)
                     (c :: take 79 t)) as Hall.
      { change (c :: take 79 t) with (take 80 (c :: t)).
        rewrite <- (take_drop 80 (c :: t)) in N2.
        by apply Forall_app_inv_l in N2. }
      rewrite Hsuf in Hall. by apply Forall_app_inv_l in Hall.
    + intros c' t'' Heq. rewrite Ht' in Heq. by injection Heq as <- _.
    + intros t'' c' Heq. by eapply rstrip_chars_last.
  - by split_and!.
Qed.

End SanitizeFilename.

(** ** [build_output_paths] *)

Section OutputPaths.
Context `{U : UnicodeData} `{FS : FileSystem}.



End OutputPaths.

(** ** [fetch_html] *)

Lemma fetch_loop_failures (get : Z → reply) (retries : Z) (l1 l2 : list Z)
    (last_error : option pystr) (events : list event) :
  Forall (fun a => failing (get a)) l1 →
  fetch_loop get retries (l1 ++ l2) last_error events
  = fetch_loop get retries l2
      (foldl (fun _ a => Some (error_text (get a))) last_error l1)
      (events ++ concat (failure_events retries <$> l1)).
Proof.
  intros Hfail. revert last_error events.
  induction Hfail as [|a l1 Ha _ IH]; intros last_error events.
  - simpl. by rewrite app_nil_r.
  - cbn [app fetch_loop foldl fmap list_fmap concat]. cbv zeta.
    assert (events ++ failure_events retries a ++ concat (failure_events retries <$> l1)
            = (events ++ failure_events retries a)
              ++ concat (failure_events retries <$> l1)) as ->
      by (by rewrite app_assoc).
    rewrite <- IH. unfold failure_events.
    destruct (get a) as [status_code text|msg]; cbn [error_text].
    + simpl in Ha. destruct (Z.leb_spec 400 status_code); [|lia].
      destruct (a <? retries)%Z; by rewrite <- ?app_assoc.
    + destruct (a <? retries)%Z; by rewrite <- ?app_assoc.
Qed.

Lemma sleeps_app (a b : list event) : sleeps (a ++ b) = sleeps a ++ sleeps b.
Proof. unfold sleeps. apply omap_app. Qed.

Lemma gets_app (a b : list event) : gets (a ++ b) = gets a ++ gets b.
Proof. unfold gets. apply omap_app. Qed.

Lemma gets_failures (retries : Z) (l : list Z) :
  gets (concat (failure_events retries <$> l)) = l.
Proof.
  induction l as [|a l IH]; [done|].
  rewrite fmap_cons. cbn [concat]. rewrite gets_app, IH.
  unfold failure_events. by destruct (a <? retries)%Z.
Qed.

Lemma sleeps_failures (retries : Z) (l : list Z) :
  sleeps (concat (failure_events retries <$> l))
  = (fun a => 2 ^ a)%Z <$> filter (fun a => (a < retries)%Z) l.
Proof.
  induction l as [|a l IH]; [done|].
  rewrite fmap_cons. cbn [concat]. rewrite sleeps_app, IH.
  unfold failure_events. destruct (Z.ltb_spec a retries).
  - by rewrite filter_cons_True by done.
  - by rewrite filter_cons_False by lia.
Qed.

Lemma filter_seqZ_lt (n bound : Z) :
  (0 <= n)%Z →
  filter (fun a => (a < bound)%Z) (seqZ 0 n) = seqZ 0 (Z.min n bound).
Proof.
  intros Hn. rewrite <- (Z2Nat.id n) by done.
  induction (Z.to_nat n) as [|k IH].
  { rewrite (seqZ_nil 0 (Z.min _ _)) by lia. done. }
  rewrite seqZ_S, filter_app, IH. cbn [Z.add].
  destruct (Z_lt_dec (Z.of_nat k) bound) as [Hlt|Hge].
  - rewrite filter_cons_True by done. rewrite filter_nil.
    replace (Z.min (Z.of_nat k) bound) with (Z.of_nat k) by lia.
    replace (Z.min (Z.of_nat (S k)) bound) with (Z.of_nat (S k)) by lia.
    by rewrite seqZ_S.
  - rewrite filter_cons_False by done. rewrite filter_nil, app_nil_r.
    f_equal. lia.
Qed.

Lemma total_pow2 (n : Z) :
  (0 <= n)%Z → total ((fun a => 2 ^ a)%Z <$> seqZ 0 n) = (2 ^ n - 1)%Z.
Proof.
  intros Hn. rewrite <- (Z2Nat.id n) by done.
  induction (Z.to_nat n) as [|k IH]; [done|].
  rewrite seqZ_S, fmap_app. unfold total in *. rewrite foldr_app.
  cbn [fmap list_fmap foldr Z.add].
  assert (∀ xs acc, foldr Z.add acc xs = (foldr Z.add 0 xs + acc)%Z) as Hacc.
  { induction xs as [|x xs IHx]; intros acc; simpl; [lia|].
    rewrite IHx. lia. }
  rewrite Hacc, IH, Z.add_0_l, Nat2Z.inj_succ, Z.pow_succ_r by lia. lia.
Qed.

(** X18. When the first attempt that succeeds is attempt [k], within the
    allowed retries, [fetch_html] returns the text of that response after
    exactly [k + 1] requests, having slept 1, 2, 4, ... seconds after the
    failed ones: [2^k - 1] seconds in all. *)
Theorem fetch_html_first_success (get : Z → reply) (retries k : Z)
    (status_code : Z) (text : pystr) :
  (0 <= k <= retries)%Z →
  (∀ j, (0 <= j < k)%Z → failing (get j)) →
  get k = Response status_code text →
  (status_code < 400)%Z →
  (fetch_html get retries).1 = Return text
  ∧ gets (fetch_html get retries).2 = seqZ 0 (k + 1)
  ∧ sleeps (fetch_html get retries).2 = (fun a => 2 ^ a)%Z <$> seqZ 0 k
  ∧ total (sleeps (fetch_html get retries).2) = (2 ^ k - 1)%Z.
Proof.
  intros Hk Hfail Hget Hok. unfold fetch_html.
  replace (retries + 1)%Z with (k + (1 + (retries - k)))%Z by lia.
  rewrite seqZ_app by lia.
  rewrite fetch_loop_failures.
  2:{ apply Forall_forall. intros j Hj%elem_of_seqZ. apply Hfail. lia. }
  rewrite (seqZ_cons (0 + k)) by lia.
  cbn [fetch_loop app]. cbv zeta. rewrite Z.add_0_l, Hget.
  destruct (Z.leb_spec 400 status_code); [lia|]. cbn [fst snd].
  assert (sleeps (concat (failure_events retries <$> seqZ 0 k) ++ [Get k])
          = (fun a => 2 ^ a)%Z <$> seqZ 0 k) as Hsleeps.
  { rewrite sleeps_app, sleeps_failures, app_nil_r, filter_seqZ_lt by lia.
    by replace (Z.min k retries) with k by lia. }
  split_and!; [done| |done|].
  - rewrite gets_app, gets_failures. cbn.
    replace (k + 1)%Z with (Z.of_nat (S (Z.to_nat k))) by lia.
    rewrite seqZ_S. by rewrite Z2Nat.id by lia.
  - rewrite Hsleeps. apply total_pow2. lia.
Qed.

(** X19. When every one of the [retries + 1] attempts fails, [fetch_html]
    raises the [EXIT_NETWORK] error naming the last failure, after
    [retries + 1] requests and [retries] sleeps of 1, 2, 4, ... seconds
    ([2^retries - 1] in all): it does not sleep after the last attempt. *)
Theorem fetch_html_exhausted (get : Z → reply) (retries : Z) :
  (0 <= retries)%Z →
  (∀ j, (0 <= j <= retries)%Z → failing (get j)) →
  (fetch_html get retries).1
  = Raise (mkExportError EXIT_NETWORK
             (utf8 "网络请求失败: " ++ error_text (get retries)))
  ∧ gets (fetch_html get retries).2 = seqZ 0 (retries + 1)
  ∧ sleeps (fetch_html get retries).2 = (fun a => 2 ^ a)%Z <$> seqZ 0 retries
  ∧ total (sleeps (fetch_html get retries).2) = (2 ^ retries - 1)%Z.
Proof.
  intros Hr Hfail. unfold fetch_html.
  pose proof (fetch_loop_failures get retries (seqZ 0 (retries + 1)) []
                None []) as Hloop.
  rewrite app_nil_r in Hloop. rewrite Hloop.
  2:{ apply Forall_forall. intros j Hj%elem_of_seqZ. apply Hfail. lia. }
  clear Hloop. cbn [fetch_loop fst snd app].
  assert (sleeps (concat (failure_events retries <$> seqZ 0 (retries + 1)))
          = (fun a => 2 ^ a)%Z <$> seqZ 0 retries) as Hsleeps.
  { rewrite sleeps_failures, filter_seqZ_lt by lia.
    by replace (Z.min (retries + 1) retries) with retries by lia. }
  split_and!.
  - do 3 f_equal.
    replace (retries + 1)%Z with (Z.of_nat (S (Z.to_nat retries))) by lia.
    rewrite seqZ_S, foldl_app. cbn. by rewrite Z2Nat.id by lia.
  - apply gets_failures.
  - done.
  - rewrite Hsleeps. by apply total_pow2.
Qed.

(** ** [survey_to_dict] *)

Lemma item_in_section_question_item (s : Section_) (q : Question) :
  item_in_section s (question_item q) = bool_decide (section q = name s).
Proof. by vm_compute. Qed.

Lemma filter_question_items (s : Section_) (qs : list Question) :
  List.filter (item_in_section s) (question_item <$> qs)
  = question_item <$> filter (fun q => section q = name s) qs.
Proof.
  induction qs as [|q qs IH]; [done|].
  rewrite fmap_cons. cbn [List.filter].
  rewrite item_in_section_question_item, IH.
  destruct (decide (section q = name s)) as [E|E].
  - by rewrite bool_decide_true, filter_cons_True by done.
  - by rewrite bool_decide_false, filter_cons_False by done.
Qed.

Lemma section_counts_survey (survey : Survey) :
  section_counts (survey_to_dict survey)
  = (fun s => Z.of_nat (length (filter (fun q => section q = name s)
                                       (questions survey))))
    <$> sections survey.
Proof.
  assert (section_counts (survey_to_dict survey)
          = (fun s => Z.of_nat (length (List.filter (item_in_section s)
                                  (question_item <$> questions survey))))
            <$> sections survey) as ->.
  { unfold section_counts.
    assert (pdict_get (survey_to_dict survey) (utf8 "sections")
            = PList (PDict <$> (section_item (question_item <$> questions survey)
                                <$> sections survey))) as -> by (by vm_compute).
    rewrite <- !list_fmap_compose. apply list_fmap_ext. intros _ s _.
    by vm_compute. }
  apply list_fmap_ext. intros _ s _.
  by rewrite filter_question_items, length_fmap.
Qed.

Lemma count_in_names (qs : list Question) (names : list pystr) :
  NoDup names →
  total ((fun n => Z.of_nat (length (filter (fun q => section q = n) qs)))
         <$> names)
  = Z.of_nat (length (filter (fun q => section q ∈ names) qs)).
Proof.
  unfold total. induction 1 as [|n names Hn _ IH].
  { cbn. induction qs as [|q qs IHq]; [done|].
    rewrite filter_cons_False; [done|]. apply not_elem_of_nil. }
  rewrite fmap_cons. cbn [foldr]. rewrite IH. clear IH.
  induction qs as [|q qs IHq]; [done|].
  destruct (decide (section q = n)) as [E|Hne].
  - rewrite (filter_cons_True (fun q => section q = n)) by done.
    rewrite (filter_cons_True (fun q => section q ∈ n :: names))
      by (rewrite E; apply elem_of_cons; by left).
    rewrite (filter_cons_False (fun q => section q ∈ names))
      by (by rewrite E).
    cbn [length]. lia.
  - rewrite (filter_cons_False (fun q => section q = n)) by done.
    destruct (decide (section q ∈ names)) as [Hin|Hout].
    + rewrite (filter_cons_True (fun q => section q ∈ names)) by done.
      rewrite (filter_cons_True (fun q => section q ∈ n :: names))
        by (apply elem_of_cons; by right).
      cbn [length]. lia.
    + rewrite (filter_cons_False (fun q => section q ∈ names)) by done.
      rewrite (filter_cons_False (fun q => section q ∈ n :: names));
        [done|].
      by intros [?|?]%elem_of_cons.
Qed.

Lemma length_filter_all {A} (P : A → Prop) `{!∀ x, Decision (P x)}
    (l : list A) :
  length (filter P l) = length l ↔ Forall P l.
Proof.
  induction l as [|x l IH]; [by split|].
  pose proof (length_filter P l) as Hle.
  destruct (decide (P x)).
  - rewrite filter_cons_True by done. cbn [length]. rewrite Forall_cons.
    split; [intros ?; split; [done|apply IH; lia]|].
    intros [_ ?%IH]. lia.
  - rewrite filter_cons_False by done. cbn [length]. rewrite Forall_cons.
    split; [lia|]. by intros [? _].
Qed.

(** X20. In the structured form of a survey every section entry lists, in
    order, exactly the questions whose section is its name, and counts
    them. When the section names are pairwise distinct, the section counts
    add up to the number of questions whose section is listed: never more
    than the top-level [question_count], and equal to it exactly when the
    section of every question is listed. *)
Theorem survey_to_dict_counts (survey : Survey) :
  NoDup (name <$> sections survey) →
  let d := survey_to_dict survey in
  let listed q := section q ∈ name <$> sections survey in
  Forall (fun s =>
            let entry := section_item (question_item <$> questions survey) s in
            section_questions entry
            = PDict <$> (question_item
                         <$> filter (fun q => section q = name s)
                                    (questions survey))
            ∧ int_entry entry (utf8 "question_count")
              = Z.of_nat (length (section_questions entry)))
         (sections survey)
  ∧ int_entry d (utf8 "question_count")
    = Z.of_nat (length (questions survey))
  ∧ total (section_counts d)
    = Z.of_nat (length (filter listed (questions survey)))
  ∧ (total (section_counts d) <= int_entry d (utf8 "question_count"))%Z
  ∧ (total (section_counts d) = int_entry d (utf8 "question_count")
     ↔ Forall listed (questions survey)).
Proof.
  intros Hnd d listed.
  assert (int_entry d (utf8 "question_count")
          = Z.of_nat (length (questions survey))) as Hcount by (by vm_compute).
  assert (total (section_counts d)
          = Z.of_nat (length (filter listed (questions survey)))) as Htotal.
  { unfold d. rewrite section_counts_survey.
    rewrite <- (count_in_names _ _ Hnd), <- list_fmap_compose. done. }
  split_and!; [|done|done| |].
  - apply Forall_forall. intros s _. cbv zeta.
    assert (section_questions
              (section_item (question_item <$> questions survey) s)
            = PDict <$> List.filter (item_in_section s)
                          (question_item <$> questions survey)) as ->
      by (by vm_compute).
    assert (int_entry (section_item (question_item <$> questions survey) s)
              (utf8 "question_count")
            = Z.of_nat (length (List.filter (item_in_section s)
                                  (question_item <$> questions survey)))) as ->
      by (by vm_compute).
    rewrite filter_question_items, !length_fmap. done.
  - rewrite Htotal, Hcount.
    pose proof (length_filter listed (questions survey)). lia.
  - rewrite Htotal, Hcount.
    rewrite <- (length_filter_all listed (questions survey)). lia.
Qed.

(** ** The header of a survey and the headers of a matrix *)

Section Header.
Context `{U : UnicodeData} `{B : Bs4}.

Lemma tag_text_normalized (tag : option Tag) : normalized (tag_text tag).
Proof. destruct tag; [apply normalize_text_normalized|by vm_compute]. Qed.

Lemma first_description_skip (soup : Tag) (before rest : list pystr) :
  Forall (fun s => tag_text (select_one soup s) = []) before →
  first_description soup (before ++ rest) = first_description soup rest.
Proof.
  induction 1 as [|s before Hs _ IH]; [done|].
  cbn [app first_description]. cbv zeta. by rewrite Hs.
Qed.

Lemma first_description_normalized (soup : Tag) (candidates : list pystr)
    (text : pystr) :
  first_description soup candidates = Some text → normalized text.
Proof.
  induction candidates as [|s candidates IH]; [done|].
  cbn [first_description]. cbv zeta.
  destruct (Str.truthy _); [|done].
  intros [= <-]. apply tag_text_normalized.
Qed.

(** X21. The description of a page is normalized text. It is the text of
    the first of the five candidate selectors whose element has text; the
    [og:description] meta content is used only when none has. *)
Theorem extract_description_priority (soup : Tag) :
  normalized (extract_description soup)
  ∧ (∀ before sel after,
       description_candidates = before ++ sel :: after →
       Forall (fun s => tag_text (select_one soup s) = []) before →
       tag_text (select_one soup sel) ≠ [] →
       extract_description soup = tag_text (select_one soup sel))
  ∧ (Forall (fun s => tag_text (select_one soup s) = [])
            description_candidates →
     extract_description soup
     = match select_one soup (utf8 "meta[property='og:description']") with
       | Some meta_desc => normalize_text (get_str meta_desc (utf8 "content"))
       | None => []
       end).
Proof.
  assert (normalize_text [] = []) as Hnil.
  { apply normalize_text_id. by vm_compute. }
  unfold extract_description. split_and!.
  - destruct (first_description soup description_candidates) as [text|] eqn:Hd.
    { by eapply first_description_normalized. }
    destruct (select_one soup _) as [meta_desc|]; [|by vm_compute].
    destruct (get meta_desc _) as [[|c content]|];
      [by vm_compute|apply normalize_text_normalized|by vm_compute].
  - intros before sel after -> Hbefore Hsel.
    rewrite (first_description_skip _ _ _ Hbefore).
    cbn [first_description]. cbv zeta.
    by rewrite (proj2 (truthy_nonempty _) Hsel).
  - intros Hall.
    pose proof (first_description_skip soup description_candidates [] Hall)
      as Hd.
    rewrite app_nil_r in Hd. rewrite Hd. cbn [first_description].
    destruct (select_one soup _) as [meta_desc|]; [|done].
    unfold get_str. by destruct (get meta_desc _) as [[|c content]|].
Qed.

(** X22. The header of a returned survey: the title is never empty, and it
    is normalized text; so is the description; the source URL is the one
    given and the crawl time is the formatted clock. *)
Theorem survey_header (now : datetime) (html url : pystr) (s : Survey) :
  parse_survey now html url = Return s →
  title s ≠ []
  ∧ normalized (title s)
  ∧ normalized (description s)
  ∧ source_url s = url
  ∧ crawl_time s = strftime now.
Proof.
  intros Hp.
  destruct (parse_survey_Return _ _ _ _ Hp) as (st & _ & _ & _ & _ & ->).
  cbn [title description source_url crawl_time survey_of].
  split_and!; [| |apply extract_description_priority|done|done].
  - destruct (tag_text (select_one _ _)); [|done].
    destruct (tag_text (find _ _)); [by vm_compute|done].
  - pose proof (tag_text_normalized
                  (select_one (BeautifulSoup html) (utf8 "#htitle"))) as H1.
    pose proof (tag_text_normalized
                  (find (BeautifulSoup html) (utf8 "title"))) as H2.
    destruct (tag_text (select_one _ _)); [|done].
    destruct (tag_text (find _ _)); [by vm_compute|done].
Qed.

(** X23. The column headers of a matrix question are exactly the non-empty
    texts of the cells of the first row, in order: dropping an empty first
    cell changes nothing that the filter after it would not do. *)
Theorem matrix_headers_nonempty_texts (first_row : Tag) :
  matrix_headers first_row
  = filter (fun h => h ≠ [])
      ((fun cell => tag_text (Some cell))
       <$> find_all first_row [utf8 "th"; utf8 "td"])
  ∧ Forall (fun h => h ≠ []) (matrix_headers first_row).
Proof.
  assert (matrix_headers first_row
          = filter (fun h => h ≠ [])
              ((fun cell => tag_text (Some cell))
               <$> find_all first_row [utf8 "th"; utf8 "td"])) as Heq.
  { unfold matrix_headers. cbv zeta.
    destruct (_ <$> find_all first_row _) as [|[|c h] rest]; [done| |done].
    by rewrite (filter_cons_False _ []) by (by intros ?). }
  split; [done|]. rewrite Heq. apply Forall_forall.
  by intros h [? _]%list_elem_of_filter.
Qed.

End Header.

(** ** [render_markdown] *)

Lemma lstrip_app_nonspace (x y : pystr) (c : char) :
  Str.isspace c = false → Str.lstrip (x ++ c :: y) = Str.lstrip x ++ c :: y.
Proof.
  intros Hc. induction x as [|d x IH]; simpl; [by rewrite Hc|].
  by destruct (Str.isspace d).
Qed.

Lemma rstrip_app_nonspace (a b : pystr) (c : char) :
  Str.isspace c = false →
  Str.rstrip (a ++ c :: b) = a ++ c :: Str.rstrip b.
Proof.
  intros Hc. unfold Str.rstrip.
  rewrite rev_app_distr. cbn [rev]. rewrite <- app_assoc. cbn [app].
  rewrite (lstrip_app_nonspace _ _ _ Hc).
  rewrite rev_app_distr. cbn [rev]. rewrite rev_involutive.
  by rewrite <- app_assoc.
Qed.

(** X24. The Markdown text begins with the title heading, a blank line and
    the metadata heading, and it ends with exactly one line feed, which
    follows a character that is not whitespace. *)
Theorem render_markdown_frame (survey : Survey) :
  ∃ body,
    render_markdown survey = body ++ NEWLINE
    ∧ (utf8 "# " ++ title survey ++ NEWLINE ++ NEWLINE ++ utf8 "## 元数据")
      `prefix_of` body
    ∧ head_nonspace (rev body).
Proof.
  exists (Str.rstrip (Str.join NEWLINE (render_lines survey))).
  split_and!; [done| |apply rstrip_last_nonspace].
  unfold render_lines. cbn [app Str.join].
  change (utf8 "## 元数据") with (utf8 "## 元数" ++ [0x636E%N]).
  assert (∀ rest,
            (utf8 "# " ++ title survey) ++ NEWLINE ++ NEWLINE
            ++ (utf8 "## 元数" ++ [0x636E%N]) ++ NEWLINE ++ rest
            = (utf8 "# " ++ title survey ++ NEWLINE ++ NEWLINE ++ utf8 "## 元数")
              ++ 0x636E%N :: (NEWLINE ++ rest)) as Hshape.
  { intros rest. cbn [app]. by rewrite <- !app_assoc. }
  rewrite Hshape, rstrip_app_nonspace by done.
  eexists. rewrite <- !app_assoc. cbn [app]. reflexivity.
Qed.

(** ** The statements at sample inputs *)

Lemma truncate_cases_witness :
  (3 <= 5)%Z
  ∧ @truncate Ascii_tables.tables (utf8 "hello  world") 5 = utf8 "he..."
  ∧ @truncate Ascii_tables.tables (utf8 "a  b") 5 = utf8 "a b".
Proof.
  assert (3 <= 5)%Z as H by lia. split; [exact H|]. split.
  - destruct (@truncate_cases Ascii_tables.tables (utf8 "hello  world") 5 H)
      as [_ Hlong].
    destruct Hlong as [-> _]; [by vm_compute|]. by vm_compute.
  - destruct (@truncate_cases Ascii_tables.tables (utf8 "a  b") 5 H)
      as [Hshort _].
    rewrite Hshort; by vm_compute.
Defined.

Lemma truncate_stable_witness :
  (3 <= 5)%Z
  ∧ @truncate Ascii_tables.tables
      (@truncate Ascii_tables.tables (utf8 "hello  world") 5) 5
    = @truncate Ascii_tables.tables (utf8 "hello  world") 5.
Proof.
  assert (3 <= 5)%Z as H by lia. split; [exact H|].
  exact (proj2 (@truncate_stable Ascii_tables.tables (utf8 "hello  world") 5 H)).
Defined.

Lemma display_numbers_distinct_witness :
  run_parse_survey sample_now sample_doc (utf8 "u") = Return sample_survey
  ∧ NoDup (display_no <$> questions sample_survey).
Proof.
  assert (run_parse_survey sample_now sample_doc (utf8 "u")
          = Return sample_survey) as Hp by (vm_compute; reflexivity).
  split; [exact Hp|].
  exact (@display_numbers_distinct Ascii_tables.tables TreeDom.bs4
           sample_now sample_doc (utf8 "u") sample_survey Hp).
Defined.

Lemma signal_table_last_assignment_wins_witness :
  @Re.findall Ascii_tables.tables true Pat.VAR_ASSIGN reassigned_doc
  = take 1 reassigned_matches
    ++ [(1%nat, utf8 "relation_map"); (2%nat, utf8 "q3")]
    :: drop 2 reassigned_matches
  ∧ dict_find (@extract_global_logic_signals Ascii_tables.tables reassigned_doc)
      (utf8 "relation_map")
    = Some (utf8 "q3").
Proof.
  assert (@Re.findall Ascii_tables.tables true Pat.VAR_ASSIGN reassigned_doc
          = take 1 reassigned_matches
            ++ [(1%nat, utf8 "relation_map"); (2%nat, utf8 "q3")]
            :: drop 2 reassigned_matches) as Hfound
    by (vm_compute; reflexivity).
  split; [exact Hfound|].
  assert (is_kept [(1%nat, utf8 "relation_map"); (2%nat, utf8 "q3")] = true)
    as Hkept by (vm_compute; reflexivity).
  assert (Forall (fun m' => is_kept m' = true
                   → Re.group m' 1
                     ≠ Re.group [(1%nat, utf8 "relation_map");
                                 (2%nat, utf8 "q3")] 1)
            (drop 2 reassigned_matches)) as Hafter.
  { vm_compute. constructor; [|constructor]. discriminate. }
  exact (@signal_table_last_assignment_wins Ascii_tables.tables
           reassigned_doc _ _ _ Hfound Hkept Hafter).
Defined.

Lemma section_names_first_occurrence_witness :
  run_parse_survey sample_now sample_doc (utf8 "u") = Return sample_survey
  ∧ name <$> sections sample_survey
    `sublist_of` [DEFAULT_SECTION; utf8 "Part A"]
  ∧ NoDup (name <$> sections sample_survey).
Proof.
  assert (run_parse_survey sample_now sample_doc (utf8 "u")
          = Return sample_survey) as Hp by (vm_compute; reflexivity).
  split; [exact Hp|].
  destruct (@section_names_first_occurrence Ascii_tables.tables TreeDom.bs4
              sample_now sample_doc (utf8 "u") sample_survey Hp)
    as (Hsub & Hnd & _).
  split; [|exact Hnd].
  assert (unique_keep_order
            (DEFAULT_SECTION
             :: @divider_names Ascii_tables.tables TreeDom.bs4
                  (@nodes_of TreeDom.bs4 sample_doc))
          = [DEFAULT_SECTION; utf8 "Part A"]) as Hnames
    by (vm_compute; reflexivity).
  rewrite <- Hnames. exact Hsub.
Defined.

Lemma section_topic_range_witness :
  sections sample_survey
  = build_sections (questions sample_survey) [DEFAULT_SECTION; utf8 "Part A"]
  ∧ Forall (fun sec => start_topic sec = None ↔ end_topic sec = None)
           (sections sample_survey).
Proof.
  assert (sections sample_survey
          = build_sections (questions sample_survey)
              [DEFAULT_SECTION; utf8 "Part A"]) as Hs
    by (vm_compute; reflexivity).
  split; [exact Hs|].
  apply Forall_forall. intros sec Hin. rewrite Hs in Hin.
  exact (proj1 (section_topic_range _ _ sec Hin)).
Defined.

Lemma fetch_html_first_success_witness :
  (fetch_html flaky_get 3).1 = Return (utf8 "<html></html>")
  ∧ gets (fetch_html flaky_get 3).2 = [0; 1; 2]%Z
  ∧ sleeps (fetch_html flaky_get 3).2 = [1; 2]%Z.
Proof.
  assert (0 <= 2 <= 3)%Z as Hk by lia.
  assert (∀ j, (0 <= j < 2)%Z → failing (flaky_get j)) as Hfail.
  { intros j Hj. unfold flaky_get. destruct (Z.ltb_spec j 2); [exact I|lia]. }
  assert (flaky_get 2 = Response 200 (utf8 "<html></html>")) as Hget
    by reflexivity.
  assert (200 < 400)%Z as Hok by lia.
  destruct (fetch_html_first_success flaky_get 3 2 200 _ Hk Hfail Hget Hok)
    as (H1 & H2 & H3 & _).
  split_and!; [exact H1|exact H2|exact H3].
Defined.

Lemma fetch_html_exhausted_witness :
  (fetch_html unavailable_get 2).1
  = Raise (mkExportError EXIT_NETWORK (utf8 "网络请求失败: HTTP 503"))
  ∧ gets (fetch_html unavailable_get 2).2 = [0; 1; 2]%Z
  ∧ sleeps (fetch_html unavailable_get 2).2 = [1; 2]%Z.
Proof.
  assert (0 <= 2)%Z as Hr by lia.
  assert (∀ j, (0 <= j <= 2)%Z → failing (unavailable_get j)) as Hfail.
  { intros j _. unfold unavailable_get, failing. lia. }
  destruct (fetch_html_exhausted unavailable_get 2 Hr Hfail)
    as (H1 & H2 & H3 & _).
  split_and!; [|exact H2|exact H3].
  rewrite H1. vm_compute. reflexivity.
Defined.

Lemma survey_to_dict_counts_witness :
  NoDup (name <$> sections sample_survey)
  ∧ total (section_counts (survey_to_dict sample_survey)) = 2%Z
  ∧ int_entry (survey_to_dict sample_survey) (utf8 "question_count") = 2%Z.
Proof.
  assert (NoDup (name <$> sections sample_survey)) as Hnd.
  { apply (bool_decide_unpack _). vm_compute. exact I. }
  split; [exact Hnd|].
  destruct (survey_to_dict_counts sample_survey Hnd) as (_ & H2 & H3 & _).
  split.
  - rewrite H3. vm_compute. reflexivity.
  - rewrite H2. vm_compute. reflexivity.
Defined.

Lemma survey_header_witness :
  run_parse_survey sample_now sample_doc (utf8 "u") = Return sample_survey
  ∧ title sample_survey ≠ []
  ∧ source_url sample_survey = utf8 "u"
  ∧ crawl_time sample_survey = utf8 "2024-03-09 08:05:00".
Proof.
  assert (run_parse_survey sample_now sample_doc (utf8 "u")
          = Return sample_survey) as Hp by (vm_compute; reflexivity).
  split; [exact Hp|].
  destruct (@survey_header Ascii_tables.tables TreeDom.bs4
              sample_now sample_doc (utf8 "u") sample_survey Hp)
    as (H1 & _ & _ & H4 & H5).
  split_and!; [exact H1|exact H4|].
  rewrite H5. vm_compute. reflexivity.
Defined.

Lemma parse_question_fields_nonempty_witness :
  ∃ q, @parse_question Ascii_tables.tables TreeDom.bs4 bare_choice 1
         DEFAULT_SECTION [] = Return q
       ∧ stem q ≠ [] ∧ options q ≠ [] ∧ logic_notes q ≠ [] ∧ qtype q ≠ [].
Proof.
  destruct (@parse_question Ascii_tables.tables TreeDom.bs4 bare_choice 1
              DEFAULT_SECTION []) as [q|e] eqn:Hp;
    [|vm_compute in Hp; discriminate Hp].
  exists q. split; [reflexivity|].
  destruct (@parse_question_fields_nonempty Ascii_tables.tables TreeDom.bs4
              bare_choice 1 DEFAULT_SECTION [] q Hp)
    as (H1 & H2 & H3 & H4 & _).
  split_and!; [exact H1|exact H2|exact H3|exact H4].
Defined.


Lemma untyped_question_fallback_witness :
  (@get TreeDom.bs4 untyped_node (utf8 "type") = None
   ∨ @get TreeDom.bs4 untyped_node (utf8 "type") = Some [])
  ∧ ∃ q, @parse_question Ascii_tables.tables TreeDom.bs4 untyped_node 1
           DEFAULT_SECTION [] = Return q
         ∧ qtype q = utf8 "未知类型(N/A)"
         ∧ options q = FALLBACK_PLACEHOLDER.
Proof.
  assert (@get TreeDom.bs4 untyped_node (utf8 "type") = None
          ∨ @get TreeDom.bs4 untyped_node (utf8 "type") = Some []) as Hty
    by (left; vm_compute; reflexivity).
  split; [exact Hty|].
  destruct (@untyped_question_fallback Ascii_tables.tables TreeDom.bs4
              untyped_node 1 DEFAULT_SECTION [] Hty) as (Hq & Hret).
  destruct (proj2 Hret) as [q Hp]; [vm_compute; reflexivity|].
  exists q. destruct (Hq q Hp) as (H1 & H2).
  split_and!; [exact Hp|exact H1|].
  rewrite H2. vm_compute. reflexivity.
Defined.
